(** * Persistence core of mcp-agent-system: a shallow embedding

    The development follows the layering of the TypeScript sources:

    - JavaScript values and plain objects (rows, entities, filters);
    - the filter compiler of [BaseSQLiteRepository]
      (src/services/database/sqlite/base-repository.ts);
    - a model of the SQLite tables that the generated statements address,
      and the generic CRUD operations on top of it;
    - the Task and Memory entity repositories
      (src/services/repositories/*.ts);
    - the task service's status machine (src/services/task/task-service.ts);
    - the lexical similarity search of the memory repository;
    - the migration manager (src/services/database/migration-manager.ts);
    - the transactions of the connection (connection.ts), the batch
      operations built on them, the conversions of the TimeEntry and
      Notification repositories, and the filter compiler of the task
      repository.

    Strings are Rocq strings: sequences of code units below 256.  Numbers
    are exact: integers ([Z]) and, where the sources use fractions,
    rationals ([Qc], [Q]) in place of doubles.  Dates are valid instants, in
    milliseconds since the epoch.  The wall clock ([new Date()]) is an
    explicit argument [now], read once per repository or service call.
    Console and logger output of the repositories and of the task service is
    left out; the migration manager's log is part of its model. *)

From stdpp Require Import base list strings gmap pretty sorting.
From Stdlib Require Import Ascii ZArith QArith Qcanon Lia.
From Stdlib Require DecimalString DecimalZ.

#[local] Set Warnings "-clear-no-such-hyp".

Open Scope string_scope.
Open Scope list_scope.
Open Scope Z_scope.

(** ** Built-ins of the JavaScript runtime

    [Date.prototype.toISOString], [new Date(text)], [JSON.stringify] and
    [JSON.parse] belong to the runtime, not to the repository.  They are
    taken as an interface; [J] is the type of structured values (objects and
    arrays: metadata maps, tag arrays, relationship arrays) that JSON can
    represent. *)

Class JsEnv := {
  J : Type;
  J_eq_dec :: EqDecision J;
  (** [{}] and [[]] *)
  J_empty_object : J;
  J_empty_array : J;
  (** [d.toISOString()] for the instant [t] (milliseconds since the epoch) *)
  toISOString : Z → string;
  (** [new Date(text).getTime()] *)
  Date_parse : string → Z;
  (** [String(v)] for a date, a structured value and a fraction *)
  Date_toString : Z → string;
  J_toString : J → string;
  Number_toString : Qc → string;
  (** [JSON.stringify] on structured values and on strings *)
  JSON_stringify : J → string;
  JSON_quote : string → string;
  (** [JSON.parse]; [None] is a thrown SyntaxError *)
  JSON_parse : string → option J;
}.

(** The laws of the built-ins that the round-trip properties rely on: an
    ISO-8601 text denotes the instant it was printed from, a JSON text
    denotes the value it was printed from, and neither text is empty. *)
Class JsEnvLaws (E : JsEnv) : Prop := {
  Date_parse_toISOString : ∀ t, Date_parse (toISOString t) = t;
  toISOString_nonempty : ∀ t, toISOString t ≠ "";
  JSON_parse_stringify : ∀ j, JSON_parse (JSON_stringify j) = Some j;
  JSON_stringify_nonempty : ∀ j, JSON_stringify j ≠ "";
}.

Section Values.
Context `{E : JsEnv}.

Inductive value : Type :=
  | VUndef
  | VNull
  | VBool (b : bool)
  | VNum (n : Z)            (* an integral number *)
  | VFrac (q : Qc)          (* a number that is not an integer *)
  | VStr (s : string)
  | VDate (t : Z)
  | VObj (j : J).

#[export] Instance value_eq_dec : EqDecision value.
Proof. solve_decision. Defined.

(** [Boolean(v)] *)
Definition truthy (v : value) : bool :=
  match v with
  | VUndef | VNull => false
  | VBool b => b
  | VNum n => negb (n =? 0)
  | VFrac _ => true
  | VStr s => negb (String.eqb s "")
  | VDate _ | VObj _ => true
  end.

(** [a || b] *)
Definition js_or (a b : value) : value := if truthy a then a else b.

(** [String(v)], as a template literal applies it *)
Definition ToString (v : value) : string :=
  match v with
  | VUndef => "undefined"
  | VNull => "null"
  | VBool true => "true"
  | VBool false => "false"
  | VNum n => pretty n
  | VFrac q => Number_toString q
  | VStr s => s
  | VDate t => Date_toString t
  | VObj j => J_toString j
  end.

(** [a === b]; two dates or two structured values are distinct
    allocations *)
Definition strict_eq (a b : value) : bool :=
  match a, b with
  | VDate _, _ | _, VDate _ | VObj _, _ | _, VObj _ => false
  | _, _ => bool_decide (a = b)
  end.

Definition is_undefined (v : value) : bool :=
  match v with VUndef => true | _ => false end.

(** *** Plain objects

    An object is the list of its own enumerable properties in enumeration
    order.  Keys are field and column names. *)
#[local] Abbreviation obj := (list (string * value)).

Fixpoint obj_lookup (k : string) (o : obj) : option value :=
  match o with
  | [] => None
  | (k', v) :: o' => if decide (k' = k) then Some v else obj_lookup k o'
  end.

(** [o.k] *)
Definition obj_get (k : string) (o : obj) : value :=
  default VUndef (obj_lookup k o).

(** [{...o, k: v}]: an existing key keeps its position *)
Fixpoint obj_set (k : string) (v : value) (o : obj) : obj :=
  match o with
  | [] => [(k, v)]
  | (k', v') :: o' =>
      if decide (k' = k) then (k, v) :: o' else (k', v') :: obj_set k v o'
  end.

(** [{...a, ...b}] *)
Definition obj_spread (a b : obj) : obj :=
  foldl (λ acc kv, obj_set kv.1 kv.2 acc) a b.

(** [Object.keys(o)] and [Object.entries(o)] *)
Definition Object_keys (o : obj) : list string := o.*1.
Definition Object_entries (o : obj) : list (string * value) := o.

(** [const {k1, ..., kn, ...rest} = o]: the rest object *)
Definition obj_rest (ks : list string) (o : obj) : obj :=
  filter (λ kv, kv.1 ∉ ks) o.

(** [xs.join(sep)] *)
Definition join (sep : string) (xs : list string) : string :=
  String.concat sep xs.

End Values.

Abbreviation obj := (list (string * value)).

(** ** The filter compiler (base-repository.ts, lines 39-85) *)

Section FilterCompiler.
Context `{E : JsEnv}.

(** The four control keys that the destructuring patterns name. *)
Definition reserved_keys : list string :=
  ["limit"; "offset"; "orderBy"; "orderDirection"].

(** One turn of the [for (const [key, value] of Object.entries(conditions))]
    loop: push the predicate and its parameter. *)
Definition push_condition (acc : list string * list value) (kv : string * value)
  : list string * list value :=
  (acc.1 ++ [kv.1 +:+ " = ?"], acc.2 ++ [kv.2]).

Definition buildWhereClause (filter : option obj) : string * list value :=
  match filter with
  | None => ("", [])
  | Some f =>
      let conditions := obj_rest reserved_keys f in
      let '(whereConditions, params) :=
        foldl push_condition ([], []) (Object_entries conditions) in
      let whereClause :=
        if decide (0 < length whereConditions)%nat
        then "WHERE " +:+ join " AND " whereConditions
        else "" in
      (whereClause, params)
  end.

Definition buildOrderAndLimit (filter : option obj) : string :=
  match filter with
  | None => ""
  | Some f =>
      let orderBy := obj_get "orderBy" f in
      let orderDirection := obj_get "orderDirection" f in
      let limit := obj_get "limit" f in
      let offset := obj_get "offset" f in
      let clause := "" in
      let clause :=
        if truthy orderBy
        then clause +:+ " ORDER BY " +:+ ToString orderBy +:+ " "
                    +:+ ToString (js_or orderDirection (VStr "ASC"))
        else clause in
      let clause :=
        if negb (is_undefined limit)
        then
          let clause := clause +:+ " LIMIT " +:+ ToString limit in
          if negb (is_undefined offset)
          then clause +:+ " OFFSET " +:+ ToString offset
          else clause
        else clause in
      clause
  end.

End FilterCompiler.

(** ** Errors and the repository monad *)

Section Effects.
Context `{E : JsEnv}.

(** The messages that [validateTask] collects (task-service.ts:166-194). *)
Inductive validation_error : Type :=
  | TitleRequired | TypeRequired | StatusRequired | PriorityRequired
  | TitleLength | DueDateInPast.

(** The exceptions that the modelled code raises.  The sources build
    [Error] objects with a message; the constructors name the site. *)
Inductive error : Type :=
  | SqlError (msg : string)                   (* rejected by the driver *)
  | RangeOrTypeError (msg : string)           (* thrown by a built-in *)
  | JsonSyntaxError (text : string)           (* JSON.parse *)
  | PostUpdateFetchFailed (id : value)        (* base-repository.ts:203 *)
  | TaskNotFound (id : value)                 (* task-service.ts:63, :119 *)
  | TaskValidationError (errors : list validation_error) (* task-service.ts:72 *)
  | InvalidStatusTransition (current new : value). (* task-service.ts:170 *)

Inductive outcome (A : Type) : Type :=
  | Ok (a : A)
  | Throw (e : error).
Global Arguments Ok {A} a.
Global Arguments Throw {A} e.

Definition outcome_bind {A B} (r : outcome A) (k : A → outcome B) : outcome B :=
  match r with Ok a => k a | Throw e => Throw e end.

(** [xs.map(f)] where [f] may throw: the first failure, left to right. *)
Fixpoint map_outcome {A B} (f : A → outcome B) (xs : list A) : outcome (list B) :=
  match xs with
  | [] => Ok []
  | x :: xs' =>
      match f x with
      | Ok y => match map_outcome f xs' with
                | Ok ys => Ok (y :: ys)
                | Throw e => Throw e
                end
      | Throw e => Throw e
      end
  end.

Definition is_ok {A} (r : outcome A) : bool :=
  match r with Ok _ => true | Throw _ => false end.

(** A computation over a store [S]: it returns or throws, and in both cases
    leaves a store behind. *)
Definition M (S A : Type) : Type := S → outcome A * S.

Definition ret {S A} (a : A) : M S A := λ s, (Ok a, s).
Definition throw {S A} (e : error) : M S A := λ s, (Throw e, s).
Definition bind {S A B} (m : M S A) (k : A → M S B) : M S B :=
  λ s, match m s with
       | (Ok a, s') => k a s'
       | (Throw e, s') => (Throw e, s')
       end.
Definition lift {S A} (r : outcome A) : M S A := λ s, (r, s).

End Effects.

#[export] Instance outcome_mbind `{E : JsEnv} : MBind outcome :=
  λ A B k r, outcome_bind r k.
#[export] Instance M_ret `{E : JsEnv} {S} : MRet (M S) := λ A, ret.
#[export] Instance M_bind `{E : JsEnv} {S} : MBind (M S) := λ A B k m, bind m k.

(** ** The tables behind the statements

    The repository hands SQL text and parameters to SQLite.  The model keeps
    the statement in structured form and gives its SQLite meaning on a
    table: declared columns, the column (if any) declared INTEGER PRIMARY
    KEY and hence an alias of the rowid, and the rows in rowid order.
    Column names in statements are identifiers; NOT NULL, UNIQUE and
    DEFAULT clauses, type affinity and failures of the connection are not
    modelled. *)

Section Database.
Context `{E : JsEnv}.

Record table : Type := Table {
  tbl_columns : list string;
  tbl_rowid_alias : option string;
  tbl_rows : list (Z * obj);
}.

(** What the driver stores for a bound parameter. *)
Definition sql_bind (v : value) : value :=
  match v with
  | VUndef => VNull
  | VBool b => VNum (if b then 1 else 0)
  | VDate t => VNum t
  | VObj j => VStr (J_toString j)
  | _ => v
  end.

(** [a = b] in a WHERE clause: never true on NULL. *)
Definition sql_eq (a b : value) : bool :=
  match a, b with
  | VNull, _ | _, VNull => false
  | _, _ => bool_decide (a = b)
  end.

(** The order of ORDER BY: NULL, then numbers, then text. *)
Definition number_of (v : value) : option Q :=
  match v with
  | VNum n => Some (inject_Z n)
  | VFrac q => Some (q : Q)
  | _ => None
  end.

Definition sql_leb (a b : value) : bool :=
  match a, b with
  | VNull, _ => true
  | _, VNull => false
  | VStr x, VStr y => String.leb x y
  | _, _ =>
      match number_of a, number_of b with
      | Some x, Some y => Qle_bool x y
      | Some _, None => true
      | None, Some _ => false
      | None, None => true
      end
  end.

(** A stable sort: [insert_by] puts [x] in front of the first element it
    does not exceed. *)
Fixpoint insert_by {A} (le : A → A → bool) (x : A) (l : list A) : list A :=
  match l with
  | [] => [x]
  | y :: l' => if le x y then x :: l else y :: insert_by le x l'
  end.

Definition stable_sort {A} (le : A → A → bool) (l : list A) : list A :=
  foldr (insert_by le) [] l.

Definition row_matches (conds : list (string * value)) (r : obj) : bool :=
  forallb (λ cp, sql_eq (obj_get cp.1 r) (sql_bind cp.2)) conds.

Definition known_columns (t : table) (cs : list string) : bool :=
  forallb (λ c, bool_decide (c ∈ tbl_columns t)) cs.

Definition apply_order (order : option (string * string)) (rows : list obj)
  : outcome (list obj) :=
  match order with
  | None => Ok rows
  | Some (c, d) =>
      if decide (d = "ASC")
      then Ok (stable_sort (λ a b, sql_leb (obj_get c a) (obj_get c b)) rows)
      else if decide (d = "DESC")
      then Ok (stable_sort (λ a b, sql_leb (obj_get c b) (obj_get c a)) rows)
      else Throw (SqlError "syntax error")
  end.

(** LIMIT n OFFSET m: a negative limit is no limit, a negative offset is
    none. *)
Definition apply_limit (limit : option (value * value)) (rows : list obj)
  : outcome (list obj) :=
  match limit with
  | None => Ok rows
  | Some (VNum n, off) =>
      let cut (l : list obj) := if n <? 0 then l else take (Z.to_nat n) l in
      match off with
      | VUndef => Ok (cut rows)
      | VNum m => Ok (cut (drop (Z.to_nat m) rows))
      | _ => Throw (SqlError "datatype mismatch")
      end
  | Some _ => Throw (SqlError "datatype mismatch")
  end.

(** [SELECT * FROM t WHERE c1 = ? AND ... ORDER BY c d LIMIT n OFFSET m]
    through [dbConnection.all] *)
Definition db_all (conds : list (string * value))
    (order : option (string * string)) (limit : option (value * value))
  : M table (list obj) := λ t,
  if negb (known_columns t (conds.*1 ++ from_option (λ o, [o.1]) [] order))
  then (Throw (SqlError "no such column"), t)
  else
    match apply_order order (filter (λ r, row_matches conds r) (tbl_rows t).*2) with
    | Ok sorted => (apply_limit limit sorted, t)
    | Throw e => (Throw e, t)
    end.

(** The same statement through [dbConnection.get]: the first row, or
    [undefined]. *)
Definition db_get (conds : list (string * value))
    (order : option (string * string)) (limit : option (value * value))
  : M table (option obj) :=
  rows ← db_all conds order limit; ret (head rows).

Definition next_rowid (t : table) : Z :=
  1 + foldr Z.max 0 (tbl_rows t).*1.

(** [INSERT INTO t (columns) VALUES (?, ...)] through [dbConnection.run];
    the result is [lastID]. *)
Definition db_insert (columns : list string) (values : list value)
  : M table Z := λ t,
  if negb (known_columns t columns)
  then (Throw (SqlError "no such column"), t)
  else
    let given : obj := zip columns (sql_bind <$> values) in
    let store (rowid : Z) : outcome Z * table :=
      let row := (λ c, (c, if decide (tbl_rowid_alias t = Some c)
                           then VNum rowid
                           else default VNull (obj_lookup c given)))
                 <$> tbl_columns t in
      (Ok rowid, Table (tbl_columns t) (tbl_rowid_alias t)
                       (tbl_rows t ++ [(rowid, row)])) in
    match tbl_rowid_alias t ≫= (λ a, obj_lookup a given) with
    | None | Some VNull => store (next_rowid t)
    | Some (VNum n) =>
        if decide (n ∈ (tbl_rows t).*1)
        then (Throw (SqlError "UNIQUE constraint failed"), t)
        else store n
    | Some _ => (Throw (SqlError "datatype mismatch"), t)
    end.

(** [UPDATE t SET c1 = ?, ... WHERE pk = ?]; the result is [changes]. *)
Definition db_update (columns : list string) (values : list value)
    (pk : string) (id : value) : M table Z := λ t,
  if negb (known_columns t (columns ++ [pk]))
  then (Throw (SqlError "no such column"), t)
  else
    let given : obj := zip columns (sql_bind <$> values) in
    let hit (r : obj) := sql_eq (obj_get pk r) (sql_bind id) in
    let rows' := (λ rr : Z * obj,
                    if hit rr.2 then (rr.1, obj_spread rr.2 given) else rr)
                 <$> tbl_rows t in
    (Ok (Z.of_nat (length (filter (λ rr, hit rr.2) (tbl_rows t)))),
     Table (tbl_columns t) (tbl_rowid_alias t) rows').

(** [DELETE FROM t WHERE pk = ?]; the result is [changes]. *)
Definition db_delete (pk : string) (id : value) : M table Z := λ t,
  if negb (known_columns t [pk])
  then (Throw (SqlError "no such column"), t)
  else
    let hit (r : obj) := sql_eq (obj_get pk r) (sql_bind id) in
    (Ok (Z.of_nat (length (filter (λ rr, hit rr.2) (tbl_rows t)))),
     Table (tbl_columns t) (tbl_rowid_alias t)
           (filter (λ rr, ¬ hit rr.2) (tbl_rows t))).

(** No row of the table has [id] under the key column. *)
Definition no_row_with (pk : string) (id : value) (t : table) : Prop :=
  ∀ rr, rr ∈ tbl_rows t → sql_eq (obj_get pk rr.2) (sql_bind id) = false.

End Database.

(** ** The generic repository (base-repository.ts) *)

Section GenericRepository.
Context `{E : JsEnv}.

(** The statement of [findAll] in structured form: the predicates with
    their parameters, the ORDER BY pair and the LIMIT/OFFSET pair.  Lemma
    [select_text] relates them to the text that [buildWhereClause] and
    [buildOrderAndLimit] produce. *)
Definition where_conditions (filter : option obj) : list (string * value) :=
  match filter with
  | None => []
  | Some f => Object_entries (obj_rest reserved_keys f)
  end.

Definition order_of (filter : option obj) : option (string * string) :=
  match filter with
  | None => None
  | Some f =>
      let orderBy := obj_get "orderBy" f in
      let orderDirection := obj_get "orderDirection" f in
      if truthy orderBy
      then Some (ToString orderBy, ToString (js_or orderDirection (VStr "ASC")))
      else None
  end.

Definition limit_of (filter : option obj) : option (value * value) :=
  match filter with
  | None => None
  | Some f =>
      let limit := obj_get "limit" f in
      let offset := obj_get "offset" f in
      if negb (is_undefined limit) then Some (limit, offset) else None
  end.

Definition render_where (conds : list (string * value)) : string :=
  match conds with
  | [] => ""
  | _ => "WHERE " +:+ join " AND " ((λ c, c.1 +:+ " = ?") <$> conds)
  end.

Definition render_order (order : option (string * string)) : string :=
  match order with
  | None => ""
  | Some (c, d) => " ORDER BY " +:+ c +:+ " " +:+ d
  end.

Definition render_limit (limit : option (value * value)) : string :=
  match limit with
  | None => ""
  | Some (n, off) =>
      " LIMIT " +:+ ToString n +:+
      (if negb (is_undefined off) then " OFFSET " +:+ ToString off else "")
  end.

(** The members that subclasses supply or override. *)
Variable primaryKey : string.
Variable entityToRow : Z → obj → outcome obj.
Variable rowToEntity : Z → obj → outcome obj.
Variable whereOf : option obj → list (string * value).

Definition findById (now : Z) (id : value) : M table (option obj) :=
  row ← db_get [(primaryKey, id)] None None;
  match row with
  | Some r => e ← lift (rowToEntity now r); mret (Some e)
  | None => mret None
  end.

Definition findAll (now : Z) (filter : option obj) : M table (list obj) :=
  rows ← db_all (whereOf filter) (order_of filter) (limit_of filter);
  lift (map_outcome (rowToEntity now) rows).


Definition create (now : Z) (entity : obj) : M table obj :=
  row ← lift (entityToRow now entity);
  let columns := filter (λ key, key ≠ "id") (Object_keys row) in
  let values := (λ column, obj_get column row) <$> columns in
  lastID ← db_insert columns values;
  mret (obj_set "id" (VNum lastID) entity).

(** [update] is typed [Promise<T>], but its first branch returns
    [findById(id) as Promise<T>], which may be [undefined]: the result is an
    optional entity. *)
Definition update (now : Z) (id : value) (entity : obj) : M table (option obj) :=
  row ← lift (entityToRow now entity);
  let columns :=
    filter (λ key, key ≠ "id" ∧ obj_get key row ≠ VUndef) (Object_keys row) in
  if decide (length columns = 0%nat)
  then findById now id
  else
    let values := ((λ column, obj_get column row) <$> columns) in
    _ ← db_update columns values primaryKey id;
    updatedEntity ← findById now id;
    match updatedEntity with
    | None => throw (PostUpdateFetchFailed id)
    | Some e => mret (Some e)
    end.

Definition delete (id : value) : M table bool :=
  result ← db_delete primaryKey id;
  mret (0 <? result).

End GenericRepository.

(** ** The base class's own conversions (base-repository.ts, lines 21-32):
    [{ ...entity }] and [row as T] *)

Section BaseRepository.
Context `{E : JsEnv}.

Definition Base_entityToRow (now : Z) (entity : obj) : outcome obj := Ok entity.
Definition Base_rowToEntity (now : Z) (row : obj) : outcome obj := Ok row.


End BaseRepository.

(** ** Entity repositories: serialization *)

Section EntityRepositories.
Context `{E : JsEnv}.

(** [JSON.stringify(v)] *)
Definition JSON_stringify_value (v : value) : value :=
  match v with
  | VUndef => VUndef
  | VNull => VStr "null"
  | VBool true => VStr "true"
  | VBool false => VStr "false"
  | VNum n => VStr (pretty n)
  | VFrac q => VStr (Number_toString q)
  | VStr s => VStr (JSON_quote s)
  | VDate t => VStr (JSON_quote (toISOString t))
  | VObj j => VStr (JSON_stringify j)
  end.

(** [JSON.parse(v)]; the results in the modelled columns are structured
    values *)
Definition JSON_parse_value (v : value) : outcome value :=
  match JSON_parse (ToString v) with
  | Some j => Ok (VObj j)
  | None => Throw (JsonSyntaxError (ToString v))
  end.

(** [v.toISOString()]: only dates have the method *)
Definition call_toISOString (v : value) : outcome value :=
  match v with
  | VDate t => Ok (VStr (toISOString t))
  | _ => Throw (RangeOrTypeError "toISOString is not a function")
  end.

(** [new Date(v)]; a text that denotes no instant gives the invalid date,
    which the model does not tell apart from [Date_parse]'s value on that
    text *)
Definition new_Date (v : value) : value :=
  match v with
  | VDate t => VDate t
  | VNum n => VDate n
  | VFrac q => VDate (Z.quot (Qnum q) (Z.pos (Qden q)))
  | VStr s => VDate (Date_parse s)
  | VBool b => VDate (if b then 1 else 0)
  | VNull => VDate 0
  | VUndef => VDate (Date_parse "undefined")
  | VObj j => VDate (Date_parse (J_toString j))
  end.

Definition one_half : Qc := Q2Qc (1 # 2).

(** *** TaskRepository (task-repository.ts, lines 31-74) *)

Definition Task_entityToRow (now : Z) (task : obj) : outcome obj :=
  let metadata :=
    if truthy (obj_get "metadata" task)
    then JSON_stringify_value (obj_get "metadata" task) else VNull in
  dueDate ← (if truthy (obj_get "dueDate" task)
             then call_toISOString (obj_get "dueDate" task) else Ok VNull);
  createdAt ← (if truthy (obj_get "createdAt" task)
               then call_toISOString (obj_get "createdAt" task)
               else Ok (VStr (toISOString now)));
  Ok (obj_spread task
        [("metadata", metadata); ("dueDate", dueDate);
         ("createdAt", createdAt); ("updatedAt", VStr (toISOString now))]).

(** The default title is the UTF-8 text of the source literal. *)
Definition Task_defaults (now : Z) : obj :=
  [("id", VStr ""); ("title", VStr "無題タスク"); ("description", VStr "");
   ("type", VStr "DEVELOPMENT"); ("status", VStr "CREATED");
   ("priority", VStr "MEDIUM"); ("metadata", VObj J_empty_object);
   ("createdAt", VDate now); ("updatedAt", VDate now)].

Definition Task_rowToEntity (now : Z) (row : obj) : outcome obj :=
  let defaults := Task_defaults now in
  metadata ← (if truthy (obj_get "metadata" row)
              then JSON_parse_value (obj_get "metadata" row)
              else Ok (obj_get "metadata" defaults));
  Ok (obj_spread (obj_spread defaults row)
        [("id", js_or (obj_get "id" row) (obj_get "id" defaults));
         ("metadata", metadata);
         ("dueDate", if truthy (obj_get "dueDate" row)
                     then new_Date (obj_get "dueDate" row) else VUndef);
         ("createdAt", if truthy (obj_get "createdAt" row)
                       then new_Date (obj_get "createdAt" row)
                       else obj_get "createdAt" defaults);
         ("updatedAt", if truthy (obj_get "updatedAt" row)
                       then new_Date (obj_get "updatedAt" row)
                       else obj_get "updatedAt" defaults)]).

(** *** MemoryRepository (memory-repository.ts, lines 42-96) *)

Definition Memory_entityToRow (now : Z) (memory : obj) : outcome obj :=
  timestamp ← call_toISOString (obj_get "timestamp" memory);
  lastAccessed ← (if truthy (obj_get "lastAccessed" memory)
                  then call_toISOString (obj_get "lastAccessed" memory)
                  else Ok VNull);
  createdAt ← (if truthy (obj_get "createdAt" memory)
               then call_toISOString (obj_get "createdAt" memory)
               else Ok (VStr (toISOString now)));
  Ok (obj_spread memory
        [("timestamp", timestamp); ("lastAccessed", lastAccessed);
         ("tags", JSON_stringify_value (obj_get "tags" memory));
         ("metadata", JSON_stringify_value (obj_get "metadata" memory));
         ("relationships", JSON_stringify_value (obj_get "relationships" memory));
         ("createdAt", createdAt); ("updatedAt", VStr (toISOString now))]).

Definition Memory_defaults (now : Z) : obj :=
  [("id", VStr ""); ("type", VStr "CONCEPT"); ("content", VStr "");
   ("context", VStr ""); ("importance", VFrac one_half);
   ("confidence", VFrac one_half); ("source", VStr "system");
   ("timestamp", VDate now); ("accessCount", VNum 0);
   ("tags", VObj J_empty_array); ("metadata", VObj J_empty_object);
   ("relationships", VObj J_empty_array);
   ("createdAt", VDate now); ("updatedAt", VDate now)].

Definition Memory_rowToEntity (now : Z) (row : obj) : outcome obj :=
  let defaults := Memory_defaults now in
  tags ← (if truthy (obj_get "tags" row)
          then JSON_parse_value (obj_get "tags" row)
          else Ok (obj_get "tags" defaults));
  metadata ← (if truthy (obj_get "metadata" row)
              then JSON_parse_value (obj_get "metadata" row)
              else Ok (obj_get "metadata" defaults));
  relationships ← (if truthy (obj_get "relationships" row)
                   then JSON_parse_value (obj_get "relationships" row)
                   else Ok (obj_get "relationships" defaults));
  Ok (obj_spread (obj_spread defaults row)
        [("id", js_or (obj_get "id" row) (obj_get "id" defaults));
         ("timestamp", if truthy (obj_get "timestamp" row)
                       then new_Date (obj_get "timestamp" row)
                       else obj_get "timestamp" defaults);
         ("lastAccessed", if truthy (obj_get "lastAccessed" row)
                          then new_Date (obj_get "lastAccessed" row)
                          else VUndef);
         ("tags", tags); ("metadata", metadata);
         ("relationships", relationships);
         ("createdAt", if truthy (obj_get "createdAt" row)
                       then new_Date (obj_get "createdAt" row)
                       else obj_get "createdAt" defaults);
         ("updatedAt", if truthy (obj_get "updatedAt" row)
                       then new_Date (obj_get "updatedAt" row)
                       else obj_get "updatedAt" defaults)]).

(** [MemoryRepository.buildWhereClause] (lines 103-212) on the filters that
    [findSimilar] builds, whose only possible key is [context]: the
    standard part is empty, and of the domain branches only [if (context)]
    can fire. *)
Definition Memory_where_context (filter : option obj) : list (string * value) :=
  match filter with
  | None => []
  | Some f =>
      let context := obj_get "context" f in
      if truthy context then [("context", context)] else []
  end.

(** A field typed as an object or an array holds a structured value, or is
    absent. *)
Definition structured_or_absent (v : value) : Prop :=
  v = VUndef ∨ ∃ j, v = VObj j.

(** The fields that the conversions of the task repository rewrite; every
    other field passes through both of them. *)
Definition Task_converted_fields : list string :=
  ["id"; "metadata"; "dueDate"; "createdAt"; "updatedAt"].

Definition Memory_converted_fields : list string :=
  ["id"; "timestamp"; "lastAccessed"; "tags"; "metadata"; "relationships";
   "createdAt"; "updatedAt"].

End EntityRepositories.

(** ** The task service (task-service.ts)

    The service wraps every method in [try { ... } catch (error) {
    logger.error(...); throw error }]: the handlers log and rethrow, so the
    exceptions pass unchanged; the logger is not part of the model. *)

Section TaskService.
Context `{E : JsEnv}.

Inductive TaskStatus : Type :=
  | CREATED | PLANNED | IN_PROGRESS | BLOCKED | REVIEW | COMPLETED | CANCELLED.

#[export] Instance TaskStatus_eq_dec : EqDecision TaskStatus.
Proof. solve_decision. Defined.

(** The enum's members are the strings of their names. *)
Definition TaskStatus_str (s : TaskStatus) : string :=
  match s with
  | CREATED => "CREATED" | PLANNED => "PLANNED" | IN_PROGRESS => "IN_PROGRESS"
  | BLOCKED => "BLOCKED" | REVIEW => "REVIEW" | COMPLETED => "COMPLETED"
  | CANCELLED => "CANCELLED"
  end.

Definition TaskStatus_value (s : TaskStatus) : value := VStr (TaskStatus_str s).

(** The repository the service is constructed with. *)
Definition TaskRepository_findById : Z → value → M table (option obj) :=
  findById "id" Task_rowToEntity.
Definition TaskRepository_update : Z → value → obj → M table (option obj) :=
  update "id" Task_entityToRow Task_rowToEntity.
Definition TaskRepository_create : Z → obj → M table obj :=
  create Task_entityToRow.

(** [a < b] on a date or number against the clock *)
Definition before (v : value) (now : Z) : bool :=
  match v with
  | VDate t | VNum t => t <? now
  | VFrac q => negb (Qle_bool (inject_Z now) q)
  | VBool b => (if b then 1 else 0) <? now
  | _ => false
  end.

Definition validateTask (now : Z) (task : obj) : list validation_error :=
  let errors := [] in
  let errors :=
    if negb (truthy (obj_get "id" task))
    then errors
         ++ (if negb (truthy (obj_get "title" task)) then [TitleRequired] else [])
         ++ (if negb (truthy (obj_get "type" task)) then [TypeRequired] else [])
         ++ (if negb (truthy (obj_get "status" task)) then [StatusRequired] else [])
         ++ (if negb (truthy (obj_get "priority" task)) then [PriorityRequired] else [])
    else errors in
  let errors :=
    match obj_get "title" task with
    | VStr title =>
        if truthy (VStr title)
           && ((String.length title <? 3)%nat || (100 <? String.length title)%nat)
        then errors ++ [TitleLength] else errors
    | _ => errors
    end in
  let errors :=
    if truthy (obj_get "dueDate" task) && before (obj_get "dueDate" task) now
    then errors ++ [DueDateInPast] else errors in
  errors.

Definition getTask (now : Z) (id : value) : M table obj :=
  task ← TaskRepository_findById now id;
  match task with
  | None => throw (TaskNotFound id)
  | Some t => mret t
  end.

Definition updateTask (now : Z) (id : value) (updates : obj)
  : M table (option obj) :=
  existingTask ← TaskRepository_findById now id;
  match existingTask with
  | None => throw (TaskNotFound id)
  | Some existing =>
      let validation := validateTask now (obj_spread existing updates) in
      if negb (bool_decide (validation = []))
      then throw (TaskValidationError validation)
      else TaskRepository_update now id
             (obj_spread updates [("updatedAt", VDate now)])
  end.

Definition validTransitions : list (TaskStatus * list TaskStatus) :=
  [ (CREATED, [PLANNED; IN_PROGRESS; CANCELLED]);
    (PLANNED, [IN_PROGRESS; BLOCKED; CANCELLED]);
    (IN_PROGRESS, [BLOCKED; REVIEW; COMPLETED; CANCELLED]);
    (BLOCKED, [IN_PROGRESS; CANCELLED]);
    (REVIEW, [IN_PROGRESS; COMPLETED; CANCELLED]);
    (COMPLETED, [IN_PROGRESS; CANCELLED]);
    (CANCELLED, [CREATED; PLANNED]) ].

(** [validTransitions[currentStatus] || []]: the entry whose key is the
    property key of [currentStatus] *)
Definition allowedTransitions (currentStatus : value) : list TaskStatus :=
  default []
    (snd <$> find (λ entry, String.eqb (TaskStatus_str entry.1)
                                        (ToString currentStatus))
                  validTransitions).

Definition validateStatusTransition (currentStatus newStatus : value)
  : outcome bool :=
  if strict_eq currentStatus newStatus then Ok true
  else if negb (existsb (λ a, strict_eq (TaskStatus_value a) newStatus)
                        (allowedTransitions currentStatus))
  then Throw (InvalidStatusTransition currentStatus newStatus)
  else Ok true.

Definition updateStatus (now : Z) (taskId : value) (status : value)
  : M table (option obj) :=
  task ← getTask now taskId;
  _ ← lift (validateStatusTransition (obj_get "status" task) status);
  updateTask now taskId [("status", status)].

(** The transition table as the specification lists it. *)
Definition transition_table (current : TaskStatus) : list TaskStatus :=
  match current with
  | CREATED => [PLANNED; IN_PROGRESS; CANCELLED]
  | PLANNED => [IN_PROGRESS; BLOCKED; CANCELLED]
  | IN_PROGRESS => [BLOCKED; REVIEW; COMPLETED; CANCELLED]
  | BLOCKED => [IN_PROGRESS; CANCELLED]
  | REVIEW => [IN_PROGRESS; COMPLETED; CANCELLED]
  | COMPLETED => [IN_PROGRESS; CANCELLED]
  | CANCELLED => [CREATED; PLANNED]
  end.

(** A transition the specification calls legal. *)
Definition legal (current new : TaskStatus) : Prop :=
  new = current ∨ new ∈ transition_table current.

End TaskService.

(** ** Lexical similarity search (memory-repository.ts, lines 322-368) *)

Section Similarity.
Context `{E : JsEnv}.

(** [\w] without the unicode flag: [[A-Za-z0-9_]] *)
Definition is_word_char (c : Ascii.ascii) : bool :=
  let n := Ascii.nat_of_ascii c in
  ((48 <=? n) && (n <=? 57) || (65 <=? n) && (n <=? 90)
   || (97 <=? n) && (n <=? 122) || (n =? 95))%nat.

(** [toLowerCase] on code units below 256 *)
Definition lower_char (c : Ascii.ascii) : Ascii.ascii :=
  let n := Ascii.nat_of_ascii c in
  if ((65 <=? n) && (n <=? 90)
      || (192 <=? n) && (n <=? 222) && negb (n =? 215))%nat
  then Ascii.ascii_of_nat (n + 32) else c.

Fixpoint toLowerCase (s : string) : string :=
  match s with
  | EmptyString => EmptyString
  | String c s' => String (lower_char c) (toLowerCase s')
  end.

(** [s.split(/\W+/)]: [cur] is the piece being read, [in_sep] tells that
    the previous code unit belonged to a separator. *)
Fixpoint split_W (s : string) (cur : string) (in_sep : bool) : list string :=
  match s with
  | EmptyString => [cur]
  | String c s' =>
      if is_word_char c then split_W s' (cur +:+ String c EmptyString) false
      else if in_sep then split_W s' cur true
      else cur :: split_W s' EmptyString true
  end.

Definition split_nonword (s : string) : list string := split_W s EmptyString false.

(** [s.toLowerCase().split(/\W+/).filter(t => t.length > 0)] *)
Definition tokenize (s : string) : list string :=
  filter (λ t, (0 < String.length t)%nat) (split_nonword (toLowerCase s)).

(** The method exists on strings only. *)
Definition tokenize_value (v : value) : outcome (list string) :=
  match v with
  | VStr s => Ok (tokenize s)
  | _ => Throw (RangeOrTypeError "toLowerCase is not a function")
  end.

(** The score of one candidate: [intersection / union], [0] on an empty
    union. *)
Definition similarity (contentTokens memoryTokens : list string) : Q :=
  let intersection :=
    length (filter (λ t, t ∈ memoryTokens) contentTokens) in
  let union := length (remove_dups (contentTokens ++ memoryTokens)) in
  if decide (union = 0%nat) then 0%Q
  else (Z.of_nat intersection # Pos.of_nat union)%Q.

Record SimilarOptions : Type := {
  opt_context : option (list string);
  opt_threshold : option Q;
  opt_limit : option Z;
}.

(** [options?.limit || 10] and [options?.threshold || 0.5] *)
Definition limit_or_default (options : option SimilarOptions) : Z :=
  match options ≫= opt_limit with
  | Some n => if n =? 0 then 10 else n
  | None => 10
  end.

Definition threshold_or_default (options : option SimilarOptions) : Q :=
  match options ≫= opt_threshold with
  | Some q => if Qeq_bool q 0 then (1 # 2)%Q else q
  | None => (1 # 2)%Q
  end.

(** The filter object: [{}], with [context] set to the first requested
    context when there is one. *)
Definition similar_filter (options : option SimilarOptions) : obj :=
  match options ≫= opt_context with
  | Some (c :: _) => [("context", VStr c)]
  | _ => []
  end.

(** [xs.slice(0, n)]: a negative [n] counts from the end. *)
Definition slice0 {A} (n : Z) (xs : list A) : list A :=
  if n <? 0 then take (length xs - Z.to_nat (- n)) xs
  else take (Z.to_nat n) xs.

Definition MemoryRepository_findAll : Z → option obj → M table (list obj) :=
  findAll Memory_rowToEntity Memory_where_context.

Definition score (contentTokens : list string) (memory : obj)
  : outcome (obj * Q) :=
  memoryTokens ← tokenize_value (obj_get "content" memory);
  Ok (memory, similarity contentTokens memoryTokens).

(** The tail of the method: filter by threshold, sort by descending
    similarity (the comparator is [b.similarity - a.similarity]; the sort is
    stable), cut to the limit. *)
Definition rank (threshold : Q) (limit : Z) (results : list (obj * Q))
  : list (obj * Q) :=
  slice0 limit
    (stable_sort (λ a b, Qle_bool b.2 a.2)
       (filter (λ r, Qle_bool threshold r.2) results)).

Definition findSimilar (now : Z) (content : string)
    (options : option SimilarOptions) : M table (list (obj * Q)) :=
  let limit := limit_or_default options in
  let threshold := threshold_or_default options in
  let contentTokens := tokenize content in
  let filter := similar_filter options in
  memories ← MemoryRepository_findAll now (Some filter);
  results ← lift (map_outcome (score contentTokens) memories);
  mret (rank threshold limit results).

(** The token-set Jaccard similarity, as the specification words it:
    [|A ∩ B| / |A ∪ B|] on the sets of tokens. *)
Definition token_set (s : string) : gset string := list_to_set (tokenize s).

Definition jaccard (A B : gset string) : Q :=
  if decide (size (A ∪ B) = 0%nat) then 0%Q
  else (Z.of_nat (size (A ∩ B)) # Pos.of_nat (size (A ∪ B)))%Q.

(** The text of a candidate. *)
Definition content_of (memory : obj) : string :=
  match obj_get "content" memory with
  | VStr s => s
  | _ => EmptyString
  end.

End Similarity.

(** ** The migration manager (migration-manager.ts)

    The manager talks to three things: the directory of migration units, the
    [migrations] ledger table, and the rest of the database, which only the
    units' [up] and [down] operations touch.  [Schema] is that rest; a
    unit's operation maps it to a new state and either returns or throws.
    Failures of the connection itself are not modelled.  The order of
    [String.prototype.localeCompare] depends on the host locale and is a
    parameter. *)

Class MigrationEnv := {
  Schema : Type;
  (** [a.localeCompare(b) <= 0] *)
  localeCompare_le : string → string → bool;
}.

Module Migration.
Section Manager.
Context `{ME : MigrationEnv}.

Inductive step_result : Type :=
  | Done (s : Schema)
  | Failed (s : Schema) (message : string).

(** A file of the migrations directory and what importing it yields. *)
Record MigrationFile : Type := {
  file_name : string;
  file_imports : bool;                          (* [import()] resolves *)
  file_up : option (Schema → step_result);     (* the export [up] *)
  file_down : option (Schema → step_result);   (* the export [down] *)
}.

Record Migration : Type := {
  id : string;
  filename : string;
  up : Schema → step_result;
  down : Schema → step_result;
}.

Record MigrationRecord : Type := {
  rec_id : string;
  rec_filename : string;
  applied_at : Z;
}.

Inductive level : Type := Info | Warn | Error.

(** The messages the manager logs, by site. *)
Inductive message : Type :=
  | DirectoryMissing                       (* line 57 *)
  | NeedsUpAndDown (file : string)         (* line 74 *)
  | InvalidFileName (file : string)        (* line 81 *)
  | LoadFailed (file : string)             (* line 92 *)
  | Loaded (n : nat)                       (* line 100 *)
  | RecordSaveFailed (file : string)       (* line 139 *)
  | NothingToApply                         (* line 174 *)
  | Applying (n : nat)                     (* line 178 *)
  | ApplyingUnit (file : string)           (* line 182 *)
  | AppliedUnit (file : string)            (* line 185 *)
  | ApplyFailed (file : string)            (* line 187 *)
  | AllApplied                             (* line 192 *)
  | NothingToRollBack                      (* lines 206, 229 *)
  | TargetNotFound (targetId : string)     (* line 218 *)
  | RollingBack (n : nat)                  (* line 233 *)
  | UnitFileNotFound (file : string)       (* line 239 *)
  | RollingBackUnit (file : string)        (* line 244 *)
  | RolledBackUnit (file : string)         (* line 247 *)
  | RollbackFailed (file : string)         (* line 249 *)
  | RollbackDone                           (* line 254 *)
  | StatusHeader                                          (* line 267 *)
  | StatusApplied (n : nat)                               (* line 268 *)
  | StatusAppliedEntry (id file : string) (applied_at : Z)  (* line 270 *)
  | StatusPending (n : nat)                               (* line 273 *)
  | StatusPendingEntry (id file : string).                (* line 275 *)

(** What the outside observes: log lines and invocations of units. *)
Inductive event : Type :=
  | Logged (l : level) (m : message)
  | CalledUp (file : string)
  | CalledDown (file : string).

(** The errors the manager throws. *)
Inductive mig_error : Type :=
  | ApplyError (file : string) (cause : string)      (* line 188 *)
  | RollbackError (file : string) (cause : string)   (* line 250 *)
  | LedgerError (cause : string).                    (* lines 113, 143 *)

Inductive result (A : Type) : Type :=
  | Returned (a : A)
  | Thrown (e : mig_error).
Global Arguments Returned {A} a.
Global Arguments Thrown {A} e.

Record world : Type := World {
  files : option (list MigrationFile);     (* [None]: no such directory *)
  clock : Z;                               (* CURRENT_TIMESTAMP *)
  schema : Schema;
  ledger : option (list MigrationRecord);  (* [None]: no such table *)
  migrations : list Migration;             (* [this.migrations] *)
  trace : list event;
}.

Definition emit (e : event) (w : world) : world :=
  World (files w) (clock w) (schema w) (ledger w) (migrations w) (trace w ++ [e]).
Definition log (l : level) (m : message) : world → world := emit (Logged l m).
Definition set_schema (s : Schema) (w : world) : world :=
  World (files w) (clock w) s (ledger w) (migrations w) (trace w).
Definition set_ledger (l : option (list MigrationRecord)) (w : world) : world :=
  World (files w) (clock w) (schema w) l (migrations w) (trace w).
Definition set_migrations (ms : list Migration) (w : world) : world :=
  World (files w) (clock w) (schema w) (ledger w) ms (trace w).

(** The records of the ledger; an absent table has none. *)
Definition records (w : world) : list MigrationRecord := default [] (ledger w).

(** [CREATE TABLE IF NOT EXISTS migrations (...)] *)
Definition initMigrationTable (w : world) : world :=
  match ledger w with
  | None => set_ledger (Some []) w
  | Some _ => w
  end.

Definition ends_with (suffix s : string) : bool :=
  let n := String.length suffix in
  let m := String.length s in
  (n <=? m)%nat && String.eqb (String.substring (m - n) n s) suffix.

(** [file.split('-')[0]] *)
Fixpoint before_dash (s : string) : string :=
  match s with
  | EmptyString => EmptyString
  | String c s' =>
      if Ascii.eqb c "-"%char then EmptyString else String c (before_dash s')
  end.

(** One turn of the loading loop (lines 67-94). *)
Definition load_file (file : MigrationFile) (acc : list Migration * world)
  : list Migration * world :=
  let '(ms, w) := acc in
  if negb (file_imports file)
  then (ms, log Error (LoadFailed (file_name file)) w)
  else
    match file_up file, file_down file with
    | Some u, Some d =>
        let id := before_dash (file_name file) in
        if String.eqb id EmptyString
        then (ms, log Warn (InvalidFileName (file_name file)) w)
        else (ms ++ [{| id := id; filename := file_name file;
                        up := u; down := d |}], w)
    | _, _ => (ms, log Warn (NeedsUpAndDown (file_name file)) w)
    end.

Definition loadMigrations (w : world) : world :=
  match files w with
  | None => log Warn DirectoryMissing w
  | Some dir =>
      let files :=
        stable_sort (λ a b, String.leb (file_name a) (file_name b))
          (filter (λ f, ends_with ".ts" (file_name f)
                        || ends_with ".js" (file_name f)) dir) in
      let '(ms, w) := foldl (λ acc f, load_file f acc) ([], w) files in
      let sorted := stable_sort (λ a b, localeCompare_le (id a) (id b)) ms in
      log Info (Loaded (length sorted)) (set_migrations sorted w)
  end.

(** [SELECT * FROM migrations ORDER BY id] *)
Definition getAppliedMigrations (w : world) : list MigrationRecord :=
  stable_sort (λ a b, String.leb (rec_id a) (rec_id b)) (records w).

Definition getPendingMigrations (w : world) : list Migration :=
  let appliedMigrations := getAppliedMigrations w in
  let appliedIds : gset string := list_to_set (rec_id <$> appliedMigrations) in
  filter (λ m, id m ∉ appliedIds) (migrations w).

(** [INSERT INTO migrations (id, filename) VALUES (?, ?)]: [id] is the
    primary key, so a second record with the same id is refused. *)
Definition recordMigration (m : Migration) (w : world) : result unit * world :=
  if bool_decide (id m ∈ rec_id <$> records w)
  then (Thrown (LedgerError "UNIQUE constraint failed: migrations.id"),
        log Error (RecordSaveFailed (filename m)) w)
  else (Returned (),
        set_ledger (Some (records w ++ [{| rec_id := id m;
                                           rec_filename := filename m;
                                           applied_at := clock w |}])) w).

(** [DELETE FROM migrations WHERE id = ?] *)
Definition removeMigrationRecord (migrationId : string) (w : world) : world :=
  set_ledger (Some (filter (λ r, rec_id r ≠ migrationId) (records w))) w.

Definition cause_of (e : mig_error) : string :=
  match e with
  | ApplyError _ c | RollbackError _ c | LedgerError c => c
  end.

(** The body of [for (const migration of pendingMigrations)] in
    [migrateUp]: the first failure ends the loop. *)
Fixpoint apply_pending (pending : list Migration) (w : world)
  : result unit * world :=
  match pending with
  | [] => (Returned (), w)
  | m :: rest =>
      let w := log Info (ApplyingUnit (filename m)) w in
      let w := emit (CalledUp (filename m)) w in
      match up m (schema w) with
      | Done s =>
          match recordMigration m (set_schema s w) with
          | (Returned _, w) =>
              apply_pending rest (log Info (AppliedUnit (filename m)) w)
          | (Thrown e, w) =>
              (Thrown (ApplyError (filename m) (cause_of e)),
               log Error (ApplyFailed (filename m)) w)
          end
      | Failed s msg =>
          (Thrown (ApplyError (filename m) msg),
           log Error (ApplyFailed (filename m)) (set_schema s w))
      end
  end.

Definition migrateUp (w : world) : result unit * world :=
  let w := initMigrationTable w in
  let w := loadMigrations w in
  let pendingMigrations := getPendingMigrations w in
  if decide (length pendingMigrations = 0%nat)
  then (Returned (), log Info NothingToApply w)
  else
    let w := log Info (Applying (length pendingMigrations)) w in
    match apply_pending pendingMigrations w with
    | (Returned _, w) => (Returned (), log Info AllApplied w)
    | (Thrown e, w) => (Thrown e, w)
    end.

(** The body of [for (const record of migrationsToRollback)] in
    [migrateDown]. *)
Fixpoint roll_back (toRollback : list MigrationRecord) (w : world)
  : result unit * world :=
  match toRollback with
  | [] => (Returned (), w)
  | record :: rest =>
      match find (λ m, String.eqb (id m) (rec_id record)) (migrations w) with
      | None =>
          roll_back rest (log Warn (UnitFileNotFound (rec_filename record)) w)
      | Some m =>
          let w := log Info (RollingBackUnit (filename m)) w in
          let w := emit (CalledDown (filename m)) w in
          match down m (schema w) with
          | Done s =>
              let w := removeMigrationRecord (id m) (set_schema s w) in
              roll_back rest (log Info (RolledBackUnit (filename m)) w)
          | Failed s msg =>
              (Thrown (RollbackError (filename m) msg),
               log Error (RollbackFailed (filename m)) (set_schema s w))
          end
      end
  end.

(** [appliedMigrations.findIndex(m => m.id === targetId)] *)
Fixpoint findIndex (targetId : string) (rs : list MigrationRecord) : option nat :=
  match rs with
  | [] => None
  | r :: rs' =>
      if String.eqb (rec_id r) targetId then Some 0%nat
      else S <$> findIndex targetId rs'
  end.

(** [targetId] is optional; [if (targetId)] also takes the empty string for
    an absent one. *)
Definition given (targetId : option string) : option string :=
  match targetId with
  | Some s => if String.eqb s EmptyString then None else Some s
  | None => None
  end.

Definition migrateDown (targetId : option string) (w : world)
  : result unit * world :=
  let w := initMigrationTable w in
  let w := loadMigrations w in
  let appliedMigrations := getAppliedMigrations w in
  if decide (length appliedMigrations = 0%nat)
  then (Returned (), log Info NothingToRollBack w)
  else
    let selection : option (list MigrationRecord) :=
      match given targetId with
      | Some target =>
          match findIndex target appliedMigrations with
          | None => None
          | Some targetIndex =>
              Some (reverse (drop (targetIndex + 1) appliedMigrations))
          end
      | None =>
          Some (from_option (λ r, [r]) [] (last appliedMigrations))
      end in
    match selection with
    | None =>
        (Returned (),
         log Error (TargetNotFound (default EmptyString targetId)) w)
    | Some migrationsToRollback =>
        if decide (length migrationsToRollback = 0%nat)
        then (Returned (), log Info NothingToRollBack w)
        else
          let w := log Info (RollingBack (length migrationsToRollback)) w in
          match roll_back migrationsToRollback w with
          | (Returned _, w) => (Returned (), log Info RollbackDone w)
          | (Thrown e, w) => (Thrown e, w)
          end
    end.

Definition status (w : world)
  : (list MigrationRecord * list Migration) * world :=
  let w := initMigrationTable w in
  let w := loadMigrations w in
  let appliedMigrations := getAppliedMigrations w in
  let pendingMigrations := getPendingMigrations w in
  let w := log Info StatusHeader w in
  let w := log Info (StatusApplied (length appliedMigrations)) w in
  let w := foldl (λ w m, log Info (StatusAppliedEntry (rec_id m) (rec_filename m)
                                                     (applied_at m)) w)
                 w appliedMigrations in
  let w := log Info (StatusPending (length pendingMigrations)) w in
  let w := foldl (λ w m, log Info (StatusPendingEntry (id m) (filename m)) w)
                 w pendingMigrations in
  ((appliedMigrations, pendingMigrations), w).

(** *** Vocabulary for the statements *)

(** The unit that a file of the directory yields, if the loader accepts
    it. *)
Definition accepted (file : MigrationFile) : option Migration :=
  if negb (file_imports file) then None
  else
    match file_up file, file_down file with
    | Some u, Some d =>
        if String.eqb (before_dash (file_name file)) EmptyString then None
        else Some {| id := before_dash (file_name file);
                     filename := file_name file; up := u; down := d |}
    | _, _ => None
    end.

(** The units that a directory yields, in the order of the loader. *)
Definition discover (dir : list MigrationFile) : list Migration :=
  stable_sort (λ a b, localeCompare_le (id a) (id b))
    (omap accepted
       (stable_sort (λ a b, String.leb (file_name a) (file_name b))
          (filter (λ f, ends_with ".ts" (file_name f)
                        || ends_with ".js" (file_name f)) dir))).

Definition is_log (e : event) : Prop :=
  match e with Logged _ _ => True | _ => False end.

Definition is_call_down (e : event) : Prop :=
  match e with CalledDown _ => True | _ => False end.

(** The ledger record that applying a unit at time [now] writes. *)
Definition record_of (now : Z) (m : Migration) : MigrationRecord :=
  {| rec_id := id m; rec_filename := filename m; applied_at := now |}.

(** A world in which every discovered unit is in the ledger and the unit
    list is the one the directory yields. *)
Definition settled (v : world) : Prop :=
  ledger v = Some (records v)
  ∧ from_option discover (migrations v) (files v) = migrations v
  ∧ ∀ m, m ∈ migrations v → id m ∈ rec_id <$> records v.

End Manager.
End Migration.

(** ** Further statements of the base repository

    [count] and [deleteMany] (base-repository.ts, lines 225-230 and 275-287)
    issue an aggregate SELECT and a DELETE with an IN list. *)

Section FurtherStatements.
Context `{E : JsEnv}.

(** [SELECT COUNT(...) as count FROM t WHERE c1 = ? AND ...] through
    [dbConnection.get]: an aggregate without GROUP BY yields exactly one
    row, whose [count] is the number of matching rows. *)
Definition db_count (conds : list (string * value)) : M table (option Z) := λ t,
  if negb (known_columns t conds.*1)
  then (Throw (SqlError "no such column"), t)
  else
    (Ok (Some (Z.of_nat
                 (length (filter (λ r, row_matches conds r) (tbl_rows t).*2)))),
     t).

(** [DELETE FROM t WHERE pk IN (?, ...)]; the result is [changes]. *)
Definition db_delete_in (pk : string) (ids : list value) : M table Z := λ t,
  if negb (known_columns t [pk])
  then (Throw (SqlError "no such column"), t)
  else
    let hit (r : obj) :=
      existsb (λ id, sql_eq (obj_get pk r) (sql_bind id)) ids in
    (Ok (Z.of_nat (length (filter (λ rr, hit rr.2) (tbl_rows t)))),
     Table (tbl_columns t) (tbl_rowid_alias t)
           (filter (λ rr, ¬ hit rr.2) (tbl_rows t))).



Variable whereOf : option obj → list (string * value).

(** [count] (base-repository.ts, lines 225-230): [result ? result.count : 0] *)
Definition count (filter : option obj) : M table Z :=
  result ← db_count (whereOf filter);
  mret (match result with Some n => n | None => 0 end).

End FurtherStatements.

(** ** Exceptions of the batch operations and of the services

    The operations below raise [Error] objects at sites of their own; the
    exceptions of the layers above pass through them unchanged.  An
    operation is an [async] function: its promise is fulfilled with a value
    or rejected with the exception. *)

Section Promises.
Context `{E : JsEnv}.

Inductive exn : Type :=
  | Raised (e : error)                     (* an exception of the layers above *)
  | EntityIdRequired                       (* base-repository.ts:261 *)
  | MemoryNotFound (id : value)            (* memory-repository.ts:378 *)
  | TaskCreateValidationError (errors : list validation_error).
                                           (* task-service.ts:39 *)

Inductive promise (A : Type) : Type :=
  | Fulfilled (a : A)
  | Rejected (x : exn).
Global Arguments Fulfilled {A} a.
Global Arguments Rejected {A} x.

Definition Async (S A : Type) : Type := S → promise A * S.

Definition fulfil {S A} (a : A) : Async S A := λ s, (Fulfilled a, s).
Definition reject {S A} (x : exn) : Async S A := λ s, (Rejected x, s).
Definition and_then {S A B} (m : Async S A) (k : A → Async S B) : Async S B :=
  λ s, match m s with
       | (Fulfilled a, s') => k a s'
       | (Rejected x, s') => (Rejected x, s')
       end.

(** [await m] for an operation of the layers above. *)
Definition await {S A} (m : M S A) : Async S A :=
  λ s, match m s with
       | (Ok a, s') => (Fulfilled a, s')
       | (Throw e, s') => (Rejected (Raised e), s')
       end.

Definition is_fulfilled {A} (p : promise A) : bool :=
  match p with Fulfilled _ => true | Rejected _ => false end.

End Promises.

#[export] Instance Async_ret `{E : JsEnv} {S} : MRet (Async S) := λ A, fulfil.
#[export] Instance Async_bind `{E : JsEnv} {S} : MBind (Async S) :=
  λ A B k m, and_then m k.

(** ** Transactions (connection.ts, lines 156-172)

    The connection holds the table as the statements see it and, while a
    transaction is open, the table as it was at BEGIN.  SQLite refuses a
    BEGIN inside a transaction, and a COMMIT or ROLLBACK outside one. *)

Section Transactions.
Context `{E : JsEnv}.

Record connection : Type := Connection {
  conn_table : table;
  conn_begun : option table;
}.

(** A repository operation, run on the connection's table. *)
Definition on_table {A} (m : Async table A) : Async connection A :=
  λ c, match m (conn_table c) with
       | (r, t) => (r, Connection t (conn_begun c))
       end.

Definition beginTransaction : M connection unit := λ c,
  match conn_begun c with
  | Some _ =>
      (Throw (SqlError "cannot start a transaction within a transaction"), c)
  | None => (Ok (), Connection (conn_table c) (Some (conn_table c)))
  end.

Definition commit : M connection unit := λ c,
  match conn_begun c with
  | Some _ => (Ok (), Connection (conn_table c) None)
  | None => (Throw (SqlError "cannot commit - no transaction is active"), c)
  end.

Definition rollback : M connection unit := λ c,
  match conn_begun c with
  | Some begun => (Ok (), Connection begun None)
  | None => (Throw (SqlError "cannot rollback - no transaction is active"), c)
  end.

(** [transaction] (base-repository.ts, lines 294-304): the [catch] block
    rolls back and rethrows; an exception of the rollback itself replaces
    the one caught. *)
Definition transaction {A} (callback : Async connection A)
  : Async connection A := λ c,
  match (_ ← await beginTransaction;
         result ← callback;
         _ ← await commit;
         mret result) c with
  | (Fulfilled result, c') => (Fulfilled result, c')
  | (Rejected error, c') =>
      match await rollback c' with
      | (Fulfilled _, c'') => (Rejected error, c'')
      | (Rejected error', c'') => (Rejected error', c'')
      end
  end.

(** *** Batch operations (base-repository.ts, lines 237-287) *)

Variable primaryKey : string.
Variable entityToRow : Z → obj → outcome obj.
Variable rowToEntity : Z → obj → outcome obj.

(** The loop of [createMany]; [createdEntities] is the array filled so
    far. *)
Fixpoint create_each (now : Z) (entities : list obj) (createdEntities : list obj)
  : Async table (list obj) :=
  match entities with
  | [] => mret createdEntities
  | entity :: rest =>
      createdEntity ← await (create entityToRow now entity);
      create_each now rest (createdEntities ++ [createdEntity])
  end.

Definition createMany (now : Z) (entities : list obj)
  : Async connection (list obj) :=
  transaction (on_table (create_each now entities [])).

(** The loop of [updateMany]. *)
Fixpoint update_each (now : Z) (entities : list obj)
    (updatedEntities : list (option obj)) : Async table (list (option obj)) :=
  match entities with
  | [] => mret updatedEntities
  | entity :: rest =>
      let id := obj_get "id" entity in
      if negb (truthy id) then reject EntityIdRequired
      else
        updatedEntity ← await (update primaryKey entityToRow rowToEntity now id entity);
        update_each now rest (updatedEntities ++ [updatedEntity])
  end.

Definition updateMany (now : Z) (entities : list obj)
  : Async connection (list (option obj)) :=
  transaction (on_table (update_each now entities [])).

Definition deleteMany (ids : list value) : Async connection Z :=
  if decide (length ids = 0%nat) then mret 0
  else transaction (on_table (await (db_delete_in primaryKey ids))).

End Transactions.

(** ** Further operations of the entity repositories and of the task service *)

(** The [+] operator belongs to the runtime: on two numbers it adds, on
    other operands it concatenates or yields NaN, which is not among the
    modelled values. *)
Class JsOperators `{E : JsEnv} := {
  js_plus : value → value → value;
}.

Section EntityOperations.
Context `{E : JsEnv} `{!JsOperators}.

Definition TaskRepository_delete : value → M table bool := delete "id".

Definition MemoryRepository_findById : Z → value → M table (option obj) :=
  findById "id" Memory_rowToEntity.
Definition MemoryRepository_update : Z → value → obj → M table (option obj) :=
  update "id" Memory_entityToRow Memory_rowToEntity.

(** [recordAccess] (memory-repository.ts, lines 375-386) *)
Definition recordAccess (now : Z) (id : value) : Async table (option obj) :=
  memory ← await (MemoryRepository_findById now id);
  match memory with
  | None => reject (MemoryNotFound id)
  | Some memory =>
      await (MemoryRepository_update now id
               [("accessCount", js_plus (obj_get "accessCount" memory) (VNum 1));
                ("lastAccessed", VDate now)])
  end.

(** *** TimeEntryRepository and NotificationRepository
    (time-entry-repository.ts, lines 33-43 and 334-344) *)

Definition TimeEntry_entityToRow (now : Z) (timeEntry : obj) : outcome obj :=
  startTime ← call_toISOString (obj_get "startTime" timeEntry);
  endTime ← (if truthy (obj_get "endTime" timeEntry)
             then call_toISOString (obj_get "endTime" timeEntry) else Ok VNull);
  createdAt ← (if truthy (obj_get "createdAt" timeEntry)
               then call_toISOString (obj_get "createdAt" timeEntry)
               else Ok (VStr (toISOString now)));
  Ok (obj_spread timeEntry
        [("startTime", startTime); ("endTime", endTime);
         ("tags", if truthy (obj_get "tags" timeEntry)
                  then JSON_stringify_value (obj_get "tags" timeEntry)
                  else VStr "[]");
         ("metadata", if truthy (obj_get "metadata" timeEntry)
                      then JSON_stringify_value (obj_get "metadata" timeEntry)
                      else VStr "{}");
         ("createdAt", createdAt); ("updatedAt", VStr (toISOString now))]).

Definition Notification_entityToRow (now : Z) (notification : obj) : outcome obj :=
  timestamp ← call_toISOString (obj_get "timestamp" notification);
  expiresAt ← (if truthy (obj_get "expiresAt" notification)
               then call_toISOString (obj_get "expiresAt" notification)
               else Ok VNull);
  createdAt ← (if truthy (obj_get "createdAt" notification)
               then call_toISOString (obj_get "createdAt" notification)
               else Ok (VStr (toISOString now)));
  Ok (obj_spread notification
        [("timestamp", timestamp); ("expiresAt", expiresAt);
         ("actions", if truthy (obj_get "actions" notification)
                     then JSON_stringify_value (obj_get "actions" notification)
                     else VNull);
         ("metadata", if truthy (obj_get "metadata" notification)
                      then JSON_stringify_value (obj_get "metadata" notification)
                      else VStr "{}");
         ("createdAt", createdAt); ("updatedAt", VStr (toISOString now))]).

(** *** The task service (task-service.ts, lines 34-50, 93-108, 134-141 and
    202-209) *)


Definition deleteTask (now : Z) (id : value) : M table unit :=
  existingTask ← TaskRepository_findById now id;
  match existingTask with
  | None => throw (TaskNotFound id)
  | Some _ => _ ← TaskRepository_delete id; mret ()
  end.

Definition assignTask (now : Z) (taskId assigneeId : value)
  : M table (option obj) :=
  updateTask now taskId [("assignee", assigneeId)].

Definition updatePriority (now : Z) (taskId priority : value)
  : M table (option obj) :=
  updateTask now taskId [("priority", priority)].

End EntityOperations.

(** ** The filter compiler of the task repository
    (task-repository.ts, lines 81-156) *)

Section TaskFilterCompiler.
Context `{E : JsEnv}.

(** The keys that the destructuring pattern of the override names. *)
Definition task_filter_keys : list string :=
  ["status"; "type"; "priority"; "assignee"; "project"; "dueDateStart";
   "dueDateEnd"; "search"].

(** [s.replace(pattern, replacement)] for a string pattern: the first
    occurrence. *)
Fixpoint replace_first (pattern replacement s : string) : string :=
  if String.prefix pattern s
  then replacement
       +:+ String.substring (String.length pattern)
             (String.length s - String.length pattern) s
  else match s with
       | EmptyString => EmptyString
       | String c s' => String c (replace_first pattern replacement s')
       end.

(** [if (v) { conditions.push(clause); params.push(...ps) }] *)
Definition push_when (v : value) (clause : string) (ps : list value)
    (acc : list string * list value) : list string * list value :=
  if truthy v then (acc.1 ++ [clause], acc.2 ++ ps) else acc.

(** The same with a parameter that is converted by [toISOString]. *)
Definition push_date_when (v : value) (clause : string)
    (acc : list string * list value) : outcome (list string * list value) :=
  if truthy v
  then iso ← call_toISOString v; Ok (acc.1 ++ [clause], acc.2 ++ [iso])
  else Ok acc.

Definition Task_buildWhereClause (filter : option obj)
  : outcome (string * list value) :=
  match filter with
  | None => Ok ("", [])
  | Some f =>
      let standardFilter := obj_rest task_filter_keys f in
      let '(standardWhere, standardParams) :=
        buildWhereClause (Some standardFilter) in
      let acc : list string * list value := ([], []) in
      let acc :=
        push_when (VStr standardWhere)
          (replace_first "WHERE " "" standardWhere) standardParams acc in
      let acc := push_when (obj_get "status" f) "status = ?" [obj_get "status" f] acc in
      let acc := push_when (obj_get "type" f) "type = ?" [obj_get "type" f] acc in
      let acc :=
        push_when (obj_get "priority" f) "priority = ?" [obj_get "priority" f] acc in
      let acc :=
        push_when (obj_get "assignee" f) "assignee = ?" [obj_get "assignee" f] acc in
      let acc :=
        push_when (obj_get "project" f) "project = ?" [obj_get "project" f] acc in
      acc ← push_date_when (obj_get "dueDateStart" f) "dueDate >= ?" acc;
      acc ← push_date_when (obj_get "dueDateEnd" f) "dueDate <= ?" acc;
      let search := obj_get "search" f in
      let pattern := VStr ("%" +:+ ToString search +:+ "%") in
      let acc :=
        push_when search "(title LIKE ? OR description LIKE ?)"
          [pattern; pattern] acc in
      let '(conditions, params) := acc in
      let whereClause :=
        if decide (0 < length conditions)%nat
        then "WHERE " +:+ join " AND " conditions
        else "" in
      Ok (whereClause, params)
  end.

(** The number of [?] placeholders of a statement text. *)
Fixpoint placeholders (s : string) : nat :=
  match s with
  | EmptyString => 0
  | String c s' => (if Ascii.eqb c "?" then 1 else 0) + placeholders s'
  end.

(** The invariant of the accumulated clauses and parameters: one parameter
    per placeholder. *)
Definition balanced (acc : list string * list value) : Prop :=
  sum_list (placeholders <$> acc.1) = length acc.2.

End TaskFilterCompiler.

(** *** Paths of the status machine *)

Section StatusPaths.
Context `{E : JsEnv}.

(** A sequence of transitions to other statuses, each of which
    [validateStatusTransition] accepts. *)
Fixpoint legal_path (current : TaskStatus) (path : list TaskStatus) : Prop :=
  match path with
  | [] => True
  | next :: rest =>
      next ≠ current
      ∧ validateStatusTransition (TaskStatus_value current) (TaskStatus_value next)
        = Ok true
      ∧ legal_path next rest
  end.

End StatusPaths.

(** *** Vocabulary for tokens *)

Section Tokens.

(** Every code unit of [s] satisfies [p]. *)
Fixpoint all_chars (p : Ascii.ascii → bool) (s : string) : bool :=
  match s with
  | EmptyString => true
  | String c s' => p c && all_chars p s'
  end.

(** A lower-case word character: one of [[a-z0-9_]]. *)
Definition is_token_char (c : Ascii.ascii) : bool :=
  is_word_char c && bool_decide (lower_char c = c).

End Tokens.

(** *** Reading a trace of the migration manager *)

Section Traces.
Context `{ME : MigrationEnv}.

(** The files whose [up], respectively [down], a run invoked, in order. *)
Definition calls_up (tr : list Migration.event) : list string :=
  omap (λ e, match e with Migration.CalledUp f => Some f | _ => None end) tr.

Definition calls_down (tr : list Migration.event) : list string :=
  omap (λ e, match e with Migration.CalledDown f => Some f | _ => None end) tr.

(** The file that a unit was loaded from. *)
Definition loaded_from (m : Migration.Migration) (f : Migration.MigrationFile)
  : Prop :=
  Migration.file_name f = Migration.filename m
  ∧ (Migration.ends_with ".ts" (Migration.file_name f)
     || Migration.ends_with ".js" (Migration.file_name f)) = true
  ∧ Migration.file_imports f = true
  ∧ Migration.file_up f = Some (Migration.up m)
  ∧ Migration.file_down f = Some (Migration.down m)
  ∧ Migration.id m = Migration.before_dash (Migration.file_name f)
  ∧ Migration.id m ≠ "".

End Traces.

(** ** Reference instances

    Stand-ins for the runtime's built-ins, used to run the model on concrete
    stores.  An instant prints as its millisecond count behind a [T]; a
    structured value is named by a string and its JSON text is that name
    behind a [J].  They satisfy the laws of [JsEnvLaws]. *)

Definition decimal (n : Z) : string := DecimalString.NilEmpty.string_of_int (Z.to_int n).

Definition undecimal (s : string) : Z :=
  from_option Z.of_int 0 (DecimalString.NilEmpty.int_of_string s).

Definition strip (tag : ascii) (s : string) : option string :=
  match s with
  | String c r => if Ascii.eqb c tag then Some r else None
  | EmptyString => None
  end.

#[export] Instance RefEnv : JsEnv := {|
  J := string;
  J_empty_object := "{}";
  J_empty_array := "[]";
  toISOString t := String "T" (decimal t);
  Date_parse s := from_option undecimal 0 (strip "T" s);
  Date_toString t := String "D" (decimal t);
  J_toString _ := "[object Object]";
  Number_toString q := decimal (Qnum q) +:+ "/" +:+ decimal (Z.pos (Qden q));
  JSON_stringify j := String "J" j;
  JSON_quote s := String "Q" s;
  JSON_parse s := strip "J" s;
|}.

(** The rest of the database as the list of its table names; the locale
    orders ids as code units do. *)
#[export] Instance RefMigrationEnv : MigrationEnv := {|
  Schema := list string;
  localeCompare_le := String.leb;
|}.

(** ** Example stores *)

(** A [tasks] table whose columns are those that [TaskRepository] writes,
    with a TEXT primary key as in the initial schema, and one row. *)
Definition ex_task_columns : list string :=
  ["id"; "title"; "description"; "type"; "status"; "priority"; "assignee";
   "project"; "dueDate"; "metadata"; "createdAt"; "updatedAt"].

Definition ex_task_row (id title status : string) (dueDate : value) : obj :=
  [("id", VStr id); ("title", VStr title); ("description", VStr "");
   ("type", VStr "DEVELOPMENT"); ("status", VStr status);
   ("priority", VStr "MEDIUM"); ("assignee", VNull); ("project", VNull);
   ("dueDate", dueDate); ("metadata", VStr "J{}");
   ("createdAt", VStr "T1000"); ("updatedAt", VStr "T1000")].

Definition ex_tasks : table :=
  Table ex_task_columns None
    [(1, ex_task_row "task-1" "write docs" "CREATED" VNull)].

Definition ex_two_tasks : table :=
  Table ex_task_columns None
    [(1, ex_task_row "task-1" "write docs" "CREATED" VNull);
     (2, ex_task_row "task-2" "add tests" "CREATED" VNull)].

(** A task as a caller hands it to [create]: no id, both timestamps set. *)
Definition ex_new_task : obj :=
  [("title", VStr "add tests"); ("description", VStr ""); ("type", VStr "TESTING");
   ("status", VStr "CREATED"); ("priority", VStr "HIGH");
   ("createdAt", VDate 100); ("updatedAt", VDate 100); ("metadata", VObj "{}")].

(** The row that [create] stores for [ex_new_task] at time 2000. *)
Definition ex_stored_task : obj :=
  [("id", VNull); ("title", VStr "add tests"); ("description", VStr "");
   ("type", VStr "TESTING"); ("status", VStr "CREATED"); ("priority", VStr "HIGH");
   ("assignee", VNull); ("project", VNull); ("dueDate", VNull);
   ("metadata", VStr "J{}"); ("createdAt", VStr "T100");
   ("updatedAt", VStr "T2000")].

(** A stored task as [findById] returns it, last modified at time 100. *)
Definition ex_task : obj :=
  [("id", VStr "task-1"); ("title", VStr "write docs"); ("description", VStr "");
   ("type", VStr "DEVELOPMENT"); ("status", VStr "CREATED");
   ("priority", VStr "MEDIUM"); ("metadata", VObj "{}");
   ("createdAt", VDate 100); ("updatedAt", VDate 100); ("dueDate", VDate 5000)].

(** A [tasks] table whose only task was due at time 500. *)
Definition ex_overdue_tasks : table :=
  Table ex_task_columns None
    [(1, ex_task_row "task-1" "write docs" "CREATED" (VStr "T500"))].

(** The entity that [findById] builds from the row of [ex_tasks]. *)
Definition ex_found_task : obj :=
  [("id", VStr "task-1"); ("title", VStr "write docs"); ("description", VStr "");
   ("type", VStr "DEVELOPMENT"); ("status", VStr "CREATED");
   ("priority", VStr "MEDIUM"); ("metadata", VObj "{}");
   ("createdAt", VDate 1000); ("updatedAt", VDate 1000); ("assignee", VNull);
   ("project", VNull); ("dueDate", VUndef)].

(** A [memories] table with the columns that [MemoryRepository] reads. *)
Definition ex_memory_columns : list string :=
  ["id"; "type"; "content"; "context"; "importance"; "confidence"; "source";
   "timestamp"; "lastAccessed"; "accessCount"; "tags"; "metadata";
   "relationships"; "createdAt"; "updatedAt"].

Definition ex_memory_row (id content context : string) : obj :=
  [("id", VStr id); ("type", VStr "EVENT"); ("content", VStr content);
   ("context", VStr context); ("importance", VNum 1); ("confidence", VNum 1);
   ("source", VStr "system"); ("timestamp", VStr "T1000");
   ("lastAccessed", VNull); ("accessCount", VNum 0); ("tags", VStr "J[]");
   ("metadata", VStr "J{}"); ("relationships", VStr "J[]");
   ("createdAt", VStr "T1000"); ("updatedAt", VStr "T1000")].

Definition ex_memories : table :=
  Table ex_memory_columns None
    [(1, ex_memory_row "m1" "Issue: urgent deployment" "ops");
     (2, ex_memory_row "m2" "urgent deployment issue" "ops");
     (3, ex_memory_row "m3" "lunch menu" "misc")].

(** The entity that [rowToEntity] builds from [ex_memory_row]. *)
Definition ex_memory (id content context : string) : obj :=
  [("id", VStr id); ("type", VStr "EVENT"); ("content", VStr content);
   ("context", VStr context); ("importance", VNum 1); ("confidence", VNum 1);
   ("source", VStr "system"); ("timestamp", VDate 1000); ("accessCount", VNum 0);
   ("tags", VObj "[]"); ("metadata", VObj "{}"); ("relationships", VObj "[]");
   ("createdAt", VDate 1000); ("updatedAt", VDate 1000);
   ("lastAccessed", VUndef)].

(** Two migration units and their directory; a unit creates or drops one
    table. *)
Definition ex_create (name : string) (s : list string) : Migration.step_result :=
  Migration.Done (s ++ [name]).
Definition ex_drop (name : string) (s : list string) : Migration.step_result :=
  Migration.Done (filter (λ x, x ≠ name) s).

Definition ex_file_001 : Migration.MigrationFile :=
  {| Migration.file_name := "001-initial-schema.ts";
     Migration.file_imports := true;
     Migration.file_up := Some (ex_create "tasks");
     Migration.file_down := Some (ex_drop "tasks") |}.
Definition ex_file_002 : Migration.MigrationFile :=
  {| Migration.file_name := "002-memories.ts";
     Migration.file_imports := true;
     Migration.file_up := Some (ex_create "memories");
     Migration.file_down := Some (ex_drop "memories") |}.

Definition ex_unit_001 : Migration.Migration :=
  {| Migration.id := "001"; Migration.filename := "001-initial-schema.ts";
     Migration.up := ex_create "tasks"; Migration.down := ex_drop "tasks" |}.
Definition ex_unit_002 : Migration.Migration :=
  {| Migration.id := "002"; Migration.filename := "002-memories.ts";
     Migration.up := ex_create "memories"; Migration.down := ex_drop "memories" |}.

Definition ex_record (id file : string) : Migration.MigrationRecord :=
  {| Migration.rec_id := id; Migration.rec_filename := file;
     Migration.applied_at := 50 |}.

(** A fresh store: no ledger table, no table, nothing loaded. *)
Definition ex_fresh : Migration.world :=
  Migration.World (Some [ex_file_002; ex_file_001]) 50 [] None [] [].

(** The store after [migrateUp] on [ex_fresh]. *)
Definition ex_migrated : Migration.world :=
  Migration.World (Some [ex_file_002; ex_file_001]) 50 ["tasks"; "memories"]
    (Some [ex_record "001" "001-initial-schema.ts";
           ex_record "002" "002-memories.ts"])
    [ex_unit_001; ex_unit_002]
    [Migration.Logged Migration.Info (Migration.Loaded 2);
     Migration.Logged Migration.Info (Migration.Applying 2);
     Migration.Logged Migration.Info (Migration.ApplyingUnit "001-initial-schema.ts");
     Migration.CalledUp "001-initial-schema.ts";
     Migration.Logged Migration.Info (Migration.AppliedUnit "001-initial-schema.ts");
     Migration.Logged Migration.Info (Migration.ApplyingUnit "002-memories.ts");
     Migration.CalledUp "002-memories.ts";
     Migration.Logged Migration.Info (Migration.AppliedUnit "002-memories.ts");
     Migration.Logged Migration.Info Migration.AllApplied].

(** A store whose ledger names a unit, [003], that the directory no longer
    holds. *)
Definition ex_orphaned : Migration.world :=
  Migration.World (Some [ex_file_001; ex_file_002]) 60
    ["tasks"; "memories"; "notes"]
    (Some [ex_record "001" "001-initial-schema.ts";
           ex_record "002" "002-memories.ts";
           ex_record "003" "003-notes.ts"])
    [] [].

(** ** Further example stores *)

(** The [+] of the reference runtime: addition on integers, concatenation
    of the texts otherwise. *)
#[export] Instance RefOperators : JsOperators := {|
  js_plus a b :=
    match a, b with
    | VNum x, VNum y => VNum (x + y)
    | _, _ => VStr (ToString a +:+ ToString b)
    end;
|}.

(** A [notes] table whose [id] column is declared INTEGER PRIMARY KEY, with
    one row, and notes as a caller hands them to [create]. *)
Definition ex_notes : table :=
  Table ["id"; "title"] (Some "id") [(1, [("id", VNum 1); ("title", VStr "first")])].

Definition ex_note (title : string) : obj := [("title", VStr title)].

(** [ex_notes] after two more notes were created. *)
Definition ex_more_notes : table :=
  Table ["id"; "title"] (Some "id")
    [(1, [("id", VNum 1); ("title", VStr "first")]);
     (2, [("id", VNum 2); ("title", VStr "second")]);
     (3, [("id", VNum 3); ("title", VStr "third")])].

(** A [tasks] table whose only task is due at time 9000. *)
Definition ex_planned_tasks : table :=
  Table ex_task_columns None
    [(1, ex_task_row "task-1" "write docs" "CREATED" (VStr "T9000"))].

(** [ex_planned_tasks] after the task was assigned at time 2000, and the
    task as the service returns it. *)
Definition ex_assigned_tasks : table :=
  Table ex_task_columns None
    [(1, [("id", VStr "task-1"); ("title", VStr "write docs");
          ("description", VStr ""); ("type", VStr "DEVELOPMENT");
          ("status", VStr "CREATED"); ("priority", VStr "MEDIUM");
          ("assignee", VStr "alice"); ("project", VNull); ("dueDate", VNull);
          ("metadata", VNull); ("createdAt", VStr "T2000");
          ("updatedAt", VStr "T2000")])].

Definition ex_assigned_task : obj :=
  [("id", VStr "task-1"); ("title", VStr "write docs"); ("description", VStr "");
   ("type", VStr "DEVELOPMENT"); ("status", VStr "CREATED");
   ("priority", VStr "MEDIUM"); ("metadata", VObj "{}");
   ("createdAt", VDate 2000); ("updatedAt", VDate 2000);
   ("assignee", VStr "alice"); ("project", VNull); ("dueDate", VUndef)].

(** A unit whose [up] throws, a directory that holds it after a unit that
    applies, and that store after [migrateUp]. *)
Definition ex_throw (message : string) (s : list string) : Migration.step_result :=
  Migration.Failed s message.

Definition ex_file_broken : Migration.MigrationFile :=
  {| Migration.file_name := "002-broken.ts";
     Migration.file_imports := true;
     Migration.file_up := Some (ex_throw "syntax error");
     Migration.file_down := Some (ex_drop "broken") |}.

Definition ex_unit_broken : Migration.Migration :=
  {| Migration.id := "002"; Migration.filename := "002-broken.ts";
     Migration.up := ex_throw "syntax error"; Migration.down := ex_drop "broken" |}.

Definition ex_breaking : Migration.world :=
  Migration.World (Some [ex_file_001; ex_file_broken]) 50 [] None [] [].

Definition ex_broken : Migration.world :=
  Migration.World (Some [ex_file_001; ex_file_broken]) 50 ["tasks"]
    (Some [ex_record "001" "001-initial-schema.ts"])
    [ex_unit_001; ex_unit_broken]
    [Migration.Logged Migration.Info (Migration.Loaded 2);
     Migration.Logged Migration.Info (Migration.Applying 2);
     Migration.Logged Migration.Info (Migration.ApplyingUnit "001-initial-schema.ts");
     Migration.CalledUp "001-initial-schema.ts";
     Migration.Logged Migration.Info (Migration.AppliedUnit "001-initial-schema.ts");
     Migration.Logged Migration.Info (Migration.ApplyingUnit "002-broken.ts");
     Migration.CalledUp "002-broken.ts";
     Migration.Logged Migration.Error (Migration.ApplyFailed "002-broken.ts")].

(** * Properties *)

(** ** Objects *)

Section ObjectFacts.
Context `{E : JsEnv}.

Lemma obj_get_set_eq k v o : obj_get k (obj_set k v o) = v.
Proof.
  unfold obj_get. induction o as [|[k' v'] o IH]; simpl.
  - by rewrite decide_True.
  - destruct (decide (k' = k)) as [->|Hne]; simpl.
    + by rewrite decide_True.
    + by rewrite decide_False.
Qed.

Lemma obj_get_set_ne k k' v o : k ≠ k' → obj_get k (obj_set k' v o) = obj_get k o.
Proof.
  intros Hne. unfold obj_get. induction o as [|[k0 v0] o IH]; simpl.
  - by rewrite decide_False.
  - destruct (decide (k0 = k')) as [->|Hne0]; simpl.
    + by rewrite !decide_False.
    + destruct (decide (k0 = k)); [done | apply IH].
Qed.

Lemma obj_keys_set k v o :
  ∀ x, x ∈ Object_keys (obj_set k v o) ↔ x = k ∨ x ∈ Object_keys o.
Proof.
  unfold Object_keys. induction o as [|[k' v'] o IH]; intros x; simpl.
  - set_solver.
  - destruct (decide (k' = k)) as [->|Hne]; simpl; [set_solver|].
    rewrite !elem_of_cons, IH. naive_solver.
Qed.

Lemma obj_lookup_None k o : obj_lookup k o = None ↔ k ∉ Object_keys o.
Proof.
  unfold Object_keys. induction o as [|[k' v'] o IH]; simpl.
  - split; [set_solver | done].
  - destruct (decide (k' = k)) as [->|Hne].
    + split; [done | set_solver].
    + rewrite IH. set_solver.
Qed.

Lemma obj_get_absent k o : k ∉ Object_keys o → obj_get k o = VUndef.
Proof. intros H. unfold obj_get. by rewrite (proj2 (obj_lookup_None k o) H). Qed.

(** Spreading [b] over [a]: the keys of [b] win.  On an object (no key
    twice) the value of a key of [b] is the one [b] holds. *)
Lemma obj_get_spread_absent k a b :
  k ∉ Object_keys b → obj_get k (obj_spread a b) = obj_get k a.
Proof.
  unfold obj_spread. revert a. induction b as [|[k' v'] b IH]; intros a Hk; simpl.
  - done.
  - unfold Object_keys in *. simpl in Hk. rewrite IH by set_solver.
    apply obj_get_set_ne. set_solver.
Qed.

Lemma obj_get_spread_present k a b :
  NoDup (Object_keys b) → k ∈ Object_keys b →
  obj_get k (obj_spread a b) = obj_get k b.
Proof.
  unfold obj_spread. revert a. induction b as [|[k' v'] b IH]; intros a Hnd Hk; simpl.
  - unfold Object_keys in Hk. set_solver.
  - unfold Object_keys in *. simpl in *. apply NoDup_cons in Hnd as [Hnot Hnd].
    unfold obj_get at 2. simpl. destruct (decide (k' = k)) as [->|Hne]; simpl.
    + fold (obj_spread (obj_set k v' a) b).
      rewrite obj_get_spread_absent by done. apply obj_get_set_eq.
    + rewrite IH by set_solver. done.
Qed.

Lemma obj_keys_spread a b :
  ∀ x, x ∈ Object_keys (obj_spread a b) ↔ x ∈ Object_keys a ∨ x ∈ Object_keys b.
Proof.
  unfold obj_spread. revert a. induction b as [|[k v] b IH]; intros a x; simpl.
  - unfold Object_keys. set_solver.
  - rewrite IH, obj_keys_set. unfold Object_keys. simpl. set_solver.
Qed.

Lemma obj_set_NoDup k v o : NoDup (Object_keys o) → NoDup (Object_keys (obj_set k v o)).
Proof.
  unfold Object_keys. induction o as [|[k' v'] o IH]; simpl; intros Hnd.
  - apply NoDup_singleton.
  - apply NoDup_cons in Hnd as [Hnot Hnd].
    destruct (decide (k' = k)) as [->|Hne]; simpl.
    + by apply NoDup_cons.
    + apply NoDup_cons. split; [|by apply IH].
      intros Hin. apply (obj_keys_set k v o) in Hin. unfold Object_keys in Hin.
      naive_solver.
Qed.

Lemma obj_spread_NoDup a b :
  NoDup (Object_keys a) → NoDup (Object_keys (obj_spread a b)).
Proof.
  unfold obj_spread. revert a. induction b as [|[k v] b IH]; intros a Hnd; simpl.
  - done.
  - apply IH. by apply obj_set_NoDup.
Qed.

Lemma obj_rest_keys ks o :
  ∀ k, k ∈ Object_keys (obj_rest ks o) ↔ k ∈ Object_keys o ∧ k ∉ ks.
Proof.
  intros k. unfold Object_keys, obj_rest. rewrite !list_elem_of_fmap. split.
  - intros [[k' v] [-> Hin]]. apply list_elem_of_filter in Hin as [Hk Hin].
    split; [|done]. by exists (k', v).
  - intros [[[k' v] [-> Hin]] Hk]. exists (k', v). split; [done|].
    by apply list_elem_of_filter.
Qed.

End ObjectFacts.

(** ** The filter compiler *)

Section FilterCompilerFacts.
Context `{E : JsEnv}.

Lemma string_app_assoc (a b c : string) : (a +:+ b) +:+ c = a +:+ (b +:+ c).
Proof.
  induction a as [|ch a IH]; [reflexivity|].
  change (String ch ((a +:+ b) +:+ c) = String ch (a +:+ (b +:+ c))).
  by f_equal.
Qed.

Lemma string_app_nil_r (a : string) : a +:+ "" = a.
Proof.
  induction a as [|ch a IH]; [reflexivity|].
  change (String ch (a +:+ "") = String ch a). by f_equal.
Qed.

Lemma foldl_push_condition acc (l : list (string * value)) :
  foldl push_condition acc l
  = (acc.1 ++ ((λ kv, kv.1 +:+ " = ?") <$> l), acc.2 ++ l.*2).
Proof.
  revert acc. induction l as [|kv l IH]; intros [ws ps]; simpl.
  - by rewrite !app_nil_r.
  - rewrite IH. simpl. by rewrite <- !app_assoc.
Qed.

(** The text of the WHERE clause is the rendering of the structured
    predicates, and the parameters are theirs. *)
Lemma buildWhereClause_render filter :
  buildWhereClause filter
  = (render_where (where_conditions filter), (where_conditions filter).*2).
Proof.
  destruct filter as [f|]; [|done]. unfold buildWhereClause, where_conditions.
  rewrite foldl_push_condition. simpl. unfold Object_entries, render_where.
  destruct (obj_rest reserved_keys f) as [|kv l]; done.
Qed.

Lemma buildOrderAndLimit_render filter :
  buildOrderAndLimit filter
  = render_order (order_of filter) +:+ render_limit (limit_of filter).
Proof.
  destruct filter as [f|]; [|reflexivity].
  unfold buildOrderAndLimit, order_of, limit_of, render_order, render_limit.
  destruct (truthy (obj_get "orderBy" f)), (is_undefined (obj_get "limit" f));
    cbn [negb]; cbv iota beta;
    destruct (is_undefined (obj_get "offset" f)); cbn [negb];
    rewrite ?string_app_assoc, ?string_app_nil_r; done.
Qed.

(** The text of the whole SELECT of [findAll] (base-repository.ts:138). *)
Lemma select_text tableName filter :
  "SELECT * FROM " +:+ tableName +:+ " " +:+ (buildWhereClause filter).1
    +:+ " " +:+ buildOrderAndLimit filter
  = "SELECT * FROM " +:+ tableName +:+ " "
    +:+ render_where (where_conditions filter) +:+ " "
    +:+ (render_order (order_of filter) +:+ render_limit (limit_of filter)).
Proof. by rewrite buildWhereClause_render, buildOrderAndLimit_render. Qed.

Lemma obj_get_filter_keys (ks : list string) k (f : obj) :
  k ∈ ks → obj_get k (filter (λ kv, kv.1 ∈ ks) f) = obj_get k f.
Proof.
  intros HP. unfold obj_get. induction f as [|[k' v'] f IH]; [done|].
  rewrite filter_cons. simpl. destruct (decide (k' = k)) as [->|Hne].
  - rewrite decide_True by done. simpl. by rewrite decide_True.
  - destruct (decide (k' ∈ ks)); simpl; [by rewrite decide_False|done].
Qed.

(** C6.  The base filter compiler turns exactly the entries whose key is
    not [limit], [offset], [orderBy] or [orderDirection] into [column = ?]
    predicates joined by AND, with their values as parameters, and never a
    reserved key; the order/limit compiler appends ORDER BY only when
    [orderBy] is given (direction ASC unless one is given), LIMIT only when
    [limit] is given, OFFSET only inside the LIMIT part, and its result is
    that of the filter stripped of all its predicates. *)
Theorem filter_compiler_spec (f : obj) :
  let conditions := filter (λ kv, kv.1 ∉ reserved_keys) (Object_entries f) in
  let predicates := (λ kv, kv.1 +:+ " = ?") <$> conditions in
  let orderBy := obj_get "orderBy" f in
  let orderDirection := obj_get "orderDirection" f in
  let limit := obj_get "limit" f in
  let offset := obj_get "offset" f in
  (buildWhereClause (Some f)).1
    = (if decide (conditions = []) then ""
       else "WHERE " +:+ join " AND " predicates)
  ∧ (buildWhereClause (Some f)).2 = conditions.*2
  ∧ (∀ k v, (k, v) ∈ conditions ↔ (k, v) ∈ Object_entries f ∧ k ∉ reserved_keys)
  ∧ buildOrderAndLimit (Some f)
    = (if truthy orderBy
       then " ORDER BY " +:+ ToString orderBy +:+ " "
            +:+ (if truthy orderDirection then ToString orderDirection else "ASC")
       else "")
      +:+ (if is_undefined limit then ""
           else " LIMIT " +:+ ToString limit
                +:+ (if is_undefined offset then ""
                     else " OFFSET " +:+ ToString offset))
  ∧ buildOrderAndLimit (Some f)
    = buildOrderAndLimit (Some (filter (λ kv, kv.1 ∈ reserved_keys) f))
  ∧ buildWhereClause None = ("", []) ∧ buildOrderAndLimit None = "".
Proof.
  intros conditions predicates orderBy orderDirection limit offset.
  rewrite buildWhereClause_render. simpl.
  fold (obj_rest reserved_keys f). change (obj_rest reserved_keys f) with conditions.
  split_and!.
  - unfold render_where. destruct conditions; [done|]. by rewrite decide_False.
  - done.
  - intros k v. unfold conditions. rewrite list_elem_of_filter. naive_solver.
  - unfold buildOrderAndLimit. fold orderBy orderDirection limit offset.
    unfold js_or. destruct (truthy orderBy), (truthy orderDirection),
      (is_undefined limit), (is_undefined offset); cbn [negb];
      rewrite ?string_app_assoc, ?string_app_nil_r; done.
  - unfold buildOrderAndLimit.
    rewrite !(obj_get_filter_keys reserved_keys); [done|..];
      unfold reserved_keys; set_solver.
  - done.
  - done.
Qed.

(** The example of the specification: one equality predicate on [status],
    and an ORDER/LIMIT clause that the predicate does not enter. *)
Example filter_compiler_example :
  let f := [("status", VStr "DONE"); ("limit", VNum 5);
            ("orderBy", VStr "dueDate"); ("orderDirection", VStr "DESC")] in
  buildWhereClause (Some f) = ("WHERE status = ?", [VStr "DONE"])
  ∧ buildOrderAndLimit (Some f) = " ORDER BY dueDate DESC LIMIT 5".
Proof. split; reflexivity. Qed.

End FilterCompilerFacts.

(** ** The database model *)

Section DatabaseFacts.
Context `{E : JsEnv}.

Lemma table_eta t : Table (tbl_columns t) (tbl_rowid_alias t) (tbl_rows t) = t.
Proof. by destruct t. Qed.

Lemma known_columns_app t cs ds :
  known_columns t (cs ++ ds) = known_columns t cs && known_columns t ds.
Proof. unfold known_columns. apply forallb_app. Qed.

Lemma filter_all_false {A} (P : A → Prop) `{∀ x, Decision (P x)} (l : list A) :
  (∀ x, x ∈ l → ¬ P x) → filter P l = [].
Proof.
  induction l as [|x l IH]; intros Hall; [done|].
  rewrite filter_cons, decide_False by (apply Hall; left).
  apply IH. intros y Hy. apply Hall. by right.
Qed.

Lemma filter_all_true {A} (P : A → Prop) `{∀ x, Decision (P x)} (l : list A) :
  (∀ x, x ∈ l → P x) → filter P l = l.
Proof.
  induction l as [|x l IH]; intros Hall; [done|].
  rewrite filter_cons, decide_True by (apply Hall; left).
  f_equal. apply IH. intros y Hy. apply Hall. by right.
Qed.

(** Reading does not write. *)
Lemma db_all_state conds order limit t : (db_all conds order limit t).2 = t.
Proof.
  unfold db_all. destruct (negb _); [done|].
  by destruct (apply_order _ _).
Qed.

Lemma db_get_state conds order limit t : (db_get conds order limit t).2 = t.
Proof.
  unfold db_get, mbind, M_bind, bind.
  pose proof (db_all_state conds order limit t) as Hs.
  destruct (db_all conds order limit t) as [[rows|e] t']; simpl in *; by subst.
Qed.

Lemma db_get_missing pk id t :
  known_columns t [pk] = true → no_row_with pk id t →
  db_get [(pk, id)] None None t = (Ok None, t).
Proof.
  intros Hk Hno. unfold db_get, mbind, M_bind, bind, db_all. simpl.
  unfold known_columns in Hk. simpl in Hk. rewrite Hk. simpl.
  rewrite filter_all_false; [done|].
  intros r Hr. apply list_elem_of_fmap in Hr as [rr [-> Hrr]].
  rewrite (Hno rr Hrr). simpl. auto.
Qed.


Lemma db_delete_missing pk id t :
  known_columns t [pk] = true → no_row_with pk id t →
  db_delete pk id t = (Ok 0, t).
Proof.
  intros Hk Hno. unfold db_delete. rewrite Hk. simpl.
  rewrite filter_all_false.
  2:{ intros rr Hrr. rewrite (Hno rr Hrr). auto. }
  rewrite filter_all_true.
  2:{ intros rr Hrr. rewrite (Hno rr Hrr). auto. }
  by rewrite table_eta.
Qed.

End DatabaseFacts.

(** ** The generic repository *)

Section GenericRepositoryFacts.
Context `{E : JsEnv}.
Variable primaryKey : string.
Variable entityToRow : Z → obj → outcome obj.
Variable rowToEntity : Z → obj → outcome obj.
Variable whereOf : option obj → list (string * value).

Lemma findById_missing now id t :
  known_columns t [primaryKey] = true → no_row_with primaryKey id t →
  findById primaryKey rowToEntity now id t = (Ok None, t).
Proof.
  intros Hk Hno. unfold findById, mbind, M_bind, bind.
  by rewrite db_get_missing.
Qed.

(** Lookups never write. *)
Lemma findById_state now id t :
  (findById primaryKey rowToEntity now id t).2 = t.
Proof.
  unfold findById, mbind, M_bind, bind.
  pose proof (db_get_state [(primaryKey, id)] None None t) as Hs.
  destruct (db_get _ _ _ t) as [[[r|]|e] t']; simpl in *; subst; try done.
  unfold lift. by destruct (rowToEntity now r).
Qed.


End GenericRepositoryFacts.


Section FindOneFacts.
Context `{E : JsEnv}.
Variable rowToEntity : Z → obj → outcome obj.





End FindOneFacts.



Section CreateFacts.
Context `{E : JsEnv}.
Variable entityToRow : Z → obj → outcome obj.


Lemma obj_lookup_zip_fmap k (cols : list string) (g : string → value) :
  k ∈ cols → obj_lookup k (zip cols (g <$> cols)) = Some (g k).
Proof.
  induction cols as [|c cols IH]; intros Hk; simpl; [set_solver|].
  destruct (decide (c = k)) as [->|Hne]; [done|]. apply IH. set_solver.
Qed.


Lemma foldr_max_ge (l : list Z) x : x ∈ l → x ≤ foldr Z.max 0 l.
Proof.
  induction l as [|y l IH]; simpl; [set_solver|].
  intros [->|Hin]%elem_of_cons; [lia|]. specialize (IH Hin). lia.
Qed.

Lemma next_rowid_fresh t : next_rowid t ∉ (tbl_rows t).*1.
Proof.
  unfold next_rowid. intros Hin. apply foldr_max_ge in Hin. lia.
Qed.



End CreateFacts.


(** The entity that [create] returns cannot be read back by its id. *)
Lemma create_then_findById_misses :
  let t' := Table ex_task_columns None (tbl_rows ex_tasks ++ [(2, ex_stored_task)]) in
  TaskRepository_create 2000 ex_new_task ex_tasks
  = (Ok (obj_set "id" (VNum 2) ex_new_task), t')
  ∧ TaskRepository_findById 2001 (VNum 2) t' = (Ok None, t').
Proof. split; reflexivity. Qed.


(** ** Serialization round trips *)

Section RoundTrip.
Context `{E : JsEnv} {L : JsEnvLaws E}.

Lemma truthy_iso t : truthy (VStr (toISOString t)) = true.
Proof.
  simpl. apply negb_true_iff, String.eqb_neq, toISOString_nonempty.
Qed.

Lemma truthy_json j : truthy (VStr (JSON_stringify j)) = true.
Proof.
  simpl. apply negb_true_iff, String.eqb_neq, JSON_stringify_nonempty.
Qed.

(** A date survives [toISOString] followed by [new Date]. *)
Lemma date_roundtrip v iso :
  call_toISOString v = Ok iso → truthy iso = true ∧ new_Date iso = v.
Proof.
  destruct v; simpl; try done. intros [= <-]. split; [apply truthy_iso|].
  simpl. by rewrite Date_parse_toISOString.
Qed.

(** A structured value survives [JSON.stringify] followed by
    [JSON.parse]; an absent one stays absent. *)
Lemma json_roundtrip v dflt :
  structured_or_absent v →
  (if truthy (JSON_stringify_value v)
   then JSON_parse_value (JSON_stringify_value v) else Ok dflt)
  = Ok (if decide (v = VUndef) then dflt else v).
Proof.
  intros [-> | [j ->]]; [done|]. cbn [JSON_stringify_value].
  rewrite truthy_json. unfold JSON_parse_value. cbn [ToString].
  by rewrite JSON_parse_stringify.
Qed.

(** Reading a key of [{...o, k1: v1, ..., kn: vn}]. *)
Ltac obj_get_literal :=
  unfold obj_spread; cbn [foldl fst snd];
  repeat first [ rewrite obj_get_set_eq
               | rewrite obj_get_set_ne by (clear; discriminate) ].

Lemma Task_entityToRow_fields now (task row : obj) :
  Task_entityToRow now task = Ok row →
  row = obj_spread task
          [("metadata", obj_get "metadata" row); ("dueDate", obj_get "dueDate" row);
           ("createdAt", obj_get "createdAt" row);
           ("updatedAt", VStr (toISOString now))]
  ∧ obj_get "metadata" row
    = (if truthy (obj_get "metadata" task)
       then JSON_stringify_value (obj_get "metadata" task) else VNull)
  ∧ (if truthy (obj_get "dueDate" task)
     then call_toISOString (obj_get "dueDate" task) else Ok VNull)
    = Ok (obj_get "dueDate" row)
  ∧ (if truthy (obj_get "createdAt" task)
     then call_toISOString (obj_get "createdAt" task)
     else Ok (VStr (toISOString now)))
    = Ok (obj_get "createdAt" row).
Proof.
  unfold Task_entityToRow, mbind, outcome_mbind, outcome_bind. intros Hrow.
  destruct (if truthy (obj_get "dueDate" task) then _ else _) as [dd|] eqn:Hdd;
    [|done].
  destruct (if truthy (obj_get "createdAt" task) then _ else _) as [ca|] eqn:Hca;
    [|done].
  injection Hrow as <-. obj_get_literal. done.
Qed.

Lemma Task_roundtrip now now' (task row : obj) :
  NoDup (Object_keys task) →
  structured_or_absent (obj_get "metadata" task) →
  Task_entityToRow now task = Ok row →
  ∃ task',
    Task_rowToEntity now' row = Ok task'
    ∧ (∀ k, k ∈ Object_keys task → k ∉ Task_converted_fields →
            obj_get k task' = obj_get k task)
    ∧ (truthy (obj_get "id" task) = true → obj_get "id" task' = obj_get "id" task)
    ∧ (∀ j, obj_get "metadata" task = VObj j → obj_get "metadata" task' = VObj j)
    ∧ (∀ t, obj_get "dueDate" task = VDate t → obj_get "dueDate" task' = VDate t)
    ∧ (obj_get "dueDate" task = VUndef → obj_get "dueDate" task' = VUndef)
    ∧ (∀ t, obj_get "createdAt" task = VDate t →
            obj_get "createdAt" task' = VDate t)
    ∧ obj_get "updatedAt" task' = VDate now.
Proof.
  intros Hnd Hmeta Hrow.
  destruct (Task_entityToRow_fields _ _ _ Hrow) as (Heq & Hmd & Hdd & Hca).
  assert (Hid : obj_get "id" row = obj_get "id" task).
  { rewrite Heq. by obj_get_literal. }
  assert (Hup : obj_get "updatedAt" row = VStr (toISOString now)).
  { rewrite Heq. by obj_get_literal. }
  assert (Hndr : NoDup (Object_keys row)).
  { rewrite Heq. by apply obj_spread_NoDup. }
  assert (Hmeta' : (if truthy (obj_get "metadata" row)
                    then JSON_parse_value (obj_get "metadata" row)
                    else Ok (VObj J_empty_object))
                   = Ok (if decide (obj_get "metadata" task = VUndef)
                         then VObj J_empty_object else obj_get "metadata" task)).
  { rewrite Hmd. destruct Hmeta as [-> | [j ->]]; [done|].
    cbn [truthy]. apply (json_roundtrip (VObj j)). right. by exists j. }
  unfold Task_rowToEntity. cbv zeta.
  change (obj_get "id" (Task_defaults now')) with (VStr "").
  change (obj_get "metadata" (Task_defaults now')) with (VObj J_empty_object).
  change (obj_get "createdAt" (Task_defaults now')) with (VDate now').
  change (obj_get "updatedAt" (Task_defaults now')) with (VDate now'). rewrite Hmeta'. cbn [mbind outcome_mbind outcome_bind].
  eexists. split; [reflexivity|]. split_and!.
  - intros k Hk Hnot. unfold Task_converted_fields in Hnot.
    unfold obj_spread at 1. cbn [foldl fst snd].
    rewrite !obj_get_set_ne by (intros ->; apply Hnot; set_solver).
    assert (Hkr : k ∈ Object_keys row).
    { rewrite Heq. apply obj_keys_spread. by left. }
    rewrite obj_get_spread_present by done.
    rewrite Heq. unfold obj_spread. cbn [foldl fst snd].
    by rewrite !obj_get_set_ne by (intros ->; apply Hnot; set_solver).
  - intros Htr. obj_get_literal. rewrite Hid. unfold js_or. by rewrite Htr.
  - intros j Hj. obj_get_literal. rewrite Hj. by rewrite decide_False.
  - intros t Ht. obj_get_literal. rewrite Ht in Hdd. cbn [truthy] in Hdd.
    apply date_roundtrip in Hdd as [-> ->]. done.
  - intros Hu. obj_get_literal. rewrite Hu in Hdd. cbn [truthy] in Hdd.
    injection Hdd as <-. done.
  - intros t Ht. obj_get_literal. rewrite Ht in Hca. cbn [truthy] in Hca.
    apply date_roundtrip in Hca as [-> ->]. done.
  - obj_get_literal. rewrite Hup, truthy_iso. cbn [new_Date].
    by rewrite Date_parse_toISOString.
Qed.

Lemma Memory_entityToRow_fields now (memory row : obj) :
  Memory_entityToRow now memory = Ok row →
  row = obj_spread memory
          [("timestamp", obj_get "timestamp" row);
           ("lastAccessed", obj_get "lastAccessed" row);
           ("tags", obj_get "tags" row); ("metadata", obj_get "metadata" row);
           ("relationships", obj_get "relationships" row);
           ("createdAt", obj_get "createdAt" row);
           ("updatedAt", VStr (toISOString now))]
  ∧ call_toISOString (obj_get "timestamp" memory) = Ok (obj_get "timestamp" row)
  ∧ (if truthy (obj_get "lastAccessed" memory)
     then call_toISOString (obj_get "lastAccessed" memory) else Ok VNull)
    = Ok (obj_get "lastAccessed" row)
  ∧ obj_get "tags" row = JSON_stringify_value (obj_get "tags" memory)
  ∧ obj_get "metadata" row = JSON_stringify_value (obj_get "metadata" memory)
  ∧ obj_get "relationships" row
    = JSON_stringify_value (obj_get "relationships" memory)
  ∧ (if truthy (obj_get "createdAt" memory)
     then call_toISOString (obj_get "createdAt" memory)
     else Ok (VStr (toISOString now)))
    = Ok (obj_get "createdAt" row).
Proof.
  unfold Memory_entityToRow, mbind, outcome_mbind, outcome_bind. intros Hrow.
  destruct (call_toISOString (obj_get "timestamp" memory)) as [ts|] eqn:Hts;
    [|done].
  destruct (if truthy (obj_get "lastAccessed" memory) then _ else _)
    as [la|] eqn:Hla; [|done].
  destruct (if truthy (obj_get "createdAt" memory) then _ else _)
    as [ca|] eqn:Hca; [|done].
  injection Hrow as <-. obj_get_literal. done.
Qed.

Lemma Memory_roundtrip now now' (memory row : obj) :
  NoDup (Object_keys memory) →
  structured_or_absent (obj_get "tags" memory) →
  structured_or_absent (obj_get "metadata" memory) →
  structured_or_absent (obj_get "relationships" memory) →
  Memory_entityToRow now memory = Ok row →
  ∃ memory',
    Memory_rowToEntity now' row = Ok memory'
    ∧ (∀ k, k ∈ Object_keys memory → k ∉ Memory_converted_fields →
            obj_get k memory' = obj_get k memory)
    ∧ (truthy (obj_get "id" memory) = true →
       obj_get "id" memory' = obj_get "id" memory)
    ∧ obj_get "timestamp" memory' = obj_get "timestamp" memory
    ∧ (∀ t, obj_get "lastAccessed" memory = VDate t →
            obj_get "lastAccessed" memory' = VDate t)
    ∧ (obj_get "lastAccessed" memory = VUndef →
       obj_get "lastAccessed" memory' = VUndef)
    ∧ (∀ j, obj_get "tags" memory = VObj j → obj_get "tags" memory' = VObj j)
    ∧ (∀ j, obj_get "metadata" memory = VObj j →
            obj_get "metadata" memory' = VObj j)
    ∧ (∀ j, obj_get "relationships" memory = VObj j →
            obj_get "relationships" memory' = VObj j)
    ∧ (∀ t, obj_get "createdAt" memory = VDate t →
            obj_get "createdAt" memory' = VDate t)
    ∧ obj_get "updatedAt" memory' = VDate now.
Proof.
  intros Hnd Htags Hmeta Hrels Hrow.
  destruct (Memory_entityToRow_fields _ _ _ Hrow)
    as (Heq & Hts & Hla & Htg & Hmd & Hrl & Hca).
  assert (Hid : obj_get "id" row = obj_get "id" memory).
  { rewrite Heq. by obj_get_literal. }
  assert (Hup : obj_get "updatedAt" row = VStr (toISOString now)).
  { rewrite Heq. by obj_get_literal. }
  assert (Hndr : NoDup (Object_keys row)).
  { rewrite Heq. by apply obj_spread_NoDup. }
  unfold Memory_rowToEntity. cbv zeta.
  change (obj_get "id" (Memory_defaults now')) with (VStr "").
  change (obj_get "timestamp" (Memory_defaults now')) with (VDate now').
  change (obj_get "tags" (Memory_defaults now')) with (VObj J_empty_array).
  change (obj_get "metadata" (Memory_defaults now')) with (VObj J_empty_object).
  change (obj_get "relationships" (Memory_defaults now'))
    with (VObj J_empty_array).
  change (obj_get "createdAt" (Memory_defaults now')) with (VDate now').
  change (obj_get "updatedAt" (Memory_defaults now')) with (VDate now').
  rewrite Htg, Hmd, Hrl, !json_roundtrip by done.
  cbn [mbind outcome_mbind outcome_bind].
  eexists. split; [reflexivity|]. split_and!.
  - intros k Hk Hnot. unfold Memory_converted_fields in Hnot.
    unfold obj_spread at 1. cbn [foldl fst snd].
    rewrite !obj_get_set_ne by (intros ->; apply Hnot; set_solver).
    assert (Hkr : k ∈ Object_keys row).
    { rewrite Heq. apply obj_keys_spread. by left. }
    rewrite obj_get_spread_present by done.
    rewrite Heq. unfold obj_spread. cbn [foldl fst snd].
    by rewrite !obj_get_set_ne by (intros ->; apply Hnot; set_solver).
  - intros Htr. obj_get_literal. rewrite Hid. unfold js_or. by rewrite Htr.
  - obj_get_literal. apply date_roundtrip in Hts as [-> ->]. done.
  - intros t Ht. obj_get_literal. rewrite Ht in Hla. cbn [truthy] in Hla.
    apply date_roundtrip in Hla as [-> ->]. done.
  - intros Hu. obj_get_literal. rewrite Hu in Hla. cbn [truthy] in Hla.
    injection Hla as <-. done.
  - intros j Hj. obj_get_literal. rewrite Hj. by rewrite decide_False.
  - intros j Hj. obj_get_literal. rewrite Hj. by rewrite decide_False.
  - intros j Hj. obj_get_literal. rewrite Hj. by rewrite decide_False.
  - intros t Ht. obj_get_literal. rewrite Ht in Hca. cbn [truthy] in Hca.
    apply date_roundtrip in Hca as [-> ->]. done.
  - obj_get_literal. rewrite Hup, truthy_iso. cbn [new_Date].
    by rewrite Date_parse_toISOString.
Qed.

(** C8, as the code has it.  For a task or memory [E] (an object whose
    structured fields hold structured values), [rowToEntity(entityToRow(E))]
    succeeds and reproduces every field of [E] but [updatedAt]: plain fields
    pass through, dates survive the ISO-8601 text, structured fields survive
    the JSON text; [updatedAt] comes back as the time of the conversion to a
    row, whatever [E] held. *)
Theorem entity_roundtrip now now' (entity row : obj) :
  NoDup (Object_keys entity) →
  structured_or_absent (obj_get "tags" entity) →
  structured_or_absent (obj_get "metadata" entity) →
  structured_or_absent (obj_get "relationships" entity) →
  (Task_entityToRow now entity = Ok row →
   ∃ task',
     Task_rowToEntity now' row = Ok task'
     ∧ (∀ k, k ∈ Object_keys entity → k ∉ Task_converted_fields →
             obj_get k task' = obj_get k entity)
     ∧ (truthy (obj_get "id" entity) = true →
        obj_get "id" task' = obj_get "id" entity)
     ∧ (∀ j, obj_get "metadata" entity = VObj j →
             obj_get "metadata" task' = VObj j)
     ∧ (∀ t, obj_get "dueDate" entity = VDate t →
             obj_get "dueDate" task' = VDate t)
     ∧ (obj_get "dueDate" entity = VUndef → obj_get "dueDate" task' = VUndef)
     ∧ (∀ t, obj_get "createdAt" entity = VDate t →
             obj_get "createdAt" task' = VDate t)
     ∧ obj_get "updatedAt" task' = VDate now)
  ∧ (Memory_entityToRow now entity = Ok row →
     ∃ memory',
       Memory_rowToEntity now' row = Ok memory'
       ∧ (∀ k, k ∈ Object_keys entity → k ∉ Memory_converted_fields →
               obj_get k memory' = obj_get k entity)
       ∧ (truthy (obj_get "id" entity) = true →
          obj_get "id" memory' = obj_get "id" entity)
       ∧ obj_get "timestamp" memory' = obj_get "timestamp" entity
       ∧ (∀ t, obj_get "lastAccessed" entity = VDate t →
               obj_get "lastAccessed" memory' = VDate t)
       ∧ (obj_get "lastAccessed" entity = VUndef →
          obj_get "lastAccessed" memory' = VUndef)
       ∧ (∀ j, obj_get "tags" entity = VObj j → obj_get "tags" memory' = VObj j)
       ∧ (∀ j, obj_get "metadata" entity = VObj j →
               obj_get "metadata" memory' = VObj j)
       ∧ (∀ j, obj_get "relationships" entity = VObj j →
               obj_get "relationships" memory' = VObj j)
       ∧ (∀ t, obj_get "createdAt" entity = VDate t →
               obj_get "createdAt" memory' = VDate t)
       ∧ obj_get "updatedAt" memory' = VDate now).
Proof.
  intros Hnd Htags Hmeta Hrels. split; intros Hrow.
  - by apply Task_roundtrip.
  - by apply Memory_roundtrip.
Qed.

End RoundTrip.

(** The reference built-ins satisfy the laws. *)
Lemma undecimal_decimal t : undecimal (decimal t) = t.
Proof.
  unfold undecimal, decimal. rewrite DecimalString.NilEmpty.isi. simpl.
  apply DecimalZ.of_to.
Qed.

#[export] Instance RefEnv_laws : JsEnvLaws RefEnv.
Proof.
  split.
  - intros t. change (undecimal (decimal t) = t). apply undecimal_decimal.
  - discriminate.
  - reflexivity.
  - discriminate.
Qed.

(** C8, as stated, fails: a task last modified at time 100 and converted to
    a row at time 2000 comes back last modified at time 2000. *)
Lemma roundtrip_replaces_updatedAt :
  (row ← Task_entityToRow 2000 ex_task; Task_rowToEntity 3000 row)
  = Ok (obj_set "updatedAt" (VDate 2000) ex_task)
  ∧ obj_get "updatedAt" ex_task = VDate 100
  ∧ obj_get "updatedAt" (obj_set "updatedAt" (VDate 2000) ex_task) = VDate 2000
  ∧ (obj_set "updatedAt" (VDate 2000) ex_task ≠ ex_task).
Proof. split_and!; try reflexivity. discriminate. Qed.

Lemma entity_roundtrip_witness :
  ∃ task',
    Task_rowToEntity 3000
      (obj_spread ex_task
         [("metadata", VStr (JSON_stringify "{}"));
          ("dueDate", VStr (toISOString 5000));
          ("createdAt", VStr (toISOString 100));
          ("updatedAt", VStr (toISOString 2000))]) = Ok task'
    ∧ obj_get "title" task' = VStr "write docs"
    ∧ obj_get "dueDate" task' = VDate 5000
    ∧ obj_get "updatedAt" task' = VDate 2000.
Proof.
  assert (Hnd : NoDup (Object_keys ex_task)).
  { apply (bool_decide_unpack _). reflexivity. }
  destruct (proj1 (entity_roundtrip 2000 3000 ex_task _ Hnd
                     (or_introl eq_refl) (or_intror (ex_intro _ "{}" eq_refl))
                     (or_introl eq_refl)) eq_refl)
    as (task' & Hback & Hplain & _ & _ & Hdue & _ & _ & Hupd).
  exists task'. split_and!; [exact Hback | | by apply Hdue | exact Hupd].
  rewrite (Hplain "title"); [reflexivity | |].
  - apply (bool_decide_unpack _). reflexivity.
  - apply (bool_decide_unpack _). reflexivity.
Defined.

(** ** The task status machine *)

Section TaskServiceFacts.
Context `{E : JsEnv}.

(** The table of the source is the table of the specification. *)
Lemma validateStatusTransition_table (c s : TaskStatus) :
  validateStatusTransition (TaskStatus_value c) (TaskStatus_value s)
  = if bool_decide (legal c s) then Ok true
    else Throw (InvalidStatusTransition (TaskStatus_value c) (TaskStatus_value s)).
Proof. destruct c, s; reflexivity. Qed.

Lemma getTask_findById now id t task :
  getTask now id t = (Ok task, t) →
  TaskRepository_findById now id t = (Ok (Some task), t).
Proof.
  unfold getTask, mbind, M_bind, bind.
  destruct (TaskRepository_findById now id t) as [[[found|]|e] t'];
    simpl; unfold mret, M_ret, ret, throw; congruence.
Qed.

(** C3, as the code has it.  For a stored task with status [c],
    [updateStatus(taskId, s)] passes the transition check exactly when [s]
    is [c] or the pair is in the transition table; any other transition
    fails with the invalid-transition error before any write, the store
    unchanged.  A legal transition goes on to [updateTask], which fails,
    again before any write, when the task with its new status does not pass
    [validateTask] (a title outside 3..100 characters, a due date in the
    past). *)
Theorem updateStatus_spec now t taskId (task : obj) (c s : TaskStatus) :
  getTask now taskId t = (Ok task, t) →
  obj_get "status" task = TaskStatus_value c →
  let status := TaskStatus_value s in
  (validateStatusTransition (TaskStatus_value c) status = Ok true ↔ legal c s)
  ∧ (¬ legal c s →
     updateStatus now taskId status t
     = (Throw (InvalidStatusTransition (TaskStatus_value c) status), t))
  ∧ (legal c s →
     updateStatus now taskId status t = updateTask now taskId [("status", status)] t)
  ∧ (validateTask now (obj_spread task [("status", status)]) ≠ [] →
     updateTask now taskId [("status", status)] t
     = (Throw (TaskValidationError
                 (validateTask now (obj_spread task [("status", status)]))), t)).
Proof.
  intros Hget Hstatus status.
  pose proof (validateStatusTransition_table c s) as Hv. fold status in Hv.
  split_and!.
  - rewrite Hv. case_bool_decide; naive_solver.
  - intros Hl. unfold updateStatus, mbind, M_bind, bind, lift.
    rewrite Hget, Hstatus. fold status. rewrite Hv.
    by rewrite bool_decide_eq_false_2.
  - intros Hl. unfold updateStatus, mbind, M_bind, bind, lift.
    rewrite Hget, Hstatus. fold status. rewrite Hv.
    by rewrite bool_decide_eq_true_2.
  - intros Hinvalid. unfold updateTask, mbind, M_bind, bind.
    rewrite (getTask_findById _ _ _ _ Hget).
    rewrite bool_decide_eq_false_2 by done. done.
Qed.

End TaskServiceFacts.

(** C3, as stated, fails: the transition CREATED to PLANNED is in the
    table, but the task was due in the past, and [updateStatus] fails on
    the validation of [updateTask]. *)
Lemma updateStatus_legal_but_overdue :
  legal CREATED PLANNED
  ∧ validateStatusTransition (TaskStatus_value CREATED) (TaskStatus_value PLANNED)
    = Ok true
  ∧ updateStatus 2000 (VStr "task-1") (TaskStatus_value PLANNED) ex_overdue_tasks
    = (Throw (TaskValidationError [DueDateInPast]), ex_overdue_tasks).
Proof. split_and!; [right; set_solver | reflexivity | reflexivity]. Qed.

Lemma updateStatus_spec_witness :
  ¬ legal CREATED REVIEW
  ∧ updateStatus 2000 (VStr "task-1") (TaskStatus_value REVIEW) ex_tasks
    = (Throw (InvalidStatusTransition (VStr "CREATED") (VStr "REVIEW")), ex_tasks).
Proof.
  assert (Hnot : ¬ legal CREATED REVIEW).
  { apply (bool_decide_eq_false_1 (legal CREATED REVIEW)). reflexivity. }
  split; [exact Hnot|].
  exact (proj1 (proj2 (updateStatus_spec 2000 ex_tasks (VStr "task-1")
                         ex_found_task CREATED REVIEW eq_refl eq_refl)) Hnot).
Defined.

(** ** Sorting *)

Section SortFacts.
Context {A : Type} (le : A → A → bool).

Lemma elem_of_insert_by x y l : x ∈ insert_by le y l ↔ x = y ∨ x ∈ l.
Proof.
  induction l as [|z l IH]; simpl.
  - set_solver.
  - destruct (le y z); [set_solver|]. rewrite !elem_of_cons, IH. naive_solver.
Qed.

Lemma elem_of_stable_sort x l : x ∈ stable_sort le l ↔ x ∈ l.
Proof.
  unfold stable_sort. induction l as [|y l IH]; simpl; [done|].
  rewrite elem_of_insert_by, IH. set_solver.
Qed.

Lemma length_insert_by y l : length (insert_by le y l) = S (length l).
Proof.
  induction l as [|z l IH]; simpl; [done|]. destruct (le y z); simpl; congruence.
Qed.

Lemma length_stable_sort l : length (stable_sort le l) = length l.
Proof.
  unfold stable_sort. induction l as [|y l IH]; simpl; [done|].
  by rewrite length_insert_by, IH.
Qed.

Hypothesis le_total : ∀ x y, le x y = false → le y x = true.
Hypothesis le_trans : ∀ x y z, le x y = true → le y z = true → le x z = true.

Lemma insert_by_sorted y l :
  StronglySorted (λ a b, le a b = true) l →
  StronglySorted (λ a b, le a b = true) (insert_by le y l).
Proof.
  induction 1 as [|z l Hs IH Hall]; simpl.
  - constructor; [constructor | constructor].
  - destruct (le y z) eqn:Hyz.
    + constructor; [by constructor|]. constructor; [done|].
      eapply Forall_impl; [exact Hall|]. intros w Hw. by eapply le_trans.
    + constructor; [done|]. apply Forall_forall. intros w Hw.
      apply elem_of_insert_by in Hw as [-> | Hw]; [by apply le_total|].
      by eapply Forall_forall in Hall.
Qed.

Lemma stable_sort_sorted l :
  StronglySorted (λ a b, le a b = true) (stable_sort le l).
Proof.
  unfold stable_sort. induction l as [|y l IH]; simpl; [constructor|].
  by apply insert_by_sorted.
Qed.

End SortFacts.

Lemma StronglySorted_take {A} (R : relation A) n (l : list A) :
  StronglySorted R l → StronglySorted R (take n l).
Proof.
  intros Hs. rewrite <- (take_drop n l) in Hs.
  by apply StronglySorted_app_1_l in Hs.
Qed.

Lemma StronglySorted_weaken {A} (R R' : relation A) (l : list A) :
  (∀ x y, R x y → R' x y) → StronglySorted R l → StronglySorted R' l.
Proof.
  intros Himpl. induction 1 as [|x l Hs IH Hall]; constructor; [done|].
  eapply Forall_impl; [exact Hall | auto].
Qed.

(** ** Lexical similarity search *)

Section SimilarityFacts.
Context `{E : JsEnv}.

(** On a query without repeated tokens the score of the source is the
    token-set Jaccard similarity. *)
Lemma similarity_jaccard (A B : list string) :
  NoDup A → similarity A B = jaccard (list_to_set A) (list_to_set B).
Proof.
  intros Hnd. unfold similarity, jaccard.
  assert (Hu : length (remove_dups (A ++ B))
               = size (list_to_set A ∪ list_to_set B : gset string)).
  { rewrite <- list_to_set_app_L.
    rewrite <- (size_list_to_set (C := gset string) (remove_dups (A ++ B)))
      by apply NoDup_remove_dups.
    f_equal. apply set_eq. intros x.
    by rewrite !elem_of_list_to_set, elem_of_remove_dups. }
  assert (Hi : length (filter (λ t, t ∈ B) A)
               = size (list_to_set A ∩ list_to_set B : gset string)).
  { rewrite <- (size_list_to_set (C := gset string) (filter (λ t, t ∈ B) A))
      by by apply NoDup_filter.
    f_equal. apply set_eq. intros x.
    rewrite elem_of_intersection, !elem_of_list_to_set, list_elem_of_filter.
    naive_solver. }
  by rewrite Hu, Hi.
Qed.

Lemma map_outcome_score (contentTokens : list string) (memories : list obj) :
  (∀ m, m ∈ memories → ∃ s, obj_get "content" m = VStr s) →
  map_outcome (score contentTokens) memories
  = Ok ((λ m, (m, similarity contentTokens (tokenize (content_of m))))
          <$> memories).
Proof.
  induction memories as [|m memories IH]; intros Hstr; [done|].
  simpl. destruct (Hstr m) as [s Hs]; [left|].
  unfold score at 1, content_of. rewrite Hs. simpl.
  rewrite IH; [done|]. intros m' Hm'. apply Hstr. by right.
Qed.

Lemma slice0_take {A} n (l : list A) : ∃ k, slice0 n l = take k l.
Proof. unfold slice0. destruct (n <? 0); eauto. Qed.

(** C2, as the code has it.  For a query whose tokens are pairwise
    distinct, [findSimilar] scores every candidate that [findAll] returns
    for the optional context filter with the token-set Jaccard similarity of
    the query and the candidate's content, keeps the candidates whose score
    is at least the threshold, sorts them by score in non-increasing order
    (candidates with equal scores keep their order) and cuts the list with
    [slice(0, limit)]; the threshold is 0.5 and the limit 10 when they are
    not given. *)
Theorem findSimilar_spec now (content : string) options t (memories : list obj) :
  NoDup (tokenize content) →
  MemoryRepository_findAll now (Some (similar_filter options)) t
  = (Ok memories, t) →
  (∀ m, m ∈ memories → ∃ s, obj_get "content" m = VStr s) →
  let threshold := threshold_or_default options in
  let limit := limit_or_default options in
  let scored :=
    (λ m, (m, jaccard (token_set content) (token_set (content_of m))))
      <$> memories in
  let passing := filter (λ r, Qle_bool threshold r.2) scored in
  let results := slice0 limit (stable_sort (λ a b, Qle_bool b.2 a.2) passing) in
  findSimilar now content options t = (Ok results, t)
  ∧ StronglySorted (λ a b, (b.2 <= a.2)%Q) results
  ∧ (∀ r, r ∈ results → r ∈ scored ∧ (threshold <= r.2)%Q)
  ∧ (0 ≤ limit → (length passing ≤ Z.to_nat limit)%nat →
     ∀ r, r ∈ scored → (threshold <= r.2)%Q → r ∈ results)
  ∧ (0 ≤ limit → (length results ≤ Z.to_nat limit)%nat)
  ∧ (options ≫= opt_threshold = None → threshold = (1 # 2)%Q)
  ∧ (options ≫= opt_limit = None → limit = 10).
Proof.
  intros Hnd Hall Hstr threshold limit scored passing results.
  assert (Hsorted : StronglySorted (λ a b : obj * Q, (b.2 <= a.2)%Q)
                      (stable_sort (λ a b, Qle_bool b.2 a.2) passing)).
  { eapply StronglySorted_weaken; [|apply stable_sort_sorted].
    - intros x y Hxy. by apply Qle_bool_iff.
    - intros x y Hxy. apply Qle_bool_iff.
      destruct (Qlt_le_dec x.2 y.2) as [Hlt|Hle]; [by apply Qlt_le_weak|].
      apply Qle_bool_iff in Hle. congruence.
    - intros x y z Hxy Hyz. apply Qle_bool_iff.
      apply Qle_bool_iff in Hxy, Hyz. by eapply Qle_trans. }
  split_and!.
  - unfold findSimilar, mbind, M_bind, bind, lift, mret, M_ret, ret.
    rewrite Hall, map_outcome_score by done. unfold rank.
    fold threshold limit. unfold results, passing, scored. do 5 f_equal.
    apply list_fmap_ext. intros i m Hm. f_equal.
    by apply similarity_jaccard.
  - unfold results. destruct (slice0_take limit
      (stable_sort (λ a b, Qle_bool b.2 a.2) passing)) as [k ->].
    by apply StronglySorted_take.
  - intros r Hr. unfold results in Hr. destruct (slice0_take limit
      (stable_sort (λ a b, Qle_bool b.2 a.2) passing)) as [k Hk].
    rewrite Hk in Hr. apply elem_of_take in Hr as (i & Hr & _).
    apply list_elem_of_lookup_2, elem_of_stable_sort in Hr.
    apply list_elem_of_filter in Hr as [Hthr Hin]. split; [done|].
    by apply Qle_bool_iff, Is_true_true.
  - intros Hlim Hlen r Hr Hthr. unfold results, slice0.
    rewrite (proj2 (Z.ltb_ge _ _)) by done.
    rewrite take_ge by (rewrite length_stable_sort; lia).
    apply elem_of_stable_sort, list_elem_of_filter. split; [|done].
    by apply Is_true_true, Qle_bool_iff.
  - intros Hlim. unfold results, slice0. rewrite (proj2 (Z.ltb_ge _ _)) by done.
    rewrite length_take. lia.
  - unfold threshold, threshold_or_default. by intros ->.
  - unfold limit, limit_or_default. by intros ->.
Qed.

(** The slip that the amended claim leaves aside: the intersection counts
    a repeated query token once per occurrence. *)
Lemma similarity_counts_repeated_tokens :
  similarity (tokenize "urgent urgent") (tokenize "urgent deployment issue")
  = (2 # 3)%Q
  ∧ jaccard (list_to_set (tokenize "urgent urgent"))
            (list_to_set (tokenize "urgent deployment issue"))
    = (1 # 3)%Q.
Proof. split; [reflexivity | by vm_compute]. Qed.

End SimilarityFacts.

(** C2, as stated, fails: two candidates with the same token set score the
    same, and the result lists both, so it is not strictly descending. *)
Lemma findSimilar_ties_not_strict :
  findSimilar 0 "urgent deployment issue" None ex_memories
  = (Ok [(ex_memory "m1" "Issue: urgent deployment" "ops", (3 # 3)%Q);
         (ex_memory "m2" "urgent deployment issue" "ops", (3 # 3)%Q)],
     ex_memories)
  ∧ ¬ StronglySorted (λ a b : obj * Q, (b.2 < a.2)%Q)
        [(ex_memory "m1" "Issue: urgent deployment" "ops", (3 # 3)%Q);
         (ex_memory "m2" "urgent deployment issue" "ops", (3 # 3)%Q)].
Proof.
  split; [reflexivity|]. intros Hs.
  apply StronglySorted_inv in Hs as [_ Hall].
  apply Forall_cons in Hall as [Hlt _]. by apply Qlt_irrefl in Hlt.
Qed.

(** With a repeated query token, candidates whose Jaccard similarity (1/3)
    is below the threshold (1/2) are returned, scored 2/3. *)
Lemma findSimilar_repeated_query_token :
  findSimilar 0 "urgent urgent" None ex_memories
  = (Ok [(ex_memory "m1" "Issue: urgent deployment" "ops", (2 # 3)%Q);
         (ex_memory "m2" "urgent deployment issue" "ops", (2 # 3)%Q)],
     ex_memories).
Proof. reflexivity. Qed.

Lemma findSimilar_spec_witness :
  findSimilar 0 "deployment" (Some {| opt_context := Some ["ops"];
                                      opt_threshold := Some (1 # 4)%Q;
                                      opt_limit := Some 1 |}) ex_memories
  = (Ok [(ex_memory "m1" "Issue: urgent deployment" "ops",
          jaccard (token_set "deployment")
                  (token_set "Issue: urgent deployment"))],
     ex_memories).
Proof.
  pose (options := Some {| opt_context := Some ["ops"];
                           opt_threshold := Some (1 # 4)%Q;
                           opt_limit := Some 1 |}).
  assert (Hnd : NoDup (tokenize "deployment")).
  { apply (bool_decide_unpack _). reflexivity. }
  assert (Hstr : ∀ m : obj,
             m ∈ [ex_memory "m1" "Issue: urgent deployment" "ops";
                  ex_memory "m2" "urgent deployment issue" "ops"] →
             ∃ s, obj_get "content" m = VStr s).
  { intros m Hm. apply elem_of_cons in Hm as [-> | Hm]; [by eexists|].
    apply list_elem_of_singleton in Hm as ->. by eexists. }
  destruct (findSimilar_spec 0 "deployment" options ex_memories _ Hnd eq_refl Hstr)
    as (Hres & _).
  etrans; [exact Hres|]. reflexivity.
Defined.

(** ** The migration manager *)

Module MigrationFacts.
Import Migration.

Section ManagerFacts.
Context `{ME : MigrationEnv}.

(** Loading reads the directory and writes [this.migrations] and the log,
    nothing else. *)
Lemma load_files_fold (fs : list MigrationFile) ms w :
  let r := foldl (λ acc f, load_file f acc) (ms, w) fs in
  r.1 = ms ++ omap accepted fs
  ∧ files r.2 = files w ∧ clock r.2 = clock w ∧ schema r.2 = schema w
  ∧ ledger r.2 = ledger w ∧ migrations r.2 = migrations w
  ∧ ∃ logs, trace r.2 = trace w ++ logs ∧ Forall is_log logs.
Proof.
  revert ms w. induction fs as [|f fs IH]; intros ms w; simpl.
  - rewrite app_nil_r. split_and!; try done. exists []. by rewrite app_nil_r.
  - specialize (IH (load_file f (ms, w)).1 (load_file f (ms, w)).2).
    rewrite <- surjective_pairing in IH. simpl in IH.
    destruct IH as (H1 & H2 & H3 & H4 & H5 & H6 & logs & H7 & H8).
    rewrite H1, H2, H3, H4, H5, H6, H7. clear H1 H2 H3 H4 H5 H6 H7.
    unfold load_file, accepted.
    destruct (file_imports f); simpl.
    2:{ split_and!; try done. eexists (_ :: logs).
        rewrite <- app_assoc. split; [done|]. by constructor. }
    destruct (file_up f) as [u|], (file_down f) as [d|]; simpl.
    2-4: split_and!; try done; eexists (_ :: logs);
         rewrite <- app_assoc; (split; [done|]); by constructor.
    destruct (String.eqb (before_dash (file_name f)) EmptyString); simpl.
    + split_and!; try done. eexists (_ :: logs).
      rewrite <- app_assoc. split; [done|]. by constructor.
    + rewrite <- app_assoc. split_and!; try done. by exists logs.
Qed.

Lemma loadMigrations_spec w :
  let w' := loadMigrations w in
  files w' = files w ∧ clock w' = clock w ∧ schema w' = schema w
  ∧ ledger w' = ledger w
  ∧ migrations w' = from_option discover (migrations w) (files w)
  ∧ ∃ logs, trace w' = trace w ++ logs ∧ Forall is_log logs.
Proof.
  unfold loadMigrations. destruct (files w) as [dir|] eqn:Hdir; simpl.
  - set (fs := stable_sort _ (filter _ dir)).
    pose proof (load_files_fold fs [] w) as Hfold. simpl in Hfold.
    destruct (foldl _ _ fs) as [ms w1]. simpl in Hfold.
    destruct Hfold as (-> & H2 & H3 & H4 & H5 & H6 & logs & H7 & H8).
    simpl. rewrite H2, H3, H4, H5, H7. split_and!; try done.
    eexists (logs ++ [_]). rewrite app_assoc. split; [done|].
    apply Forall_app. split; [done|]. by repeat constructor.
  - split_and!; try done. eexists [_]. split; [done|]. by repeat constructor.
Qed.

(** Sorting the ledger keeps its records. *)
Lemma elem_of_getAppliedMigrations r w :
  r ∈ getAppliedMigrations w ↔ r ∈ records w.
Proof. apply elem_of_stable_sort. Qed.

Lemma length_getAppliedMigrations w :
  length (getAppliedMigrations w) = length (records w).
Proof. apply length_stable_sort. Qed.

Lemma getPendingMigrations_spec w :
  getPendingMigrations w
  = filter (λ m, id m ∉ rec_id <$> records w) (migrations w).
Proof.
  unfold getPendingMigrations. apply list_filter_iff. intros m.
  rewrite elem_of_list_to_set, !list_elem_of_fmap.
  by setoid_rewrite elem_of_getAppliedMigrations.
Qed.

Lemma world_ext (v v' : world) :
  files v = files v' → clock v = clock v' → schema v = schema v' →
  ledger v = ledger v' → migrations v = migrations v' → trace v = trace v' →
  v = v'.
Proof. destruct v, v'; simpl; intros; by subst. Qed.

(** A run of the loop that returns has written one record per pending
    unit, in order, and has touched neither the directory nor the unit
    list. *)
Lemma apply_pending_returned pending w w' :
  apply_pending pending w = (Returned (), w') →
  records w' = records w ++ (record_of (clock w) <$> pending)
  ∧ files w' = files w ∧ clock w' = clock w ∧ migrations w' = migrations w
  ∧ (ledger w = Some (records w) → ledger w' = Some (records w')).
Proof.
  revert w. induction pending as [|m rest IH]; intros w; simpl.
  - intros [= <-]. by rewrite app_nil_r.
  - destruct (up m _) as [s|s msg]; [|done].
    unfold recordMigration. case_bool_decide; [done|].
    intros Hrest. apply IH in Hrest as (H1 & H2 & H3 & H4 & H5).
    unfold records in *. simpl in *. rewrite H2, H3, H4.
    split_and!; try done.
    + by rewrite H1, <- app_assoc.
    + intros _. by apply H5.
Qed.

Lemma migrateUp_settles w w' :
  migrateUp w = (Returned (), w') →
  settled w'
  ∧ length (records w')
    = (length (records w)
       + length (getPendingMigrations (loadMigrations (initMigrationTable w))))%nat.
Proof.
  unfold migrateUp.
  set (w1 := initMigrationTable w). set (w2 := loadMigrations w1).
  assert (Hr1 : records w1 = records w ∧ ledger w1 = Some (records w)
                ∧ files w1 = files w ∧ migrations w1 = migrations w).
  { unfold w1, initMigrationTable, records.
    destruct (ledger w) eqn:Hledger; simpl; rewrite ?Hledger; by split_and!. }
  destruct Hr1 as (Hrec1 & Hled1 & Hfiles1 & Hmig1).
  destruct (loadMigrations_spec w1) as (Hf & _ & _ & Hl & Hm & _).
  fold w2 in Hf, Hl, Hm.
  assert (Hrec2 : records w2 = records w).
  { unfold records at 1. by rewrite Hl, Hled1. }
  assert (Hdisc : from_option discover (migrations w2) (files w2) = migrations w2).
  { rewrite Hm, Hf. by destruct (files w1). }
  pose proof (getPendingMigrations_spec w2) as Hpend. rewrite Hrec2 in Hpend.
  destruct (decide (length (getPendingMigrations w2) = 0%nat)) as [Hnil|Hne].
  - intros [= <-]. apply length_zero_iff_nil in Hnil. rewrite Hnil. simpl.
    unfold settled. change (records (log Info NothingToApply w2)) with (records w2).
    simpl. rewrite Hrec2, Hl, Hled1. split_and!; [done | done | | lia].
    intros m Hm'. destruct (decide (id m ∈ rec_id <$> records w)); [done|].
    assert (m ∈ getPendingMigrations w2) as Hin.
    { rewrite Hpend. by apply list_elem_of_filter. }
    rewrite Hnil in Hin. by apply not_elem_of_nil in Hin.
  - destruct (apply_pending _ _) as [[[]|e] w4] eqn:Happly; [|done].
    intros [= <-].
    apply apply_pending_returned in Happly as (H1 & H2 & H3 & H4 & H5).
    simpl in H1, H2, H3, H4, H5.
    change (records (log Info (Applying (length (getPendingMigrations w2))) w2))
      with (records w2) in H1, H5.
    unfold settled. change (records (log Info AllApplied w4)) with (records w4).
    simpl. rewrite H2, H4. split_and!.
    + apply H5. by rewrite Hl, Hled1, Hrec2.
    + done.
    + intros m Hm'. rewrite H1, Hrec2, fmap_app, elem_of_app.
      destruct (decide (id m ∈ rec_id <$> records w)); [by left|right].
      rewrite <- list_fmap_compose. apply list_elem_of_fmap. exists m.
      split; [done|]. rewrite Hpend. by apply list_elem_of_filter.
    + rewrite H1, Hrec2, length_app, length_fmap. done.
Qed.

(** In a settled world [migrateUp] finds nothing pending and only logs, and
    [status] reports the ledger and no pending unit. *)
Lemma settled_migrateUp v :
  settled v →
  getPendingMigrations (loadMigrations (initMigrationTable v)) = []
  ∧ (status v).1 = (getAppliedMigrations v, [])
  ∧ ∃ logs,
      migrateUp v
      = (Returned (), World (files v) (clock v) (schema v) (ledger v)
                            (migrations v) (trace v ++ logs))
      ∧ Forall is_log logs.
Proof.
  intros (Hled & Hdisc & Hids).
  assert (Hinit : initMigrationTable v = v).
  { unfold initMigrationTable. by rewrite Hled. }
  destruct (loadMigrations_spec v) as (Hf & Hc & Hs & Hl & Hm & logs & Ht & Hlogs).
  rewrite Hdisc in Hm.
  set (v2 := loadMigrations v) in *.
  assert (Hrec2 : records v2 = records v).
  { unfold records. by rewrite Hl. }
  assert (Hpend : getPendingMigrations v2 = []).
  { rewrite getPendingMigrations_spec, Hrec2, Hm.
    apply filter_all_false. intros m Hin Hnot. by apply Hnot, Hids. }
  assert (Happlied : getAppliedMigrations v2 = getAppliedMigrations v).
  { unfold getAppliedMigrations. by rewrite Hrec2. }
  rewrite Hinit. fold v2. split_and!.
  - done.
  - unfold status. rewrite Hinit. fold v2. cbv zeta. simpl.
    by rewrite Hpend, Happlied.
  - exists (logs ++ [Logged Info NothingToApply]). split.
    + unfold migrateUp. rewrite Hinit. fold v2. cbv zeta. rewrite Hpend. simpl.
      f_equal. apply world_ext; simpl; try done.
      by rewrite Ht, app_assoc.
    + apply Forall_app. split; [done|]. by repeat constructor.
Qed.

(** C4.  After a [migrateUp] that returned, a second [migrateUp] finds no
    pending unit (discovered minus applied, by id, is empty) and does no
    work: it returns, and it leaves the ledger and the rest of the database
    as they were, adding only log lines, none of them the call of a unit.
    [status] after the first and after the second call reports the same
    applied records and no pending unit; their number is the number before
    the first call plus the number of units that were pending then. *)
Theorem migrateUp_idempotent w w' :
  migrateUp w = (Returned (), w') →
  ∃ w'' logs,
    getPendingMigrations (loadMigrations (initMigrationTable w')) = []
    ∧ migrateUp w' = (Returned (), w'')
    ∧ ledger w'' = ledger w' ∧ schema w'' = schema w'
    ∧ trace w'' = trace w' ++ logs ∧ Forall is_log logs
    ∧ (status w').1 = (getAppliedMigrations w', [])
    ∧ (status w'').1 = (getAppliedMigrations w', [])
    ∧ length (getAppliedMigrations w')
      = (length (records w)
         + length (getPendingMigrations
                     (loadMigrations (initMigrationTable w))))%nat.
Proof.
  intros Hup. apply migrateUp_settles in Hup as [Hsettled Hlen].
  destruct (settled_migrateUp w' Hsettled) as (Hpend & Hstatus & logs & Hsecond & Hlogs).
  set (w'' := World (files w') (clock w') (schema w') (ledger w')
                    (migrations w') (trace w' ++ logs)) in *.
  assert (Hsettled'' : settled w'') by exact Hsettled.
  destruct (settled_migrateUp w'' Hsettled'') as (_ & Hstatus'' & _).
  exists w'', logs. split_and!; try done.
  by rewrite length_getAppliedMigrations.
Qed.

Lemma initMigrationTable_spec w :
  let w1 := initMigrationTable w in
  files w1 = files w ∧ clock w1 = clock w ∧ schema w1 = schema w
  ∧ records w1 = records w ∧ migrations w1 = migrations w
  ∧ trace w1 = trace w.
Proof.
  unfold initMigrationTable, records.
  destruct (ledger w) eqn:Hledger; simpl; rewrite ?Hledger; by split_and!.
Qed.

Lemma findIndex_None target rs :
  target ∉ rec_id <$> rs → findIndex target rs = None.
Proof.
  induction rs as [|r rs IH]; simpl; [done|]. intros Hnot.
  destruct (String.eqb_spec (rec_id r) target) as [Heq|Hne]; [set_solver|].
  rewrite IH by set_solver. done.
Qed.

(** C5, as the code has it.  Called with a non-empty [targetId] that no
    ledger record carries, [migrateDown] rolls nothing back: it invokes no
    unit and leaves the ledger records and the rest of the database as they
    were.  It does not raise: it logs an error and returns (on an empty
    ledger it logs that there is nothing to roll back). *)
Theorem migrateDown_unknown_target (target : string) w :
  target ≠ EmptyString →
  target ∉ rec_id <$> records w →
  ∃ w' logs,
    migrateDown (Some target) w = (Returned (), w')
    ∧ records w' = records w ∧ schema w' = schema w
    ∧ trace w' = trace w ++ logs ∧ Forall is_log logs
    ∧ (records w ≠ [] → Logged Error (TargetNotFound target) ∈ logs).
Proof.
  intros Hne Hnot. unfold migrateDown.
  destruct (initMigrationTable_spec w) as (Hf1 & Hc1 & Hs1 & Hr1 & Hm1 & Ht1).
  set (w1 := initMigrationTable w) in *.
  destruct (loadMigrations_spec w1) as (Hf & Hc & Hs & Hl & Hm & logs & Ht & Hlogs).
  set (w2 := loadMigrations w1) in *.
  assert (Hrec2 : records w2 = records w).
  { unfold records at 1. rewrite Hl. exact Hr1. }
  cbv zeta.
  destruct (decide (length (getAppliedMigrations w2) = 0%nat)) as [Hnil|Hnonempty].
  - eexists _, (logs ++ [_]). split_and!; [reflexivity | done | simpl; congruence
      | simpl; by rewrite Ht, Ht1, app_assoc | |].
    + apply Forall_app. split; [done|]. by repeat constructor.
    + intros Hrecs. rewrite length_getAppliedMigrations, Hrec2 in Hnil.
      by apply length_zero_iff_nil in Hnil.
  - unfold given. rewrite (proj2 (String.eqb_neq _ _) Hne).
    rewrite findIndex_None.
    2:{ intros Hin. apply Hnot. apply list_elem_of_fmap in Hin as (r & -> & Hr).
        apply elem_of_getAppliedMigrations in Hr. rewrite Hrec2 in Hr.
        apply list_elem_of_fmap. by exists r. }
    eexists _, (logs ++ [_]). split_and!; [reflexivity | done | simpl; congruence
      | simpl; by rewrite Ht, Ht1, app_assoc | |].
    + apply Forall_app. split; [done|]. by repeat constructor.
    + intros _. apply elem_of_app. right. by apply list_elem_of_singleton.
Qed.

Lemma find_unit_None (r : MigrationRecord) (ms : list Migration) :
  (∀ m, m ∈ ms → id m ≠ rec_id r) →
  find (λ m, String.eqb (id m) (rec_id r)) ms = None.
Proof.
  induction ms as [|m ms IH]; simpl; [done|]. intros Hall.
  destruct (String.eqb_spec (id m) (rec_id r)) as [Heq|Hne].
  - exfalso. by apply (Hall m); [left|].
  - apply IH. intros m' Hm'. apply Hall. by right.
Qed.

Lemma find_unit_Some (r : MigrationRecord) (ms : list Migration) m :
  find (λ m, String.eqb (id m) (rec_id r)) ms = Some m →
  m ∈ ms ∧ id m = rec_id r.
Proof.
  intros Hfind. apply find_some in Hfind as [Hin Heq].
  split; [by apply list_elem_of_In | by apply String.eqb_eq].
Qed.

(** The loop never deletes the record of a unit that is not discovered,
    and every [down] it invokes belongs to a discovered unit. *)
Lemma roll_back_keeps rs w res w' (r : MigrationRecord) :
  roll_back rs w = (res, w') →
  (∀ m, m ∈ migrations w → id m ≠ rec_id r) →
  r ∈ records w →
  r ∈ records w'
  ∧ ∀ f, CalledDown f ∈ trace w' →
         CalledDown f ∈ trace w
         ∨ ∃ m, m ∈ migrations w ∧ filename m = f ∧ id m ≠ rec_id r.
Proof.
  revert w. induction rs as [|record rest IH]; intros w; simpl.
  - intros [= <- <-] _ Hin. split; [done | by left].
  - destruct (find _ (migrations w)) as [m|] eqn:Hfind.
    + apply find_unit_Some in Hfind as [Hm Hid].
      destruct (down m _) as [s|s msg].
      * intros Hrest Hno Hin.
        apply IH in Hrest as [Hkept Hcalls]; [| done |].
        -- split; [done|]. intros f Hf. apply Hcalls in Hf as [Hf|Hf]; [|by right].
           simpl in Hf. rewrite !elem_of_app, !list_elem_of_singleton in Hf.
           destruct Hf as [[[Hf|Hf]|Hf]|Hf]; try done; [by left|].
           injection Hf as ->. right. exists m. split_and!; [done | done |].
           by apply Hno.
        -- unfold records. simpl. apply list_elem_of_filter. split; [|done].
           intros Heq. by apply (Hno m Hm).
      * intros [= <- <-] Hno Hin. split; [done|]. intros f Hf. simpl in Hf.
        rewrite !elem_of_app, !list_elem_of_singleton in Hf.
        destruct Hf as [[[Hf|Hf]|Hf]|Hf]; try done; [by left|].
        injection Hf as ->. right. exists m. split_and!; [done | done |].
        by apply Hno.
    + intros Hrest Hno Hin. apply IH in Hrest as [Hkept Hcalls]; [|done|done].
      split; [done|]. intros f Hf. apply Hcalls in Hf as [Hf|Hf]; [|by right].
      simpl in Hf. rewrite elem_of_app, list_elem_of_singleton in Hf.
      destruct Hf as [Hf|Hf]; [by left | done].
Qed.

(** C10.  During [migrateDown], a ledger record whose id matches no
    discovered unit is skipped with a warning and the loop goes on with the
    remaining records; whatever the call does afterwards, the record stays
    in the ledger, and every [down] that the call invokes belongs to a
    discovered unit, hence to another id. *)
Theorem migrateDown_skips_missing_units targetId w res w' (r : MigrationRecord) :
  migrateDown targetId w = (res, w') →
  r ∈ records w →
  (∀ m, m ∈ migrations (loadMigrations (initMigrationTable w)) →
        id m ≠ rec_id r) →
  (∀ rest v, migrations v = migrations (loadMigrations (initMigrationTable w)) →
             roll_back (r :: rest) v
             = roll_back rest (log Warn (UnitFileNotFound (rec_filename r)) v))
  ∧ r ∈ records w'
  ∧ ∀ f, CalledDown f ∈ trace w' →
         CalledDown f ∈ trace w
         ∨ ∃ m, m ∈ migrations (loadMigrations (initMigrationTable w))
                ∧ filename m = f ∧ id m ≠ rec_id r.
Proof.
  intros Hdown Hin Hno.
  destruct (initMigrationTable_spec w) as (Hf1 & Hc1 & Hs1 & Hr1 & Hm1 & Ht1).
  set (w1 := initMigrationTable w) in *.
  destruct (loadMigrations_spec w1) as (Hfiles2 & Hc & Hs & Hl & Hm & logs & Ht & Hlogs).
  set (w2 := loadMigrations w1) in *.
  assert (Hrec2 : records w2 = records w).
  { unfold records at 1. rewrite Hl. exact Hr1. }
  assert (Hin2 : r ∈ records w2) by (by rewrite Hrec2).
  assert (Hlogged : ∀ f, CalledDown f ∈ trace w2 → CalledDown f ∈ trace w).
  { intros f. rewrite Ht, Ht1, elem_of_app. intros [Hcall|Hcall]; [done|].
    eapply Forall_forall in Hlogs; [|exact Hcall]. done. }
  split.
  { intros rest v Hv. simpl. rewrite Hv. by rewrite find_unit_None. }
  revert Hdown. unfold migrateDown. fold w1 w2. cbv zeta.
  destruct (decide (length (getAppliedMigrations w2) = 0%nat)) as [Hnil|Hnonempty].
  { intros [= <- <-]. split; [exact Hin2|].
    intros f Hf. left. apply Hlogged. simpl in Hf.
    rewrite elem_of_app, list_elem_of_singleton in Hf. by destruct Hf. }
  destruct (match given targetId with Some _ => _ | None => _ end)
    as [toRollback|].
  2:{ intros [= <- <-]. split; [exact Hin2|].
      intros f Hf. left. apply Hlogged. simpl in Hf.
      rewrite elem_of_app, list_elem_of_singleton in Hf. by destruct Hf. }
  destruct (decide (length toRollback = 0%nat)) as [Hnone|Hsome].
  { intros [= <- <-]. split; [exact Hin2|].
    intros f Hf. left. apply Hlogged. simpl in Hf.
    rewrite elem_of_app, list_elem_of_singleton in Hf. by destruct Hf. }
  destruct (roll_back toRollback _) as [res4 w4] eqn:Hloop.
  apply (roll_back_keeps _ _ _ _ r) in Hloop as [Hkept Hcalls];
    [| exact Hno | exact Hin2].
  assert (Hcalls' : ∀ f, CalledDown f ∈ trace w4 →
            CalledDown f ∈ trace w
            ∨ ∃ m, m ∈ migrations w2 ∧ filename m = f ∧ id m ≠ rec_id r).
  { intros f Hf. apply Hcalls in Hf as [Hf|Hf]; [left|by right].
    apply Hlogged. simpl in Hf.
    rewrite elem_of_app, list_elem_of_singleton in Hf. by destruct Hf. }
  destruct res4 as [[]|e]; intros [= <- <-]; (split; [done|]); [|done].
  intros f Hf. apply Hcalls'. simpl in Hf.
  rewrite elem_of_app, list_elem_of_singleton in Hf. by destruct Hf.
Qed.

End ManagerFacts.

Lemma migrateUp_idempotent_witness :
  migrateUp ex_fresh = (Returned (), ex_migrated)
  ∧ ∃ w'', migrateUp ex_migrated = (Returned (), w'')
           ∧ ledger w'' = ledger ex_migrated ∧ schema w'' = schema ex_migrated.
Proof.
  split; [reflexivity|].
  destruct (migrateUp_idempotent ex_fresh ex_migrated eq_refl)
    as (w'' & logs & _ & Hsecond & Hledger & Hschema & _).
  exists w''. split_and!; [exact Hsecond | exact Hledger | exact Hschema].
Defined.

(** C5, as stated, fails: the empty string is a target id that matches no
    ledger record, and [migrateDown] takes it for an absent one and rolls
    the latest unit back. *)
Lemma migrateDown_empty_target_rolls_back :
  (EmptyString ∉ rec_id <$> records ex_migrated)
  ∧ (migrateDown (Some EmptyString) ex_migrated).1 = Returned ()
  ∧ records ex_migrated
    = [ex_record "001" "001-initial-schema.ts"; ex_record "002" "002-memories.ts"]
  ∧ records (migrateDown (Some EmptyString) ex_migrated).2
    = [ex_record "001" "001-initial-schema.ts"]
  ∧ schema (migrateDown (Some EmptyString) ex_migrated).2 = ["tasks"]
  ∧ trace (migrateDown (Some EmptyString) ex_migrated).2
    = trace ex_migrated
      ++ [Logged Info (Loaded 2); Logged Info (RollingBack 1);
          Logged Info (RollingBackUnit "002-memories.ts");
          CalledDown "002-memories.ts";
          Logged Info (RolledBackUnit "002-memories.ts");
          Logged Info RollbackDone].
Proof.
  split_and!; try reflexivity.
  intros Hin. apply list_elem_of_fmap in Hin as (r & Hid & Hr).
  apply elem_of_cons in Hr as [-> | Hr]; [discriminate|].
  apply list_elem_of_singleton in Hr as ->. discriminate.
Qed.

(** On an unknown, non-empty target the call returns; it does not raise. *)
Lemma migrateDown_unknown_target_returns :
  (migrateDown (Some "999") ex_migrated).1 = Returned ()
  ∧ trace (migrateDown (Some "999") ex_migrated).2
    = trace ex_migrated
      ++ [Logged Info (Loaded 2); Logged Error (TargetNotFound "999")].
Proof. split; reflexivity. Qed.

Lemma migrateDown_unknown_target_witness :
  ∃ w', migrateDown (Some "999") ex_migrated = (Returned (), w')
        ∧ records w' = records ex_migrated ∧ schema w' = schema ex_migrated.
Proof.
  assert (Hnot : "999" ∉ rec_id <$> records ex_migrated).
  { intros Hin. apply list_elem_of_fmap in Hin as (r & Hid & Hr).
    apply elem_of_cons in Hr as [-> | Hr]; [discriminate|].
    apply list_elem_of_singleton in Hr as ->. discriminate. }
  assert (Hne : "999" ≠ EmptyString) by discriminate.
  destruct (migrateDown_unknown_target "999" ex_migrated Hne Hnot)
    as (w' & logs & Hdown & Hrecords & Hschema & _).
  exists w'. split_and!; [exact Hdown | exact Hrecords | exact Hschema].
Defined.

Lemma migrateDown_skips_missing_units_witness :
  (migrateDown (Some "001") ex_orphaned).1 = Returned ()
  ∧ ex_record "003" "003-notes.ts"
    ∈ records (migrateDown (Some "001") ex_orphaned).2
  ∧ trace (migrateDown (Some "001") ex_orphaned).2
    = [Logged Info (Loaded 2); Logged Info (RollingBack 2);
       Logged Warn (UnitFileNotFound "003-notes.ts");
       Logged Info (RollingBackUnit "002-memories.ts");
       CalledDown "002-memories.ts";
       Logged Info (RolledBackUnit "002-memories.ts");
       Logged Info RollbackDone].
Proof.
  split_and!; [reflexivity | | reflexivity].
  assert (Hin : ex_record "003" "003-notes.ts" ∈ records ex_orphaned).
  { unfold records. simpl. rewrite !elem_of_cons. auto. }
  assert (Hno : ∀ m, m ∈ migrations (loadMigrations (initMigrationTable ex_orphaned))
                     → id m ≠ rec_id (ex_record "003" "003-notes.ts")).
  { intros m Hm. change (m ∈ [ex_unit_001; ex_unit_002]) in Hm.
    apply elem_of_cons in Hm as [-> | Hm]; [discriminate|].
    apply list_elem_of_singleton in Hm as ->. discriminate. }
  exact (proj1 (proj2 (migrateDown_skips_missing_units (Some "001") ex_orphaned
                         _ _ (ex_record "003" "003-notes.ts")
                         (surjective_pairing _) Hin Hno))).
Defined.

End MigrationFacts.

(** * Further properties

    Properties of the operations that surround the ones above: the other
    statements and the batch operations of the base repository, partial
    updates, the remaining operations of the task service, complete runs of
    the migration manager, the tokens and scores of the similarity search,
    and the filter compiler of the task repository. *)

#[local] Set Default Proof Using "Type".

(** ** Counting, finding, deleting and creating *)

Section FurtherStatementsFacts.
Context `{E : JsEnv}.

Lemma map_outcome_length {A B} (f : A → outcome B) xs ys :
  map_outcome f xs = Ok ys → length ys = length xs.
Proof.
  revert ys. induction xs as [|x xs IH]; intros ys; simpl.
  - by intros [= <-].
  - destruct (f x); [|done]. destruct (map_outcome f xs); [|done].
    intros [= <-]. simpl. f_equal. by apply IH.
Qed.

Lemma apply_order_Ok order rows sorted :
  apply_order order rows = Ok sorted →
  length sorted = length rows ∧ ∀ r, r ∈ sorted ↔ r ∈ rows.
Proof.
  unfold apply_order. destruct order as [[c d]|]; [|by intros [= <-]].
  repeat case_decide; intros [= <-];
    (split; [apply length_stable_sort | intros r; apply elem_of_stable_sort]).
Qed.

Lemma apply_limit_Ok limit rows cut :
  apply_limit limit rows = Ok cut →
  (length cut ≤ length rows)%nat
  ∧ (∀ r, r ∈ cut → r ∈ rows)
  ∧ (limit = None → cut = rows).
Proof.
  unfold apply_limit. destruct limit as [[n off]|]; [|by intros [= <-]].
  destruct n as [| | |n| | | |]; try done.
  set (cutf := λ l : list obj, if n <? 0 then l else take (Z.to_nat n) l).
  assert (Hcut : ∀ l : list obj,
            (length (cutf l) ≤ length l)%nat ∧ ∀ r, r ∈ cutf l → r ∈ l).
  { intros l. unfold cutf. destruct (n <? 0); [done|].
    split; [rewrite length_take; lia|].
    intros r Hr. by apply (subseteq_take (Z.to_nat n) l). }
  destruct off as [| | |m| | | |]; try done; intros [= <-].
  - destruct (Hcut rows) as [H1 H2]. unfold cutf in *. by split_and!.
  - destruct (Hcut (drop (Z.to_nat m) rows)) as [H1 H2]. unfold cutf in *.
    rewrite length_drop in H1. split_and!; [lia | | done].
    intros r Hr. apply H2 in Hr. by apply (subseteq_drop (Z.to_nat m) rows).
Qed.

(** X1: [count] against [findAll].  Whenever [findAll] returns for a filter,
    [count] returns for the same filter, without changing the table, the
    number of rows that satisfy the filter's WHERE conditions; [findAll]
    never returns more entities than that, and returns exactly that many
    when the filter sets no limit. *)
Theorem count_bounds_findAll rowToEntity whereOf now (fo : option obj) t es :
  findAll rowToEntity whereOf now fo t = (Ok es, t) →
  ∃ n, count whereOf fo t = (Ok n, t)
       ∧ n = Z.of_nat (length (filter (λ r, row_matches (whereOf fo) r)
                                      (tbl_rows t).*2))
       ∧ Z.of_nat (length es) ≤ n
       ∧ (limit_of fo = None → Z.of_nat (length es) = n).
Proof.
  unfold findAll, count, mbind, M_bind, bind, lift, mret, M_ret, ret.
  unfold db_all, db_count.
  destruct (known_columns t (_ ++ _)) eqn:Hk; simpl; [|done].
  rewrite known_columns_app in Hk. apply andb_true_iff in Hk as [Hk _].
  rewrite Hk. simpl.
  destruct (apply_order _ _) as [sorted|] eqn:Hsort; [|done].
  destruct (apply_limit _ _) as [cut|] eqn:Hcut; [|done].
  destruct (map_outcome _ _) as [es'|] eqn:Hmap; [|done].
  intros [= <-]. apply map_outcome_length in Hmap.
  apply apply_order_Ok in Hsort as [Hlen _].
  apply apply_limit_Ok in Hcut as (Hle & _ & Hall).
  eexists. split_and!; [done | done | lia |].
  intros Hnone. rewrite (Hall Hnone) in Hmap. lia.
Qed.






Lemma hit_after_delete pk id (rows : list (Z * obj)) :
  filter (λ rr : Z * obj, sql_eq (obj_get pk rr.2) (sql_bind id))
    (filter (λ rr : Z * obj, ¬ sql_eq (obj_get pk rr.2) (sql_bind id)) rows) = [].
Proof.
  apply filter_all_false. intros rr Hrr Hhit.
  by apply list_elem_of_filter in Hrr as [Hnot _].
Qed.

(** X3: [delete], then [findById].  After [delete(id)] has returned,
    [findById(id)] finds nothing and a second [delete(id)] returns [false];
    the first returns [true] exactly when a row had that key, and the table
    keeps exactly the rows whose key differs. *)
Theorem delete_then_findById primaryKey rowToEntity now id t b t' :
  delete primaryKey id t = (Ok b, t') →
  findById primaryKey rowToEntity now id t' = (Ok None, t')
  ∧ (b = true ↔ ∃ rr, rr ∈ tbl_rows t
                      ∧ sql_eq (obj_get primaryKey rr.2) (sql_bind id) = true)
  ∧ (∀ rr, rr ∈ tbl_rows t'
           ↔ rr ∈ tbl_rows t
             ∧ sql_eq (obj_get primaryKey rr.2) (sql_bind id) = false)
  ∧ delete primaryKey id t' = (Ok false, t').
Proof.
  intros Hdel.
  assert (Ht' : known_columns t [primaryKey] = true
                ∧ b = (0 <? Z.of_nat (length (filter
                         (λ rr : Z * obj, sql_eq (obj_get primaryKey rr.2) (sql_bind id))
                         (tbl_rows t))))
                ∧ t' = Table (tbl_columns t) (tbl_rowid_alias t)
                         (filter (λ rr : Z * obj,
                                    ¬ sql_eq (obj_get primaryKey rr.2) (sql_bind id))
                                 (tbl_rows t))).
  { revert Hdel. unfold delete, mbind, M_bind, bind, mret, M_ret, ret, db_delete.
    destruct (known_columns t [primaryKey]); simpl; [|done].
    by intros [= <- <-]. }
  destruct Ht' as (Hk & -> & ->). clear Hdel.
  set (t' := Table _ _ _).
  assert (Hk' : known_columns t' [primaryKey] = true) by done.
  assert (Hno : no_row_with primaryKey id t').
  { intros rr Hrr. simpl in Hrr. apply list_elem_of_filter in Hrr as [Hnot _].
    destruct (sql_eq _ _); [by exfalso; apply Hnot | done]. }
  split_and!.
  - by apply findById_missing.
  - rewrite Z.ltb_lt.
    pose proof (list_elem_of_filter
                  (λ rr : Z * obj, sql_eq (obj_get primaryKey rr.2) (sql_bind id))
                  (tbl_rows t)) as Hf.
    destruct (filter (λ rr : Z * obj, sql_eq (obj_get primaryKey rr.2) (sql_bind id))
                (tbl_rows t)) as [|rr l]; simpl; split.
    + lia.
    + intros (rr & Hrr & Hhit). exfalso. apply (not_elem_of_nil rr), Hf.
      split; [by apply Is_true_true | done].
    + intros _. exists rr. destruct (proj1 (Hf rr)) as [Hhit Hrr]; [left|].
      split; [done | by apply Is_true_true].
    + lia.
  - intros rr. simpl. rewrite list_elem_of_filter.
    destruct (sql_eq _ _); simpl; intuition done.
  - unfold delete, mbind, M_bind, bind. by rewrite db_delete_missing.
Qed.



End FurtherStatementsFacts.

(** *** On the example stores *)

Lemma count_bounds_findAll_witness :
  ∃ n, count where_conditions
         (Some [("status", VStr "CREATED"); ("limit", VNum 1)]) ex_two_tasks
       = (Ok n, ex_two_tasks)
       ∧ n = 2 ∧ 1 ≤ n.
Proof.
  destruct (count_bounds_findAll Base_rowToEntity where_conditions 0
              (Some [("status", VStr "CREATED"); ("limit", VNum 1)]) ex_two_tasks
              [ex_task_row "task-1" "write docs" "CREATED" VNull] eq_refl)
    as (n & Hcount & Hn & Hle & _).
  exists n. split_and!; [exact Hcount | exact Hn | exact Hle].
Defined.


Lemma delete_then_findById_witness :
  delete "id" (VStr "task-1") ex_two_tasks
  = (Ok true, Table ex_task_columns None
                [(2, ex_task_row "task-2" "add tests" "CREATED" VNull)])
  ∧ TaskRepository_findById 0 (VStr "task-1")
      (Table ex_task_columns None
         [(2, ex_task_row "task-2" "add tests" "CREATED" VNull)])
    = (Ok None, Table ex_task_columns None
                  [(2, ex_task_row "task-2" "add tests" "CREATED" VNull)]).
Proof.
  split; [reflexivity|].
  exact (proj1 (delete_then_findById "id" Task_rowToEntity 0 (VStr "task-1")
                  ex_two_tasks true _ eq_refl)).
Defined.



(** ** Transactions and batch operations *)

Section TransactionFacts.
Context `{E : JsEnv}.

Lemma transaction_on_table {A} (m : Async table A) c :
  conn_begun c = None →
  transaction (on_table m) c
  = match m (conn_table c) with
    | (Fulfilled a, t') => (Fulfilled a, Connection t' None)
    | (Rejected x, _) => (Rejected x, c)
    end.
Proof.
  destruct c as [t begun]. simpl. intros ->.
  unfold transaction, mbind, Async_bind, and_then, await, beginTransaction,
    on_table, commit, rollback. simpl.
  by destruct (m t) as [[a|x] t'].
Qed.


(** X6: a [transaction] inside a transaction.  Started while a
    transaction is open, [transaction] never runs its callback: it is
    rejected with the driver's error for the second BEGIN, and its [catch]
    block rolls the enclosing transaction back. *)
Theorem transaction_nested {A} (callback : Async connection A) c begun :
  conn_begun c = Some begun →
  transaction callback c
  = (Rejected (Raised (SqlError "cannot start a transaction within a transaction")),
     Connection begun None).
Proof.
  destruct c as [t b]. simpl. intros ->.
  unfold transaction, mbind, Async_bind, and_then, await, beginTransaction,
    rollback. done.
Qed.

Lemma create_Ok_inv entityToRow now (entity : obj) t e' t' :
  create entityToRow now entity t = (Ok e', t') →
  ∃ lastID stored,
    e' = obj_set "id" (VNum lastID) entity
    ∧ t' = Table (tbl_columns t) (tbl_rowid_alias t)
                 (tbl_rows t ++ [(lastID, stored)])
    ∧ lastID ∉ (tbl_rows t).*1.
Proof.
  unfold create, mbind, M_bind, bind, lift, mret, M_ret, ret, db_insert.
  destruct (entityToRow now entity) as [row|]; [|done].
  destruct (negb _); [done|].
  destruct (tbl_rowid_alias t ≫= _) as [[| | |n| | | |]|]; try done.
  - intros [= <- <-]. eexists _, _. split_and!; [done | done |].
    apply next_rowid_fresh.
  - case_decide; [done|]. intros [= <- <-]. by eexists _, _.
  - intros [= <- <-]. eexists _, _. split_and!; [done | done |].
    apply next_rowid_fresh.
Qed.

Lemma create_each_fulfilled entityToRow now entities acc t created t' :
  create_each entityToRow now entities acc t = (Fulfilled created, t') →
  ∃ ids added,
    created = acc ++ zip_with (λ e i, obj_set "id" (VNum i) e) entities ids
    ∧ length ids = length entities
    ∧ tbl_rows t' = tbl_rows t ++ added
    ∧ added.*1 = ids
    ∧ NoDup ids
    ∧ ∀ i, i ∈ ids → i ∉ (tbl_rows t).*1.
Proof.
  revert acc t. induction entities as [|e entities IH]; intros acc t; simpl.
  - intros [= <- <-]. exists [], []. rewrite !app_nil_r.
    split_and!; try done; [constructor|]. intros i Hi. by apply not_elem_of_nil in Hi.
  - unfold mbind, Async_bind, and_then, await.
    destruct (create entityToRow now e t) as [[e'|err] t1] eqn:Hc; [|done].
    apply create_Ok_inv in Hc as (lastID & stored & -> & -> & Hfresh).
    intros Hrest. apply IH in Hrest as (ids & added & -> & Hlen & Hrows & Hids & Hnd & Hnew).
    simpl in Hrows, Hnew.
    exists (lastID :: ids), ((lastID, stored) :: added). simpl.
    rewrite <- app_assoc. split_and!.
    + done.
    + by rewrite Hlen.
    + by rewrite Hrows, <- app_assoc.
    + by rewrite <- Hids.
    + apply NoDup_cons. split; [|done]. intros Hin. apply (Hnew _ Hin).
      rewrite fmap_app. apply elem_of_app. right. simpl. left.
    + intros i [->|Hi]%elem_of_cons; [done|]. intros Hin. apply (Hnew _ Hi).
      rewrite fmap_app. apply elem_of_app. by left.
Qed.

(** X7: [createMany] is all or nothing.  Started outside a transaction,
    [createMany] either is rejected and leaves the connection as it was, or
    is fulfilled with the entities in their order, each with the rowid of
    its row as [id]; the rows are appended to the table under pairwise
    distinct, fresh rowids. *)
Theorem createMany_all_or_nothing entityToRow now entities c :
  conn_begun c = None →
  match createMany entityToRow now entities c with
  | (Rejected x, c') => c' = c
  | (Fulfilled created, c') =>
      conn_begun c' = None
      ∧ ∃ ids added,
          created = zip_with (λ e i, obj_set "id" (VNum i) e) entities ids
          ∧ length ids = length entities
          ∧ tbl_rows (conn_table c') = tbl_rows (conn_table c) ++ added
          ∧ added.*1 = ids
          ∧ NoDup ids
          ∧ ∀ i, i ∈ ids → i ∉ (tbl_rows (conn_table c)).*1
  end.
Proof.
  intros Hc. unfold createMany. rewrite transaction_on_table by done.
  destruct (create_each _ _ _ _ _) as [[created|x] t'] eqn:Hloop; [|done].
  split; [done|]. apply create_each_fulfilled in Hloop. exact Hloop.
Qed.

Lemma update_each_rejects primaryKey entityToRow rowToEntity now entities acc t :
  (∃ e, e ∈ entities ∧ truthy (obj_get "id" e) = false) →
  is_fulfilled (update_each primaryKey entityToRow rowToEntity now entities acc t).1
  = false.
Proof.
  revert acc t. induction entities as [|e entities IH]; intros acc t (e0 & Hin & Hid).
  - by apply not_elem_of_nil in Hin.
  - simpl. destruct (truthy (obj_get "id" e)) eqn:He; simpl; [|done].
    unfold mbind, Async_bind, and_then, await.
    destruct (update _ _ _ _ _ _ t) as [[u|err] t1]; [|done].
    apply IH. exists e0. split; [|done].
    apply elem_of_cons in Hin as [-> | Hin]; [congruence | done].
Qed.

(** X8: [updateMany] needs ids.  Started outside a transaction, a rejected
    [updateMany] leaves the connection as it was; it is rejected whenever
    one of the entities has a falsy [id], and with the error of line 261
    when the first entity has. *)
Theorem updateMany_requires_ids primaryKey entityToRow rowToEntity now
    entities c :
  conn_begun c = None →
  (∀ x c', updateMany primaryKey entityToRow rowToEntity now entities c
           = (Rejected x, c') → c' = c)
  ∧ ((∃ e, e ∈ entities ∧ truthy (obj_get "id" e) = false) →
     ∃ x, updateMany primaryKey entityToRow rowToEntity now entities c
          = (Rejected x, c))
  ∧ (∀ e rest, entities = e :: rest → truthy (obj_get "id" e) = false →
     updateMany primaryKey entityToRow rowToEntity now entities c
     = (Rejected EntityIdRequired, c)).
Proof.
  intros Hc. unfold updateMany. rewrite transaction_on_table by done.
  split_and!.
  - intros x c'. destruct (update_each _ _ _ _ _ _ _) as [[u|x'] t']; congruence.
  - intros Hex.
    pose proof (update_each_rejects primaryKey entityToRow rowToEntity now entities [] (conn_table c) Hex) as Hrej.
    destruct (update_each _ _ _ _ _ _ _) as [[u|x'] t']; [done|]. by exists x'.
  - intros e rest -> He. simpl. by rewrite He.
Qed.

Lemma existsb_false_iff {A} (p : A → bool) (l : list A) :
  existsb p l = false ↔ ∀ x, x ∈ l → p x = false.
Proof.
  induction l as [|y l IH]; simpl.
  - split; [intros _ x Hx; by apply not_elem_of_nil in Hx | done].
  - rewrite orb_false_iff, IH. split.
    + intros [Hy Hl] x [->|Hx]%elem_of_cons; auto.
    + intros Hall. split; [apply Hall; left | intros x Hx; apply Hall; by right].
Qed.

(** X9: [deleteMany].  For no ids [deleteMany] returns 0 and touches
    nothing; otherwise, outside a transaction and on a table that has the
    key column, it returns the number of rows whose key is among the ids,
    the table keeps exactly the other rows, and [findById] then finds none
    of the ids. *)
Theorem deleteMany_spec primaryKey rowToEntity now ids c :
  deleteMany primaryKey [] c = (Fulfilled 0, c)
  ∧ (conn_begun c = None → ids ≠ [] →
     known_columns (conn_table c) [primaryKey] = true →
     ∃ t',
       deleteMany primaryKey ids c
       = (Fulfilled
            (Z.of_nat (length (filter
               (λ rr : Z * obj,
                  existsb (λ id, sql_eq (obj_get primaryKey rr.2) (sql_bind id)) ids)
               (tbl_rows (conn_table c))))),
          Connection t' None)
       ∧ (∀ rr, rr ∈ tbl_rows t'
                ↔ rr ∈ tbl_rows (conn_table c)
                  ∧ ∀ id, id ∈ ids →
                          sql_eq (obj_get primaryKey rr.2) (sql_bind id) = false)
       ∧ ∀ id, id ∈ ids →
               findById primaryKey rowToEntity now id t' = (Ok None, t')).
Proof.
  split; [done|]. intros Hc Hne Hk. unfold deleteMany.
  rewrite decide_False by (by destruct ids).
  rewrite transaction_on_table by done.
  unfold await, db_delete_in. rewrite Hk. cbn [negb].
  eexists. split; [reflexivity|].
  assert (Hrows : ∀ rr, rr ∈ tbl_rows (Table (tbl_columns (conn_table c))
                   (tbl_rowid_alias (conn_table c))
                   (filter (λ rr : Z * obj,
                      ¬ existsb (λ id, sql_eq (obj_get primaryKey rr.2) (sql_bind id)) ids)
                      (tbl_rows (conn_table c))))
                ↔ rr ∈ tbl_rows (conn_table c)
                  ∧ ∀ id, id ∈ ids →
                          sql_eq (obj_get primaryKey rr.2) (sql_bind id) = false).
  { intros rr. cbn [tbl_rows]. rewrite list_elem_of_filter.
    rewrite <- existsb_false_iff. destruct (existsb _ ids); naive_solver. }
  split; [exact Hrows|].
  intros id Hid. apply findById_missing; [done|].
  intros rr Hrr. apply Hrows in Hrr as [_ Hall]. by apply Hall.
Qed.

End TransactionFacts.

(** *** On the example stores *)


Lemma transaction_nested_witness :
  transaction (on_table (await (delete "id" (VNum 1))))
    (Connection ex_more_notes (Some ex_notes))
  = (Rejected (Raised (SqlError "cannot start a transaction within a transaction")),
     Connection ex_notes None).
Proof.
  exact (transaction_nested _ (Connection ex_more_notes (Some ex_notes)) ex_notes
           eq_refl).
Defined.

Lemma createMany_all_or_nothing_witness :
  createMany Base_entityToRow 0 [ex_note "second"; ex_note "third"]
    (Connection ex_notes None)
  = (Fulfilled [[("title", VStr "second"); ("id", VNum 2)];
                [("title", VStr "third"); ("id", VNum 3)]],
     Connection ex_more_notes None)
  ∧ ∃ ids added,
      length ids = 2%nat
      ∧ tbl_rows ex_more_notes = tbl_rows ex_notes ++ added
      ∧ added.*1 = ids ∧ NoDup ids.
Proof.
  assert (Hrun : createMany Base_entityToRow 0 [ex_note "second"; ex_note "third"]
                   (Connection ex_notes None)
                 = (Fulfilled [[("title", VStr "second"); ("id", VNum 2)];
                               [("title", VStr "third"); ("id", VNum 3)]],
                    Connection ex_more_notes None)) by reflexivity.
  split; [exact Hrun|].
  pose proof (createMany_all_or_nothing Base_entityToRow 0
                [ex_note "second"; ex_note "third"] (Connection ex_notes None)
                eq_refl) as Hall.
  rewrite Hrun in Hall.
  destruct Hall as (_ & ids & added & _ & Hlen & Hrows & Hids & Hnd & _).
  exists ids, added. split_and!; [exact Hlen | exact Hrows | exact Hids | exact Hnd].
Defined.

Lemma updateMany_requires_ids_witness :
  updateMany "id" Base_entityToRow Base_rowToEntity 0
    [[("id", VNum 1); ("title", VStr "renamed")]; ex_note "without id"]
    (Connection ex_notes None)
  = (Rejected EntityIdRequired, Connection ex_notes None)
  ∧ ∃ x, updateMany "id" Base_entityToRow Base_rowToEntity 0
           [[("id", VNum 1); ("title", VStr "renamed")]; ex_note "without id"]
           (Connection ex_notes None)
         = (Rejected x, Connection ex_notes None).
Proof.
  split; [reflexivity|].
  apply (proj1 (proj2 (updateMany_requires_ids "id" Base_entityToRow
                         Base_rowToEntity 0 _ (Connection ex_notes None) eq_refl))).
  exists (ex_note "without id"). split; [|reflexivity]. right. left.
Defined.

Lemma deleteMany_spec_witness :
  ∃ t', deleteMany "id" [VNum 1; VNum 5] (Connection ex_more_notes None)
        = (Fulfilled 1, Connection t' None)
        ∧ findById "id" Base_rowToEntity 0 (VNum 1) t' = (Ok None, t').
Proof.
  destruct (proj2 (deleteMany_spec "id" Base_rowToEntity 0 [VNum 1; VNum 5]
                     (Connection ex_more_notes None)) eq_refl)
    as (t' & Hdel & _ & Hgone); [discriminate | reflexivity |].
  exists t'. split; [exact Hdel|]. apply Hgone. left.
Defined.

(** ** Updates *)

Section UpdateFacts.
Context `{E : JsEnv}.

Lemma obj_keys_zip_fmap (cols : list string) (g : string → value) :
  Object_keys (zip cols (g <$> cols)) = cols.
Proof.
  unfold Object_keys. induction cols as [|c cols IH]; simpl; [done|]. by f_equal.
Qed.

Lemma obj_get_zip_fmap c (cols : list string) (g : string → value) :
  c ∈ cols → obj_get c (zip cols (g <$> cols)) = g c.
Proof. intros Hc. unfold obj_get. by rewrite obj_lookup_zip_fmap. Qed.

(** What UPDATE leaves in the table. *)
Lemma db_update_rows columns (g : string → value) pk id t rr' :
  NoDup columns →
  pk ∉ columns →
  known_columns t (columns ++ [pk]) = true →
  rr' ∈ tbl_rows (db_update columns (g <$> columns) pk id t).2 →
  if sql_eq (obj_get pk rr'.2) (sql_bind id)
  then (∀ c, c ∈ columns → obj_get c rr'.2 = sql_bind (g c))
       ∧ ∃ rr, rr ∈ tbl_rows t ∧ rr'.1 = rr.1
               ∧ ∀ c, c ∉ columns → obj_get c rr'.2 = obj_get c rr.2
  else rr' ∈ tbl_rows t.
Proof.
  intros Hnd Hpk Hk. unfold db_update. rewrite Hk. cbn [negb snd tbl_rows].
  intros Hin. apply list_elem_of_fmap in Hin as (rr & -> & Hrr).
  rewrite <- list_fmap_compose.
  set (given := zip columns ((sql_bind ∘ g) <$> columns)).
  assert (Hkeys : Object_keys given = columns) by apply obj_keys_zip_fmap.
  destruct (sql_eq (obj_get pk rr.2) (sql_bind id)) eqn:Hhit; cbn [fst snd].
  - rewrite obj_get_spread_absent by (by rewrite Hkeys). rewrite Hhit.
    split.
    + intros c Hc. rewrite obj_get_spread_present by (by rewrite Hkeys).
      by apply obj_get_zip_fmap.
    + exists rr. split_and!; [done | done |].
      intros c Hc. apply obj_get_spread_absent. by rewrite Hkeys.
  - by rewrite Hhit.
Qed.

Lemma db_update_same_rowids columns values pk id t :
  (tbl_rows (db_update columns values pk id t).2).*1 = (tbl_rows t).*1.
Proof.
  unfold db_update. destruct (negb _); [done|]. cbn [snd tbl_rows].
  rewrite <- list_fmap_compose. apply list_fmap_ext. intros i rr _. simpl.
  by destruct (sql_eq _ _).
Qed.

Lemma update_conversion_fails primaryKey entityToRow rowToEntity now id (entity : obj) e t :
  entityToRow now entity = Throw e →
  update primaryKey entityToRow rowToEntity now id entity t = (Throw e, t).
Proof.
  intros Hrow. unfold update, mbind, M_bind, bind, lift. by rewrite Hrow.
Qed.

Lemma update_writes primaryKey entityToRow rowToEntity now id (entity row : obj) t :
  entityToRow now entity = Ok row →
  let columns :=
    filter (λ key, key ≠ "id" ∧ obj_get key row ≠ VUndef) (Object_keys row) in
  columns ≠ [] →
  let t' := (db_update columns ((λ c, obj_get c row) <$> columns)
               primaryKey id t).2 in
  known_columns t (columns ++ [primaryKey]) = true →
  update primaryKey entityToRow rowToEntity now id entity t
  = (match (findById primaryKey rowToEntity now id t').1 with
     | Ok (Some e) => Ok (Some e)
     | Ok None => Throw (PostUpdateFetchFailed id)
     | Throw x => Throw x
     end, t').
Proof.
  intros Hrow columns Hne t' Hk.
  unfold update, mbind, M_bind, bind, lift. rewrite Hrow. fold columns.
  rewrite decide_False by (by destruct columns).
  pose proof (findById_state primaryKey rowToEntity now id t') as Hst.
  unfold t' in *. unfold db_update in *. rewrite Hk in *. cbn [negb snd] in *.
  destruct (findById _ _ _ _ _) as [[[e|]|x] t'']; simpl in *; by subst.
Qed.

Lemma update_unknown_column primaryKey entityToRow rowToEntity now id (entity row : obj) t :
  entityToRow now entity = Ok row →
  let columns :=
    filter (λ key, key ≠ "id" ∧ obj_get key row ≠ VUndef) (Object_keys row) in
  columns ≠ [] →
  known_columns t (columns ++ [primaryKey]) = false →
  update primaryKey entityToRow rowToEntity now id entity t
  = (Throw (SqlError "no such column"), t).
Proof.
  intros Hrow columns Hne Hk.
  unfold update, mbind, M_bind, bind, lift. rewrite Hrow. fold columns.
  rewrite decide_False by (by destruct columns).
  unfold db_update. by rewrite Hk.
Qed.

Lemma findById_Some_inv primaryKey rowToEntity now id t e t' :
  findById primaryKey rowToEntity now id t = (Ok (Some e), t') →
  ∃ rr, rr ∈ tbl_rows t
        ∧ sql_eq (obj_get primaryKey rr.2) (sql_bind id) = true
        ∧ rowToEntity now rr.2 = Ok e.
Proof.
  unfold findById, mbind, M_bind, bind, db_get, mbind, M_bind, bind, db_all.
  destruct (negb _); [done|]. cbn [apply_order apply_limit ret].
  destruct (filter _ _) as [|r rows] eqn:Hf; cbn [head]; [done|].
  unfold lift. destruct (rowToEntity now r) as [e'|] eqn:Hr; [|done].
  intros [= <- <-].
  assert (Hin : r ∈ filter (λ r, row_matches [(primaryKey, id)] r) (tbl_rows t).*2).
  { rewrite Hf. left. }
  apply list_elem_of_filter in Hin as [Hm Hin].
  apply list_elem_of_fmap in Hin as (rr & -> & Hrr). exists rr.
  split_and!; [done | | done].
  unfold row_matches in Hm. cbn [forallb fst snd] in Hm.
  apply andb_prop_elim in Hm as [Hm _]. by apply Is_true_true.
Qed.

(** X10: [update] writes the defined columns.  When the patch converts to
    a row with distinct keys and at least one defined column besides [id],
    all of them columns of the table and none of them the key column,
    [update] changes no rowid, gives the rows with the requested key the
    converted value in each defined column and leaves their other columns
    and all other rows alone; what it returns is the stored row with that
    key, read back, and never the absent entity. *)
Theorem update_writes_defined_columns primaryKey entityToRow rowToEntity now id
    (entity row : obj) t :
  entityToRow now entity = Ok row →
  NoDup (Object_keys row) →
  let columns :=
    filter (λ key, key ≠ "id" ∧ obj_get key row ≠ VUndef) (Object_keys row) in
  columns ≠ [] →
  primaryKey ∉ columns →
  known_columns t (columns ++ [primaryKey]) = true →
  let result := update primaryKey entityToRow rowToEntity now id entity t in
  (tbl_rows result.2).*1 = (tbl_rows t).*1
  ∧ (∀ rr', rr' ∈ tbl_rows result.2 →
       if sql_eq (obj_get primaryKey rr'.2) (sql_bind id)
       then (∀ c, c ∈ columns → obj_get c rr'.2 = sql_bind (obj_get c row))
            ∧ ∃ rr, rr ∈ tbl_rows t ∧ rr'.1 = rr.1
                    ∧ ∀ c, c ∉ columns → obj_get c rr'.2 = obj_get c rr.2
       else rr' ∈ tbl_rows t)
  ∧ (∀ e, result.1 = Ok (Some e) →
       ∃ rr', rr' ∈ tbl_rows result.2
              ∧ sql_eq (obj_get primaryKey rr'.2) (sql_bind id) = true
              ∧ rowToEntity now rr'.2 = Ok e)
  ∧ result.1 ≠ Ok None.
Proof.
  intros Hrow Hnd columns Hne Hpk Hk result. unfold result.
  rewrite (update_writes primaryKey entityToRow rowToEntity now id entity row t Hrow Hne Hk). fold columns.
  cbn [fst snd].
  assert (Hndc : NoDup columns) by (by apply NoDup_filter).
  split_and!.
  - apply db_update_same_rowids.
  - intros rr' Hrr'. by apply db_update_rows.
  - intros e He.
    destruct (findById _ _ _ _ _) as [[[e'|]|x] t''] eqn:Hfind; simpl in He; try done.
    injection He as ->. by apply findById_Some_inv in Hfind.
  - by destruct (findById _ _ _ _ _) as [[[e'|]|x] t''].
Qed.

End UpdateFacts.

(** ** Partial updates through the entity repositories *)

Section PartialUpdateFacts.
Context `{E : JsEnv}.

(** Reading a key of [{...o, k1: v1, ..., kn: vn}]. *)
Ltac read_literal :=
  unfold obj_spread; cbn [foldl fst snd];
  repeat first [ rewrite obj_get_set_eq
               | rewrite obj_get_set_ne by (clear; discriminate) ].

Lemma elem_of_update_columns (row : obj) c :
  c ∈ Object_keys row → c ≠ "id" → obj_get c row ≠ VUndef →
  c ∈ filter (λ key, key ≠ "id" ∧ obj_get key row ≠ VUndef) (Object_keys row).
Proof. intros. by apply list_elem_of_filter. Qed.

Lemma id_not_update_column (row : obj) :
  "id" ∉ filter (λ key, key ≠ "id" ∧ obj_get key row ≠ VUndef) (Object_keys row).
Proof. intros Hin. apply list_elem_of_filter in Hin as [[Hne _] _]. done. Qed.

(** The row that the task repository makes of a patch: whatever the patch
    holds, the four converted columns are defined. *)
Lemma Task_patch_row now (patch row : obj) :
  Task_entityToRow now patch = Ok row →
  let columns :=
    filter (λ key, key ≠ "id" ∧ obj_get key row ≠ VUndef) (Object_keys row) in
  ("updatedAt" ∈ columns ∧ obj_get "updatedAt" row = VStr (toISOString now))
  ∧ (truthy (obj_get "dueDate" patch) = false →
     "dueDate" ∈ columns ∧ obj_get "dueDate" row = VNull)
  ∧ (truthy (obj_get "metadata" patch) = false →
     "metadata" ∈ columns ∧ obj_get "metadata" row = VNull)
  ∧ (truthy (obj_get "createdAt" patch) = false →
     "createdAt" ∈ columns ∧ obj_get "createdAt" row = VStr (toISOString now)).
Proof.
  intros Hrow columns.
  destruct (Task_entityToRow_fields _ _ _ Hrow) as (Heq & Hmd & Hdd & Hca).
  assert (Hkeys : ∀ c, c ∈ ["metadata"; "dueDate"; "createdAt"; "updatedAt"] →
                       c ∈ Object_keys row).
  { intros c Hc. rewrite Heq. apply obj_keys_spread. right.
    unfold Object_keys. simpl. exact Hc. }
  assert (Hup : obj_get "updatedAt" row = VStr (toISOString now)).
  { rewrite Heq. by read_literal. }
  split_and!.
  - apply elem_of_update_columns; [|done|by rewrite Hup].
    apply Hkeys. set_solver.
  - done.
  - intros Hf. rewrite Hf in Hdd. injection Hdd as Hdd.
    split; [|done]. apply elem_of_update_columns; [|done|by rewrite <- Hdd].
    apply Hkeys. set_solver.
  - intros Hf. rewrite Hf in Hmd.
    split; [|done]. apply elem_of_update_columns; [|done|by rewrite Hmd].
    apply Hkeys. set_solver.
  - intros Hf. rewrite Hf in Hca. injection Hca as Hca.
    split; [|done]. apply elem_of_update_columns; [|done|by rewrite <- Hca].
    apply Hkeys. set_solver.
Qed.

Lemma Task_entityToRow_NoDup now (patch row : obj) :
  NoDup (Object_keys patch) → Task_entityToRow now patch = Ok row →
  NoDup (Object_keys row).
Proof.
  intros Hnd Hrow.
  destruct (Task_entityToRow_fields _ _ _ Hrow) as (Heq & _).
  rewrite Heq. by apply obj_spread_NoDup.
Qed.

(** A fulfilled [TaskRepository.update]: what it stored and what it read
    back. *)
Lemma TaskRepository_update_Ok now id (patch : obj) t task' t' :
  NoDup (Object_keys patch) →
  TaskRepository_update now id patch t = (Ok (Some task'), t') →
  ∃ row,
    Task_entityToRow now patch = Ok row
    ∧ (∃ rr', rr' ∈ tbl_rows t'
              ∧ sql_eq (obj_get "id" rr'.2) (sql_bind id) = true
              ∧ Task_rowToEntity now rr'.2 = Ok task')
    ∧ ∀ rr', rr' ∈ tbl_rows t' →
             sql_eq (obj_get "id" rr'.2) (sql_bind id) = true →
             ∀ c, c ∈ filter (λ key, key ≠ "id" ∧ obj_get key row ≠ VUndef)
                             (Object_keys row) →
                  obj_get c rr'.2 = sql_bind (obj_get c row).
Proof.
  intros Hnd. unfold TaskRepository_update.
  destruct (Task_entityToRow now patch) as [row|e] eqn:Hrow.
  2:{ by rewrite (update_conversion_fails "id" _ _ now id patch e t Hrow). }
  pose proof (Task_patch_row now patch row Hrow) as [[Hup _] _].
  set (columns := filter _ (Object_keys row)) in *.
  assert (Hne : columns ≠ []) by (intros Hnil; rewrite Hnil in Hup; set_solver).
  destruct (known_columns t (columns ++ ["id"])) eqn:Hk.
  2:{ by rewrite (update_unknown_column "id" _ _ now id patch row t Hrow Hne Hk). }
  rewrite (update_writes "id" _ _ now id patch row t Hrow Hne Hk). fold columns.
  destruct (findById _ _ _ _ _) as [[[e|]|x] t''] eqn:Hfind; cbn [fst]; try done.
  intros [= <- <-]. exists row. split_and!; [done | |].
  - by apply findById_Some_inv in Hfind.
  - intros rr' Hrr' Hhit c Hc.
    pose proof (db_update_rows columns (λ c, obj_get c row) "id" id t rr') as Hrows.
    rewrite Hhit in Hrows. apply Hrows; try done.
    + apply NoDup_filter. by eapply Task_entityToRow_NoDup.
    + apply id_not_update_column.
Qed.

Lemma Task_rowToEntity_dueDate now (row task : obj) :
  Task_rowToEntity now row = Ok task →
  obj_get "dueDate" task
  = (if truthy (obj_get "dueDate" row) then new_Date (obj_get "dueDate" row)
     else VUndef)
  ∧ (truthy (obj_get "metadata" row) = false →
     obj_get "metadata" task = VObj J_empty_object).
Proof.
  unfold Task_rowToEntity. cbv zeta.
  change (obj_get "metadata" (Task_defaults now)) with (VObj J_empty_object).
  destruct (truthy (obj_get "metadata" row)) eqn:Hm.
  - destruct (JSON_parse_value _) as [md|]; [|done].
    cbn [mbind outcome_mbind outcome_bind]. intros [= <-]. by read_literal.
  - cbn [mbind outcome_mbind outcome_bind]. intros [= <-]. by read_literal.
Qed.

(** A fulfilled [updateTask] whose patch names no due date, no metadata and
    no creation time. *)
Lemma updateTask_erases now taskId (updates : obj) t task' t' :
  NoDup (Object_keys updates) →
  truthy (obj_get "dueDate" updates) = false →
  truthy (obj_get "metadata" updates) = false →
  truthy (obj_get "createdAt" updates) = false →
  updateTask now taskId updates t = (Ok (Some task'), t') →
  obj_get "dueDate" task' = VUndef
  ∧ obj_get "metadata" task' = VObj J_empty_object
  ∧ ∀ rr, rr ∈ tbl_rows t' →
          sql_eq (obj_get "id" rr.2) (sql_bind taskId) = true →
          obj_get "dueDate" rr.2 = VNull
          ∧ obj_get "metadata" rr.2 = VNull
          ∧ obj_get "createdAt" rr.2 = VStr (toISOString now)
          ∧ obj_get "updatedAt" rr.2 = VStr (toISOString now).
Proof.
  intros Hnd Hdd Hmd Hca. unfold updateTask, mbind, M_bind, bind.
  pose proof (findById_state "id" Task_rowToEntity now taskId t) as Hst.
  fold TaskRepository_findById in *.
  destruct (TaskRepository_findById now taskId t) as [[[existing|]|e] t0];
    simpl in Hst; subst t0; try done.
  case_match; [done|].
  set (patch := obj_spread updates [("updatedAt", VDate now)]).
  assert (Hndp : NoDup (Object_keys patch)) by (by apply obj_spread_NoDup).
  assert (Hget : ∀ k, k ≠ "updatedAt" → obj_get k patch = obj_get k updates).
  { intros k Hk. unfold patch, obj_spread. simpl. by apply obj_get_set_ne. }
  intros Hupd.
  apply (TaskRepository_update_Ok now taskId patch t task' t' Hndp) in Hupd
    as (row & Hrow & (rr' & Hrr' & Hhit' & Hback) & Hstored).
  destruct (Task_patch_row now patch row Hrow) as ([Hcu Hu] & Hd & Hm & Hc).
  rewrite !Hget in Hd, Hm, Hc by done.
  destruct (Hd Hdd) as [Hcd Hvd]. destruct (Hm Hmd) as [Hcm Hvm].
  destruct (Hc Hca) as [Hcc Hvc].
  assert (Hrows : ∀ rr, rr ∈ tbl_rows t' →
            sql_eq (obj_get "id" rr.2) (sql_bind taskId) = true →
            obj_get "dueDate" rr.2 = VNull
            ∧ obj_get "metadata" rr.2 = VNull
            ∧ obj_get "createdAt" rr.2 = VStr (toISOString now)
            ∧ obj_get "updatedAt" rr.2 = VStr (toISOString now)).
  { intros rr Hrr Hhit.
    rewrite !(Hstored rr Hrr Hhit) by done. by rewrite Hvd, Hvm, Hvc, Hu. }
  destruct (Hrows rr' Hrr' Hhit') as (Hd' & Hm' & _).
  destruct (Task_rowToEntity_dueDate now rr'.2 task' Hback) as [Hdue Hmeta].
  rewrite Hd' in Hdue. rewrite Hm' in Hmeta. split_and!; [done | by apply Hmeta | done].
Qed.

(** X11: the service's partial updates erase what they do not name.
    When [assignTask], [updatePriority] or [updateStatus] is fulfilled, the
    stored task has lost its due date and its metadata (both columns are
    NULL afterwards) and its [createdAt] is the time of the call; the task
    returned has no [dueDate] and the empty object as [metadata]. *)
Theorem service_updates_erase_unnamed_fields now taskId v t op task' t' :
  op ∈ [assignTask now taskId v; updatePriority now taskId v;
        updateStatus now taskId v] →
  op t = (Ok (Some task'), t') →
  obj_get "dueDate" task' = VUndef
  ∧ obj_get "metadata" task' = VObj J_empty_object
  ∧ ∀ rr, rr ∈ tbl_rows t' →
          sql_eq (obj_get "id" rr.2) (sql_bind taskId) = true →
          obj_get "dueDate" rr.2 = VNull
          ∧ obj_get "metadata" rr.2 = VNull
          ∧ obj_get "createdAt" rr.2 = VStr (toISOString now)
          ∧ obj_get "updatedAt" rr.2 = VStr (toISOString now).
Proof.
  assert (Hone : ∀ k, NoDup (Object_keys [(k, v)])).
  { intros k. apply NoDup_singleton. }
  rewrite !elem_of_cons, elem_of_nil.
  intros [-> | [-> | [-> | []]]].
  - apply updateTask_erases; [apply Hone | done..].
  - apply updateTask_erases; [apply Hone | done..].
  - unfold updateStatus, mbind, M_bind, bind.
    pose proof (findById_state "id" Task_rowToEntity now taskId t) as Hst.
    unfold getTask, mbind, M_bind, bind. fold TaskRepository_findById in *.
    destruct (TaskRepository_findById now taskId t) as [[[task|]|e] t0];
      simpl in Hst; subst t0; try done.
    unfold mret, M_ret, ret, lift.
    destruct (validateStatusTransition _ _); [|done].
    apply updateTask_erases; [apply Hone | done..].
Qed.

End PartialUpdateFacts.

(** *** On the example stores *)

Lemma update_writes_defined_columns_witness :
  (tbl_rows (TaskRepository_update 2000 (VStr "task-1") [("title", VStr "renamed")]
               ex_two_tasks).2).*1 = [1; 2]
  ∧ ∃ e, (TaskRepository_update 2000 (VStr "task-1") [("title", VStr "renamed")]
            ex_two_tasks).1 = Ok (Some e)
         ∧ obj_get "title" e = VStr "renamed".
Proof.
  destruct (update_writes_defined_columns "id" Task_entityToRow Task_rowToEntity
              2000 (VStr "task-1") [("title", VStr "renamed")] _ ex_two_tasks
              eq_refl)
    as (Hids & _ & _ & _).
  - apply (bool_decide_unpack _). reflexivity.
  - discriminate.
  - apply id_not_update_column.
  - reflexivity.
  - split; [exact Hids|]. eexists. split; reflexivity.
Defined.

Lemma service_updates_erase_unnamed_fields_witness :
  obj_get "dueDate" (ex_task_row "task-1" "write docs" "CREATED" (VStr "T9000"))
  = VStr "T9000"
  ∧ assignTask 2000 (VStr "task-1") (VStr "alice") ex_planned_tasks
    = (Ok (Some ex_assigned_task), ex_assigned_tasks)
  ∧ obj_get "dueDate" ex_assigned_task = VUndef
  ∧ obj_get "metadata" ex_assigned_task = VObj J_empty_object.
Proof.
  assert (Hrun : assignTask 2000 (VStr "task-1") (VStr "alice") ex_planned_tasks
                 = (Ok (Some ex_assigned_task), ex_assigned_tasks)) by reflexivity.
  destruct (service_updates_erase_unnamed_fields 2000 (VStr "task-1") (VStr "alice")
              ex_planned_tasks _ ex_assigned_task ex_assigned_tasks
              (list_elem_of_here _ _) Hrun) as (Hdue & Hmeta & _).
  split_and!; [reflexivity | exact Hrun | exact Hdue | exact Hmeta].
Defined.

(** ** Patches that the conversions reject *)

Section ConversionFacts.
Context `{E : JsEnv} `{!JsOperators}.

Lemma call_toISOString_not_date v :
  (∀ d, v ≠ VDate d) →
  call_toISOString v = Throw (RangeOrTypeError "toISOString is not a function").
Proof. intros Hv. destruct v; try done. by destruct (Hv t). Qed.

(** X12: updates that need a date.  [update] of the memory and of the
    notification repository throws at the [toISOString] call, before any
    statement, for every patch without a [timestamp] date; [update] of the
    time-entry repository does for every patch without a [startTime]
    date. *)
Theorem update_needs_mandatory_date now id (patch : obj) t rowToEntity :
  ((∀ d, obj_get "timestamp" patch ≠ VDate d) →
   update "id" Memory_entityToRow rowToEntity now id patch t
   = (Throw (RangeOrTypeError "toISOString is not a function"), t)
   ∧ update "id" Notification_entityToRow rowToEntity now id patch t
     = (Throw (RangeOrTypeError "toISOString is not a function"), t))
  ∧ ((∀ d, obj_get "startTime" patch ≠ VDate d) →
     update "id" TimeEntry_entityToRow rowToEntity now id patch t
     = (Throw (RangeOrTypeError "toISOString is not a function"), t)).
Proof.
  split.
  - intros Hts. split; apply update_conversion_fails.
    + unfold Memory_entityToRow.
      rewrite (call_toISOString_not_date (obj_get "timestamp" patch)) by done.
      reflexivity.
    + unfold Notification_entityToRow.
      rewrite (call_toISOString_not_date (obj_get "timestamp" patch)) by done.
      reflexivity.
  - intros Hst. apply update_conversion_fails.
    unfold TimeEntry_entityToRow.
    rewrite (call_toISOString_not_date (obj_get "startTime" patch)) by done.
    reflexivity.
Qed.

(** X13: [recordAccess] never succeeds.  [recordAccess] leaves the table
    as it was and is always rejected: with the error of line 378 when the
    memory does not exist, and otherwise at the [toISOString] call of
    [entityToRow], because its patch carries no [timestamp]. *)
Theorem recordAccess_never_fulfils now id t :
  (recordAccess now id t).2 = t
  ∧ ∃ x, (recordAccess now id t).1 = Rejected x
         ∧ (MemoryRepository_findById now id t = (Ok None, t) →
            x = MemoryNotFound id)
         ∧ (∀ memory, MemoryRepository_findById now id t = (Ok (Some memory), t) →
            x = Raised (RangeOrTypeError "toISOString is not a function")).
Proof.
  unfold recordAccess, mbind, Async_bind, and_then, await.
  pose proof (findById_state "id" Memory_rowToEntity now id t) as Hst.
  fold MemoryRepository_findById in Hst.
  destruct (MemoryRepository_findById now id t) as [[[memory|]|e] t0];
    simpl in Hst; subst t0.
  - unfold MemoryRepository_update.
    rewrite (update_conversion_fails "id" Memory_entityToRow Memory_rowToEntity
               now id _ (RangeOrTypeError "toISOString is not a function")).
    + split; [done|]. eexists. split_and!; [done | done |]. done.
    + reflexivity.
  - split; [done|]. eexists. split_and!; [done | done | done].
  - split; [done|]. eexists. split_and!; [done | done | done].
Qed.

End ConversionFacts.

(** ** Creating and deleting tasks *)

Section TaskLifecycleFacts.
Context `{E : JsEnv}.




Lemma delete_Ok_inv pk id t b t' :
  delete pk id t = (Ok b, t') →
  known_columns t' [pk] = true ∧ no_row_with pk id t'
  ∧ ∀ rr, rr ∈ tbl_rows t'
          ↔ rr ∈ tbl_rows t ∧ sql_eq (obj_get pk rr.2) (sql_bind id) = false.
Proof.
  unfold delete, mbind, M_bind, bind, mret, M_ret, ret, db_delete.
  destruct (known_columns t [pk]) eqn:Hk; simpl; [|done].
  intros [= <- <-]. split; [done|].
  assert (Hrows : ∀ rr : Z * obj,
            rr ∈ filter (λ rr : Z * obj, ¬ sql_eq (obj_get pk rr.2) (sql_bind id))
                        (tbl_rows t)
            ↔ rr ∈ tbl_rows t ∧ sql_eq (obj_get pk rr.2) (sql_bind id) = false).
  { intros rr. rewrite list_elem_of_filter. destruct (sql_eq _ _); naive_solver. }
  split; [|exact Hrows].
  intros rr Hrr. simpl in Hrr. by apply Hrows in Hrr as [_ ?].
Qed.

(** X15: [deleteTask], then [getTask].  When [deleteTask(id)] returns,
    the task existed and its rows are gone while all others stay, and
    [getTask(id)] and a second [deleteTask(id)] throw the not-found error;
    when it throws, the table is unchanged. *)
Theorem deleteTask_then_getTask now now' id t :
  match deleteTask now id t with
  | (Ok _, t') =>
      getTask now' id t' = (Throw (TaskNotFound id), t')
      ∧ deleteTask now' id t' = (Throw (TaskNotFound id), t')
      ∧ (∃ rr, rr ∈ tbl_rows t
               ∧ sql_eq (obj_get "id" rr.2) (sql_bind id) = true)
      ∧ ∀ rr, rr ∈ tbl_rows t'
              ↔ rr ∈ tbl_rows t
                ∧ sql_eq (obj_get "id" rr.2) (sql_bind id) = false
  | (Throw _, t') => t' = t
  end.
Proof.
  unfold deleteTask at 1. unfold mbind, M_bind, bind.
  pose proof (findById_state "id" Task_rowToEntity now id t) as Hst.
  destruct (TaskRepository_findById now id t) as [[[existing|]|e] t0] eqn:Hfind;
    unfold TaskRepository_findById in Hfind; rewrite Hfind in Hst;
    simpl in Hst; subst t0; try done.
  unfold TaskRepository_delete.
  destruct (delete "id" id t) as [[b|e] t'] eqn:Hdel.
  - apply delete_Ok_inv in Hdel as (Hk & Hno & Hrows).
    assert (Hmiss : TaskRepository_findById now' id t' = (Ok None, t')).
    { by apply findById_missing. }
    cbn [mret M_ret ret]. split_and!.
    + unfold getTask, mbind, M_bind, bind. by rewrite Hmiss.
    + unfold deleteTask, mbind, M_bind, bind. by rewrite Hmiss.
    + apply findById_Some_inv in Hfind as (rr & Hrr & Hhit & _). by exists rr.
    + done.
  - revert Hdel. unfold delete, mbind, M_bind, bind, db_delete.
    destruct (negb _); [|done]. by intros [= _ <-].
Qed.

End TaskLifecycleFacts.

(** *** On the example stores *)

Lemma update_needs_mandatory_date_witness :
  MemoryRepository_update 2000 (VStr "m1") [("accessCount", VNum 1)] ex_memories
  = (Throw (RangeOrTypeError "toISOString is not a function"), ex_memories).
Proof.
  apply (proj1 (update_needs_mandatory_date 2000 (VStr "m1")
                  [("accessCount", VNum 1)] ex_memories Memory_rowToEntity)).
  discriminate.
Defined.

Lemma recordAccess_never_fulfils_witness :
  MemoryRepository_findById 2000 (VStr "m1") ex_memories
  = (Ok (Some (ex_memory "m1" "Issue: urgent deployment" "ops")), ex_memories)
  ∧ recordAccess 2000 (VStr "m1") ex_memories
    = (Rejected (Raised (RangeOrTypeError "toISOString is not a function")),
       ex_memories).
Proof.
  assert (Hfind : MemoryRepository_findById 2000 (VStr "m1") ex_memories
                  = (Ok (Some (ex_memory "m1" "Issue: urgent deployment" "ops")),
                     ex_memories)) by reflexivity.
  split; [exact Hfind|].
  destruct (recordAccess_never_fulfils 2000 (VStr "m1") ex_memories)
    as (Ht & x & Hx & _ & Hfound).
  rewrite (surjective_pairing (recordAccess 2000 (VStr "m1") ex_memories)).
  rewrite Ht, Hx, (Hfound _ Hfind). reflexivity.
Defined.

(** ** Runs of the migration manager *)

Module MigrationRuns.
Import Migration MigrationFacts.

Section RunFacts.
Context `{ME : MigrationEnv}.

Lemma calls_up_app tr1 tr2 : calls_up (tr1 ++ tr2) = calls_up tr1 ++ calls_up tr2.
Proof. apply omap_app. Qed.

Lemma calls_down_app tr1 tr2 :
  calls_down (tr1 ++ tr2) = calls_down tr1 ++ calls_down tr2.
Proof. apply omap_app. Qed.

Lemma calls_of_logs logs :
  Forall is_log logs → calls_up logs = [] ∧ calls_down logs = [].
Proof.
  induction 1 as [|e logs He _ [IH1 IH2]]; [done|].
  destruct e; try done.
Qed.

(** The loop of [migrateUp], whatever its outcome. *)
Lemma apply_pending_run pending w res w' :
  apply_pending pending w = (res, w') →
  ∃ applied new,
    trace w' = trace w ++ new
    ∧ calls_down new = []
    ∧ records w' = records w ++ (record_of (clock w) <$> applied)
    ∧ NoDup (id <$> applied)
    ∧ (∀ m, m ∈ applied → id m ∉ rec_id <$> records w)
    ∧ clock w' = clock w
    ∧ match res with
      | Returned _ => applied = pending ∧ calls_up new = filename <$> pending
      | Thrown e =>
          ∃ m rest cause,
            pending = applied ++ m :: rest
            ∧ e = ApplyError (filename m) cause
            ∧ calls_up new = filename <$> (applied ++ [m])
      end.
Proof.
  revert w res w'. induction pending as [|m rest IH]; intros w res w'; simpl.
  - intros [= <- <-]. exists [], []. rewrite !app_nil_r.
    split_and!; try done; [constructor | set_solver].
  - destruct (up m _) as [s|s msg].
    + unfold recordMigration. case_bool_decide as Hdup.
      * intros [= <- <-].
        exists [], [Logged Info (ApplyingUnit (filename m)); CalledUp (filename m);
                    Logged Error (RecordSaveFailed (filename m));
                    Logged Error (ApplyFailed (filename m))].
        simpl. split_and!.
        -- by rewrite <- !app_assoc.
        -- done.
        -- by rewrite app_nil_r.
        -- constructor.
        -- set_solver.
        -- done.
        -- by exists m, rest, "UNIQUE constraint failed: migrations.id".
      * intros Hrest. apply IH in Hrest
          as (applied & new & Ht & Hd & Hr & Hnd & Hfresh & Hc & Hres).
        simpl in Ht, Hr, Hfresh, Hc.
        change (records (log Info (AppliedUnit (filename m)) _))
          with (records w ++ [{| rec_id := id m; rec_filename := filename m;
                                 applied_at := clock w |}]) in Hr, Hfresh.
        exists (m :: applied),
          ([Logged Info (ApplyingUnit (filename m)); CalledUp (filename m);
            Logged Info (AppliedUnit (filename m))] ++ new).
        simpl. split_and!.
        -- rewrite Ht. by rewrite <- !app_assoc.
        -- done.
        -- rewrite Hr, <- app_assoc. done.
        -- apply NoDup_cons. split; [|done].
           intros Hin. apply list_elem_of_fmap in Hin as (m' & Heq & Hm').
           apply (Hfresh m' Hm'). rewrite fmap_app, elem_of_app. right.
           simpl. rewrite <- Heq. left.
        -- intros m' [->|Hm']%elem_of_cons; [done|].
           intros Hin. apply (Hfresh m' Hm'). rewrite fmap_app, elem_of_app.
           by left.
        -- done.
        -- destruct res as [[]|e].
           ++ destruct Hres as [-> ->]. done.
           ++ destruct Hres as (m' & rest' & cause & -> & -> & ->).
              by exists m', rest', cause.
    + intros [= <- <-].
      exists [], [Logged Info (ApplyingUnit (filename m)); CalledUp (filename m);
                  Logged Error (ApplyFailed (filename m))].
      simpl. split_and!.
      * by rewrite <- !app_assoc.
      * done.
      * by rewrite app_nil_r.
      * constructor.
      * set_solver.
      * done.
      * by exists m, rest, msg.
Qed.

Lemma records_log l msg w : records (log l msg w) = records w.
Proof. done. Qed.

Lemma trace_log l msg w : trace (log l msg w) = trace w ++ [Logged l msg].
Proof. done. Qed.

Lemma calls_up_log l msg : calls_up [Logged l msg] = [].
Proof. done. Qed.

Lemma calls_down_log l msg : calls_down [Logged l msg] = [].
Proof. done. Qed.

(** The two steps that open every public operation. *)
Lemma prepare_spec w :
  let w2 := loadMigrations (initMigrationTable w) in
  records w2 = records w ∧ schema w2 = schema w ∧ clock w2 = clock w
  ∧ files w2 = files w
  ∧ migrations w2 = from_option discover (migrations w) (files w)
  ∧ ∃ logs, trace w2 = trace w ++ logs ∧ Forall is_log logs.
Proof.
  destruct (initMigrationTable_spec w) as (Hf1 & Hc1 & Hs1 & Hr1 & Hm1 & Ht1).
  destruct (loadMigrations_spec (initMigrationTable w))
    as (Hf & Hc & Hs & Hl & Hm & logs & Ht & Hlogs).
  cbv zeta. split_and!.
  - unfold records at 1. rewrite Hl. exact Hr1.
  - congruence.
  - congruence.
  - congruence.
  - by rewrite Hm, Hf1, Hm1.
  - exists logs. by rewrite Ht, Ht1.
Qed.

(** X16: [migrateUp], fulfilled.  A run of [migrateUp] that returns has
    invoked the [up] of every pending unit exactly once, in the order of
    the pending list, and no [down]; it has appended one ledger record per
    pending unit, in that order.  The pending units have pairwise distinct
    ids, none of which was in the ledger. *)
Theorem migrateUp_applies_each_pending_once w w' :
  migrateUp w = (Returned (), w') →
  let pending := getPendingMigrations (loadMigrations (initMigrationTable w)) in
  ∃ new,
    trace w' = trace w ++ new
    ∧ calls_up new = filename <$> pending
    ∧ calls_down new = []
    ∧ records w' = records w ++ (record_of (clock w) <$> pending)
    ∧ NoDup (id <$> pending)
    ∧ ∀ m, m ∈ pending → id m ∉ rec_id <$> records w.
Proof.
  intros Hup pending. revert Hup. unfold migrateUp.
  destruct (prepare_spec w) as (Hr & Hs & Hc & Hf & Hm & logs & Ht & Hlogs).
  set (w2 := loadMigrations (initMigrationTable w)) in *. fold pending.
  destruct (calls_of_logs logs Hlogs) as [Hlu Hld].
  destruct (decide (length pending = 0%nat)) as [Hnil|Hne].
  - intros [= <-]. apply length_zero_iff_nil in Hnil. rewrite Hnil.
    exists (logs ++ [Logged Info NothingToApply]).
    rewrite trace_log, Ht, <- app_assoc, calls_up_app, calls_down_app, Hlu, Hld.
    rewrite calls_up_log, calls_down_log, records_log, Hr. simpl.
    rewrite app_nil_r. split_and!; try done; [constructor | set_solver].
  - destruct (apply_pending _ _) as [[[]|e] w4] eqn:Hrun; [|done].
    intros [= <-]. apply apply_pending_run in Hrun
      as (applied & new & Ht4 & Hd4 & Hr4 & Hnd & Hfresh & Hc4 & -> & Hu4).
    rewrite records_log in Hr4, Hfresh. rewrite trace_log in Ht4.
    exists (logs ++ [Logged Info (Applying (length pending))] ++ new
                 ++ [Logged Info AllApplied]).
    rewrite trace_log, Ht4, Ht, <- !app_assoc.
    rewrite !calls_up_app, !calls_down_app, Hlu, Hld, Hu4, Hd4.
    rewrite !calls_up_log, !calls_down_log, records_log, Hr4, Hr. simpl.
    rewrite app_nil_r. change (clock (log _ _ w2)) with (clock w2).
    rewrite Hc. split_and!; try done.
    intros m Hm'. rewrite <- Hr. by apply Hfresh.
Qed.

(** X17: [migrateUp], rejected.  A run of [migrateUp] that throws has
    stopped at one pending unit [m]: it has invoked the [up] of the pending
    units up to and including [m], in order, and of none after it; the
    units before [m] are recorded in the ledger, [m] is not, and the error
    names [m]'s file. *)
Theorem migrateUp_stops_at_first_failure w e w' :
  migrateUp w = (Thrown e, w') →
  let pending := getPendingMigrations (loadMigrations (initMigrationTable w)) in
  ∃ applied m rest cause new,
    pending = applied ++ m :: rest
    ∧ e = ApplyError (filename m) cause
    ∧ trace w' = trace w ++ new
    ∧ calls_up new = filename <$> (applied ++ [m])
    ∧ calls_down new = []
    ∧ records w' = records w ++ (record_of (clock w) <$> applied).
Proof.
  intros Hup pending. revert Hup. unfold migrateUp.
  destruct (prepare_spec w) as (Hr & Hs & Hc & Hf & Hm & logs & Ht & Hlogs).
  set (w2 := loadMigrations (initMigrationTable w)) in *. fold pending.
  destruct (calls_of_logs logs Hlogs) as [Hlu Hld].
  destruct (decide (length pending = 0%nat)) as [Hnil|Hne]; [done|].
  destruct (apply_pending _ _) as [[[]|e'] w4] eqn:Hrun; [done|].
  intros [= <- <-]. apply apply_pending_run in Hrun
    as (applied & new & Ht4 & Hd4 & Hr4 & Hnd & Hfresh & Hc4
        & m & rest & cause & Hp & -> & Hu4).
  rewrite records_log in Hr4. rewrite trace_log in Ht4.
  exists applied, m, rest, cause,
    (logs ++ [Logged Info (Applying (length pending))] ++ new).
  rewrite Ht4, Ht, <- !app_assoc.
  rewrite !calls_up_app, !calls_down_app, Hlu, Hld, Hu4, Hd4.
  rewrite !calls_up_log, !calls_down_log, Hr4, Hr. simpl.
  change (clock (log _ _ w2)) with (clock w2). rewrite Hc. by split_and!.
Qed.

Lemma String_compare_Lt_trans s1 : ∀ s2 s3,
  String.compare s1 s2 = Lt → String.compare s2 s3 = Lt →
  String.compare s1 s3 = Lt.
Proof.
  induction s1 as [|a s1 IH]; intros [|b s2] [|c s3]; simpl; try congruence.
  unfold Ascii.compare.
  destruct (N.compare_spec (Ascii.N_of_ascii a) (Ascii.N_of_ascii b)) as [Hab|Hab|Hab];
    try congruence;
    destruct (N.compare_spec (Ascii.N_of_ascii b) (Ascii.N_of_ascii c)) as [Hbc|Hbc|Hbc];
    try congruence; intros H12 H23.
  - rewrite Hab, Hbc, N.compare_refl. by eapply IH.
  - rewrite Hab. by rewrite (proj2 (N.compare_lt_iff _ _) Hbc).
  - rewrite <- Hbc. by rewrite (proj2 (N.compare_lt_iff _ _) Hab).
  - by rewrite (proj2 (N.compare_lt_iff _ _) (N.lt_trans _ _ _ Hab Hbc)).
Qed.

Lemma String_compare_refl s : String.compare s s = Eq.
Proof.
  induction s as [|a s IH]; simpl; [reflexivity|].
  unfold Ascii.compare. by rewrite N.compare_refl.
Qed.

Lemma String_leb_trans s1 s2 s3 :
  String.leb s1 s2 = true → String.leb s2 s3 = true → String.leb s1 s3 = true.
Proof.
  unfold String.leb.
  destruct (String.compare s1 s2) eqn:H12; try congruence;
    destruct (String.compare s2 s3) eqn:H23; try congruence; intros _ _.
  - apply String.compare_eq_iff in H12, H23. subst.
    by rewrite String_compare_refl.
  - apply String.compare_eq_iff in H12. subst. by rewrite H23.
  - apply String.compare_eq_iff in H23. subst. by rewrite H12.
  - by rewrite (String_compare_Lt_trans _ _ _ H12 H23).
Qed.

Lemma String_leb_false s1 s2 : String.leb s1 s2 = false → String.leb s2 s1 = true.
Proof. intros H. destruct (String.leb_total s1 s2); congruence. Qed.

Lemma accepted_loaded_from (f : MigrationFile) (m : Migration) :
  (ends_with ".ts" (file_name f) || ends_with ".js" (file_name f)) = true →
  accepted f = Some m ↔ loaded_from m f.
Proof.
  intros Hext. unfold accepted, loaded_from. rewrite Hext.
  destruct m as [mid mfile mup mdown]. simpl.
  destruct (file_imports f); simpl; [|naive_solver].
  destruct (file_up f) as [u|], (file_down f) as [d|]; try naive_solver.
  destruct (String.eqb_spec (before_dash (file_name f)) EmptyString) as [Heq|Hne].
  - split; [done|]. intros (_ & _ & _ & _ & _ & -> & Hid). by rewrite Heq in Hid.
  - split.
    + intros [= <- <- <- <-]. done.
    + intros (<- & _ & _ & [= <-] & [= <-] & -> & _). done.
Qed.

(** X18: what the loader loads.  When the directory exists,
    [loadMigrations] loads exactly the files whose name ends in [.ts] or
    [.js], whose import succeeds and exports both [up] and [down], and
    whose name has a non-empty part before its first dash, which becomes
    the unit's id; with a [localeCompare] that is a total preorder the
    loaded units are sorted by id. *)
Theorem loadMigrations_loads_valid_files w dir :
  files w = Some dir →
  let ms := migrations (loadMigrations w) in
  (∀ m, m ∈ ms ↔ ∃ f, f ∈ dir ∧ loaded_from m f)
  ∧ ((∀ x y, localeCompare_le x y = false → localeCompare_le y x = true) →
     (∀ x y z, localeCompare_le x y = true → localeCompare_le y z = true →
               localeCompare_le x z = true) →
     StronglySorted (λ a b, localeCompare_le (id a) (id b) = true) ms).
Proof.
  intros Hdir ms.
  destruct (loadMigrations_spec w) as (_ & _ & _ & _ & Hm & _).
  rewrite Hdir in Hm. simpl in Hm. unfold ms. rewrite Hm. unfold discover.
  split.
  - intros m. rewrite elem_of_stable_sort, list_elem_of_omap.
    setoid_rewrite elem_of_stable_sort. setoid_rewrite list_elem_of_filter.
    split.
    + intros (f & [Hext Hf] & Hacc). exists f. split; [done|].
      apply accepted_loaded_from; [|done]. by apply Is_true_true.
    + intros (f & Hf & Hl). exists f.
      assert (Hext := proj1 (proj2 Hl)). split_and!; [by apply Is_true_true|done|].
      by apply accepted_loaded_from.
  - intros Htotal Htrans.
    apply (stable_sort_sorted (λ a b, localeCompare_le (id a) (id b))).
    + intros x y. apply Htotal.
    + intros x y z. apply Htrans.
Qed.

Lemma foldl_log_spec {A} (f : A → message) (l : list A) w :
  let w' := foldl (λ w x, log Info (f x) w) w l in
  files w' = files w ∧ clock w' = clock w ∧ schema w' = schema w
  ∧ ledger w' = ledger w ∧ migrations w' = migrations w
  ∧ trace w' = trace w ++ ((λ x, Logged Info (f x)) <$> l).
Proof.
  revert w. induction l as [|x l IH]; intros w; simpl.
  - by rewrite app_nil_r.
  - destruct (IH (log Info (f x) w)) as (H1 & H2 & H3 & H4 & H5 & H6).
    rewrite H1, H2, H3, H4, H5, H6. simpl. by rewrite <- app_assoc.
Qed.

(** X19: [status].  [status] changes neither the ledger nor the schema
    and invokes no unit: it only logs.  It reports the ledger's records,
    sorted by id, as applied and, as pending, exactly the loaded units
    whose id no record carries. *)
Theorem status_reports_without_changing w :
  let applied := (status w).1.1 in
  let pending := (status w).1.2 in
  let w' := (status w).2 in
  records w' = records w ∧ schema w' = schema w
  ∧ (∃ logs, trace w' = trace w ++ logs ∧ Forall is_log logs)
  ∧ (∀ r, r ∈ applied ↔ r ∈ records w)
  ∧ length applied = length (records w)
  ∧ StronglySorted (λ a b, String.leb (rec_id a) (rec_id b) = true) applied
  ∧ (∀ m, m ∈ pending ↔ m ∈ migrations w' ∧ id m ∉ rec_id <$> records w).
Proof.
  cbv zeta. unfold status.
  destruct (prepare_spec w) as (Hr & Hs & Hc & Hf & Hm & logs & Ht & Hlogs).
  set (w2 := loadMigrations (initMigrationTable w)) in *.
  cbv zeta.
  set (w3 := log Info (StatusApplied _) (log Info StatusHeader w2)).
  destruct (foldl_log_spec
              (λ m, StatusAppliedEntry (rec_id m) (rec_filename m) (applied_at m))
              (getAppliedMigrations w2) w3) as (A1 & A2 & A3 & A4 & A5 & A6).
  set (w4 := foldl _ w3 (getAppliedMigrations w2)) in *.
  set (w5 := log Info (StatusPending _) w4).
  destruct (foldl_log_spec (λ m, StatusPendingEntry (id m) (filename m))
              (getPendingMigrations w2) w5) as (B1 & B2 & B3 & B4 & B5 & B6).
  set (w6 := foldl _ w5 (getPendingMigrations w2)) in *.
  cbn [fst snd].
  assert (Happlied : getAppliedMigrations w2 = getAppliedMigrations w).
  { unfold getAppliedMigrations. by rewrite Hr. }
  split_and!.
  - unfold records. rewrite B4. simpl. rewrite A4. simpl.
    fold (records w2). done.
  - rewrite B3. simpl. rewrite A3. simpl. done.
  - eexists. split.
    + rewrite B6. simpl. rewrite A6. simpl. rewrite Ht, <- !app_assoc. reflexivity.
    + rewrite !Forall_app, !Forall_fmap. split_and!; try done;
        try (by repeat constructor); by apply Forall_true.
  - intros r. rewrite Happlied. apply elem_of_getAppliedMigrations.
  - rewrite Happlied. apply length_getAppliedMigrations.
  - apply (stable_sort_sorted (λ a b, String.leb (rec_id a) (rec_id b))).
    + intros x y. apply String_leb_false.
    + intros x y z. apply String_leb_trans.
  - intros m. rewrite getPendingMigrations_spec, Hr, list_elem_of_filter.
    rewrite B5. simpl. rewrite A5. simpl. naive_solver.
Qed.

Lemma insert_by_Permutation {A} (le : A → A → bool) x l :
  insert_by le x l ≡ₚ x :: l.
Proof.
  induction l as [|y l IH]; simpl; [done|].
  destruct (le x y); [done|]. rewrite IH. apply Permutation_swap.
Qed.

Lemma stable_sort_Permutation {A} (le : A → A → bool) l : stable_sort le l ≡ₚ l.
Proof.
  unfold stable_sort. induction l as [|x l IH]; simpl; [done|].
  by rewrite insert_by_Permutation, IH.
Qed.

Lemma getAppliedMigrations_prepare w :
  getAppliedMigrations (loadMigrations (initMigrationTable w))
  = getAppliedMigrations w.
Proof.
  destruct (prepare_spec w) as (Hr & _). unfold getAppliedMigrations. by rewrite Hr.
Qed.

(** The loop of [migrateDown], whatever its outcome: [undone] lists the
    units whose [down] returned, in order. *)
Lemma roll_back_run rs w res w' :
  roll_back rs w = (res, w') →
  ∃ undone new,
    trace w' = trace w ++ new
    ∧ calls_up new = []
    ∧ records w' = filter (λ r, rec_id r ∉ id <$> undone) (records w)
    ∧ (∀ m, m ∈ undone → id m ∈ rec_id <$> rs)
    ∧ match res with
      | Returned _ =>
          calls_down new = filename <$> undone
          ∧ undone
            = omap (λ r, find (λ m, String.eqb (id m) (rec_id r)) (migrations w)) rs
      | Thrown e =>
          ∃ m msg, e = RollbackError (filename m) msg
                   ∧ calls_down new = filename <$> (undone ++ [m])
      end.
Proof.
  revert w res w'. induction rs as [|r rs IH]; intros w res w'; simpl.
  - intros [= <- <-]. exists [], []. rewrite app_nil_r. split_and!; try done.
    + symmetry. apply filter_all_true. intros x _. simpl. set_solver.
    + set_solver.
  - destruct (find _ (migrations w)) as [m|] eqn:Hfind.
    + apply find_unit_Some in Hfind as [Hm Hid].
      destruct (down m _) as [s|s msg].
      * intros Hrest. apply IH in Hrest
          as (undone & new & Ht & Hu & Hr & Hids & Hres).
        exists (m :: undone),
          ([Logged Info (RollingBackUnit (filename m)); CalledDown (filename m);
            Logged Info (RolledBackUnit (filename m))] ++ new).
        split_and!.
        -- rewrite Ht. simpl. by rewrite <- !app_assoc.
        -- done.
        -- rewrite Hr. unfold records at 1. simpl. rewrite list_filter_filter.
           apply list_filter_iff. intros x. simpl. rewrite not_elem_of_cons.
           naive_solver.
        -- intros m' [->|Hm']%elem_of_cons; [rewrite Hid; left|].
           right. by apply Hids.
        -- destruct res as [[]|e].
           ++ destruct Hres as [Hd Hundone]. simpl. rewrite Hd. split; [done|].
              by rewrite Hundone.
           ++ destruct Hres as (m' & msg & -> & Hd). exists m', msg.
              split; [done|]. simpl. by rewrite Hd.
      * intros [= <- <-]. exists [],
          [Logged Info (RollingBackUnit (filename m)); CalledDown (filename m);
           Logged Error (RollbackFailed (filename m))].
        split_and!.
        -- simpl. by rewrite <- !app_assoc.
        -- done.
        -- symmetry. apply filter_all_true. intros x _. simpl. set_solver.
        -- set_solver.
        -- by exists m, msg.
    + intros Hrest. apply IH in Hrest as (undone & new & Ht & Hu & Hr & Hids & Hres).
      exists undone, ([Logged Warn (UnitFileNotFound (rec_filename r))] ++ new).
      split_and!.
      * rewrite Ht. simpl. by rewrite <- !app_assoc.
      * done.
      * done.
      * intros m' Hm'. right. by apply Hids.
      * destruct res as [[]|e]; [|done]. destruct Hres as [Hd Hundone].
        split; [done|]. done.
Qed.

Lemma records_emit e w : records (emit e w) = records w.
Proof. done. Qed.

Lemma records_set_schema s w : records (set_schema s w) = records w.
Proof. done. Qed.

Lemma records_removeMigrationRecord migrationId w :
  records (removeMigrationRecord migrationId w)
  = filter (λ r, rec_id r ≠ migrationId) (records w).
Proof. done. Qed.

(** X20: [migrateDown] without a target.  When the unit of the ledger's
    last record (by id) is loaded, [migrateDown()] invokes the [down] of
    that unit and nothing else; when [down] returns, exactly the records
    with that id leave the ledger, and when it throws, the ledger is as it
    was and the error names the unit's file. *)
Theorem migrateDown_default_rolls_back_latest w r m :
  last (getAppliedMigrations w) = Some r →
  find (λ m, String.eqb (id m) (rec_id r))
       (migrations (loadMigrations (initMigrationTable w))) = Some m →
  ∃ w' new,
    trace w' = trace w ++ new
    ∧ calls_up new = [] ∧ calls_down new = [filename m]
    ∧ match down m (schema w) with
      | Done s =>
          migrateDown None w = (Returned (), w')
          ∧ schema w' = s
          ∧ records w' = filter (λ r', rec_id r' ≠ rec_id r) (records w)
      | Failed s msg =>
          migrateDown None w = (Thrown (RollbackError (filename m) msg), w')
          ∧ schema w' = s
          ∧ records w' = records w
      end.
Proof.
  intros Hlast Hfind. unfold migrateDown.
  destruct (prepare_spec w) as (Hr & Hs & Hc & Hf & Hm & logs & Ht & Hlogs).
  pose proof (getAppliedMigrations_prepare w) as Happlied.
  set (w2 := loadMigrations (initMigrationTable w)) in *.
  destruct (calls_of_logs logs Hlogs) as [Hlu Hld].
  cbv zeta. rewrite Happlied, Hlast.
  rewrite decide_False.
  2:{ intros Hlen. apply length_zero_iff_nil in Hlen. by rewrite Hlen in Hlast. }
  cbn [given from_option length]. rewrite decide_False by done.
  cbn [roll_back]. change (migrations (log _ _ w2)) with (migrations w2).
  rewrite Hfind. cbn [schema log emit]. rewrite Hs.
  pose proof (find_unit_Some r _ m Hfind) as [_ Hid].
  destruct (down m (schema w)) as [s|s msg].
  - eexists _, (logs ++ [Logged Info (RollingBack 1);
                         Logged Info (RollingBackUnit (filename m));
                         CalledDown (filename m);
                         Logged Info (RolledBackUnit (filename m));
                         Logged Info RollbackDone]).
    split_and!; [| | | reflexivity | done |].
    + simpl. rewrite Ht, <- !app_assoc. done.
    + by rewrite calls_up_app, Hlu.
    + by rewrite calls_down_app, Hld.
    + rewrite !records_log, records_removeMigrationRecord, records_set_schema,
        records_emit, !records_log, Hr, Hid. done.
  - eexists _, (logs ++ [Logged Info (RollingBack 1);
                         Logged Info (RollingBackUnit (filename m));
                         CalledDown (filename m);
                         Logged Error (RollbackFailed (filename m))]).
    split_and!; [| | | reflexivity | done |].
    + simpl. rewrite Ht, <- !app_assoc. done.
    + by rewrite calls_up_app, Hlu.
    + by rewrite calls_down_app, Hld.
    + by rewrite !records_log, records_set_schema, records_emit, !records_log.
Qed.

Lemma findIndex_Some target rs i :
  findIndex target rs = Some i →
  (i < length rs)%nat ∧ ∃ r, rs !! i = Some r ∧ rec_id r = target.
Proof.
  revert i. induction rs as [|r rs IH]; intros i; simpl; [done|].
  destruct (String.eqb_spec (rec_id r) target) as [Heq|Hne].
  - intros [= <-]. split; [lia|]. by exists r.
  - destruct (findIndex target rs) as [j|]; [|done]. intros [= <-].
    destruct (IH j eq_refl) as [Hlt Hr]. split; [lia | done].
Qed.

(** X21: [migrateDown] to a target.  With record ids that are pairwise
    distinct, [migrateDown(target)] keeps the target's record and every
    record sorted before it, adds no record and invokes no [up]; when it
    returns, every record sorted after the target whose unit is loaded has
    left the ledger. *)
Theorem migrateDown_keeps_target_and_earlier target w res w' i :
  target ≠ EmptyString →
  NoDup (rec_id <$> records w) →
  findIndex target (getAppliedMigrations w) = Some i →
  migrateDown (Some target) w = (res, w') →
  let applied := getAppliedMigrations w in
  (∀ r, r ∈ take (S i) applied → r ∈ records w')
  ∧ (∀ r, r ∈ records w' → r ∈ records w)
  ∧ (∃ new, trace w' = trace w ++ new ∧ calls_up new = [])
  ∧ (res = Returned () →
     ∀ r m, r ∈ drop (S i) applied →
            find (λ m, String.eqb (id m) (rec_id r))
                 (migrations (loadMigrations (initMigrationTable w))) = Some m →
            r ∉ records w').
Proof.
  intros Hne Hnd Hidx Hdown applied. revert Hdown. unfold migrateDown.
  destruct (prepare_spec w) as (Hr & Hs & Hc & Hf & Hm & logs & Ht & Hlogs).
  pose proof (getAppliedMigrations_prepare w) as Happlied.
  set (w2 := loadMigrations (initMigrationTable w)) in *.
  destruct (calls_of_logs logs Hlogs) as [Hlu Hld].
  cbv zeta. rewrite Happlied. fold applied.
  assert (Happ : ∀ r, r ∈ applied ↔ r ∈ records w).
  { intros r. apply elem_of_getAppliedMigrations. }
  assert (Hnda : NoDup (rec_id <$> applied)).
  { unfold applied, getAppliedMigrations.
    by rewrite stable_sort_Permutation. }
  destruct (findIndex_Some _ _ _ Hidx) as [Hlt _].
  rewrite decide_False.
  2:{ intros Hlen. fold applied in Hlt. lia. }
  unfold given. rewrite (proj2 (String.eqb_neq _ _) Hne). fold applied in Hidx.
  rewrite Hidx. replace (i + 1)%nat with (S i) by lia.
  rewrite <- (take_drop (S i) applied) in Hnda. rewrite fmap_app in Hnda.
  apply NoDup_app in Hnda as (_ & Hdisj & _).
  destruct (decide (length (reverse (drop (S i) applied)) = 0%nat)) as [Hnone|Hsome].
  { intros [= <- <-]. rewrite records_log, Hr. split_and!.
    - intros r Hin. apply Happ. by apply (subseteq_take (S i) applied).
    - done.
    - exists (logs ++ [Logged Info NothingToRollBack]).
      rewrite trace_log, Ht, <- app_assoc, calls_up_app, Hlu. done.
    - intros _ r m Hin. rewrite length_reverse in Hnone.
      apply length_zero_iff_nil in Hnone. rewrite Hnone in Hin.
      by apply not_elem_of_nil in Hin. }
  destruct (roll_back _ _) as [res4 w4] eqn:Hloop.
  apply roll_back_run in Hloop as (undone & new & Ht4 & Hu4 & Hr4 & Hids & Hres4).
  rewrite records_log, Hr in Hr4. rewrite trace_log, Ht in Ht4.
  change (migrations (log _ _ w2)) with (migrations w2) in Hres4.
  assert (Hrec : ∀ w5, records w5 = records w4 →
            (∀ r, r ∈ take (S i) applied → r ∈ records w5)
            ∧ (∀ r, r ∈ records w5 → r ∈ records w)).
  { intros w5 ->. rewrite Hr4. split.
    - intros r Hin. apply list_elem_of_filter. split.
      + intros Hun. apply list_elem_of_fmap in Hun as (m & Heq & Hm').
        apply Hids in Hm'. rewrite <- Heq in Hm'. rewrite fmap_reverse in Hm'.
        rewrite elem_of_reverse in Hm'.
        apply (Hdisj (rec_id r)); [|done]. apply list_elem_of_fmap. by exists r.
      + apply Happ. by apply (subseteq_take (S i) applied).
    - intros r Hin. by apply list_elem_of_filter in Hin as [_ ?]. }
  destruct res4 as [[]|e]; intros [= <- <-].
  - destruct (Hrec (log Info RollbackDone w4) eq_refl) as [Hkeep Hsub].
    split_and!; [done | done | |].
    + eexists. rewrite trace_log, Ht4, <- !app_assoc. split; [reflexivity|].
      by rewrite !calls_up_app, Hlu, Hu4.
    + intros _ r m Hin Hfind. rewrite records_log, Hr4.
      rewrite list_elem_of_filter. intros [Hnot _]. apply Hnot.
      destruct Hres4 as [_ ->]. apply list_elem_of_fmap. exists m.
      pose proof (find_unit_Some r _ m Hfind) as [_ Hid]. split; [done|].
      apply list_elem_of_omap. exists r. split; [|done].
      by rewrite elem_of_reverse.
  - destruct (Hrec w4 eq_refl) as [Hkeep Hsub].
    split_and!; [done | done | | done].
    eexists. rewrite Ht4, <- !app_assoc. split; [reflexivity|].
    by rewrite !calls_up_app, Hlu, Hu4.
Qed.

End RunFacts.

(** *** On the example stores *)

Lemma migrateUp_applies_each_pending_once_witness :
  migrateUp ex_fresh = (Returned (), ex_migrated)
  ∧ ∃ new,
      trace ex_migrated = trace ex_fresh ++ new
      ∧ calls_up new = ["001-initial-schema.ts"; "002-memories.ts"]
      ∧ calls_down new = []
      ∧ records ex_migrated
        = [ex_record "001" "001-initial-schema.ts"; ex_record "002" "002-memories.ts"].
Proof.
  split; [reflexivity|].
  destruct (migrateUp_applies_each_pending_once ex_fresh ex_migrated eq_refl)
    as (new & Ht & Hu & Hd & Hr & _).
  exists new. split_and!; [exact Ht | exact Hu | exact Hd | exact Hr].
Defined.

Lemma migrateUp_stops_at_first_failure_witness :
  migrateUp ex_breaking
  = (Thrown (ApplyError "002-broken.ts" "syntax error"), ex_broken)
  ∧ ∃ new,
      trace ex_broken = trace ex_breaking ++ new
      ∧ calls_up new = ["001-initial-schema.ts"; "002-broken.ts"]
      ∧ records ex_broken = [ex_record "001" "001-initial-schema.ts"].
Proof.
  split; [reflexivity|].
  destruct (migrateUp_stops_at_first_failure ex_breaking
              (ApplyError "002-broken.ts" "syntax error") ex_broken eq_refl)
    as (applied & m & rest & cause & new & Hp & He & Ht & Hu & _ & Hr).
  destruct applied as [|m1 [|m2 applied]];
    [discriminate Hr | | discriminate Hr].
  injection Hp as <- <- _. exists new.
  split_and!; [exact Ht | exact Hu | exact Hr].
Defined.

Lemma loadMigrations_loads_valid_files_witness :
  migrations (loadMigrations ex_fresh) = [ex_unit_001; ex_unit_002]
  ∧ StronglySorted (λ a b, String.leb (id a) (id b) = true)
      (migrations (loadMigrations ex_fresh))
  ∧ loaded_from ex_unit_001 ex_file_001.
Proof.
  destruct (loadMigrations_loads_valid_files ex_fresh [ex_file_002; ex_file_001]
              eq_refl) as [Hiff Hsorted].
  split_and!; [reflexivity | |].
  - apply Hsorted; [apply String_leb_false | apply String_leb_trans].
  - by split_and!.
Defined.

Lemma migrateDown_default_rolls_back_latest_witness :
  ∃ w' new,
    trace w' = trace ex_migrated ++ new
    ∧ calls_down new = ["002-memories.ts"]
    ∧ migrateDown None ex_migrated = (Returned (), w')
    ∧ schema w' = ["tasks"]
    ∧ records w' = [ex_record "001" "001-initial-schema.ts"].
Proof.
  destruct (migrateDown_default_rolls_back_latest ex_migrated
              (ex_record "002" "002-memories.ts") ex_unit_002 eq_refl eq_refl)
    as (w' & new & Ht & _ & Hd & Hrun & Hs & Hr).
  exists w', new. split_and!; [exact Ht | exact Hd | exact Hrun | exact Hs | exact Hr].
Defined.

Lemma migrateDown_keeps_target_and_earlier_witness :
  ex_record "001" "001-initial-schema.ts"
  ∈ records (migrateDown (Some "001") ex_migrated).2
  ∧ ex_record "002" "002-memories.ts"
    ∉ records (migrateDown (Some "001") ex_migrated).2.
Proof.
  assert (Hnd : NoDup (rec_id <$> records ex_migrated)).
  { apply (bool_decide_unpack _). reflexivity. }
  destruct (migrateDown_keeps_target_and_earlier "001" ex_migrated
              (migrateDown (Some "001") ex_migrated).1
              (migrateDown (Some "001") ex_migrated).2 0
              ltac:(discriminate) Hnd eq_refl (surjective_pairing _))
    as (Hkeep & _ & _ & Hgone).
  split.
  - apply Hkeep. left.
  - apply (Hgone eq_refl _ ex_unit_002); [|reflexivity]. left.
Defined.

End MigrationRuns.

(** ** Tokens and scores *)

Section TokenFacts.
Context `{E : JsEnv}.

Lemma lower_char_idem c : lower_char (lower_char c) = lower_char c.
Proof. destruct c as [[] [] [] [] [] [] [] []]; reflexivity. Qed.

Lemma all_chars_app p (s1 s2 : string) :
  all_chars p (s1 +:+ s2) = all_chars p s1 && all_chars p s2.
Proof.
  induction s1 as [|c s1 IH]; [reflexivity|].
  change (p c && all_chars p (s1 +:+ s2) = p c && all_chars p s1 && all_chars p s2).
  rewrite IH. by rewrite andb_assoc.
Qed.

Lemma all_chars_toLowerCase s :
  all_chars (λ c, bool_decide (lower_char c = c)) (toLowerCase s) = true.
Proof.
  induction s as [|c s IH]; [reflexivity|]. simpl.
  rewrite IH, andb_true_r. apply bool_decide_eq_true. apply lower_char_idem.
Qed.

Lemma toLowerCase_idem s : toLowerCase (toLowerCase s) = toLowerCase s.
Proof.
  induction s as [|c s IH]; [reflexivity|]. simpl. by rewrite lower_char_idem, IH.
Qed.

Lemma split_W_tokens s : ∀ cur in_sep t,
  all_chars (λ c, bool_decide (lower_char c = c)) s = true →
  all_chars is_token_char cur = true →
  t ∈ split_W s cur in_sep →
  all_chars is_token_char t = true.
Proof.
  induction s as [|c s IH]; intros cur in_sep t Hs Hcur; simpl.
  - by intros ->%list_elem_of_singleton.
  - simpl in Hs. apply andb_true_iff in Hs as [Hc Hs].
    destruct (is_word_char c) eqn:Hw.
    + apply IH; [done|]. rewrite all_chars_app, Hcur. simpl.
      unfold is_token_char. by rewrite Hw, Hc.
    + destruct in_sep.
      * by apply IH.
      * intros [->|Hin]%elem_of_cons; [done|]. by apply (IH EmptyString true).
Qed.

(** X22: tokens.  Every token that [tokenize] returns is a non-empty run
    of the characters a-z, 0-9 and underscore; [tokenize] does not
    distinguish a text from its lower-case form, and the empty text has no
    tokens. *)
Theorem tokenize_tokens (s : string) :
  (∀ t, t ∈ tokenize s → t ≠ EmptyString ∧ all_chars is_token_char t = true)
  ∧ tokenize (toLowerCase s) = tokenize s
  ∧ tokenize EmptyString = [].
Proof.
  split_and!.
  - intros t Hin. unfold tokenize in Hin.
    apply list_elem_of_filter in Hin as [Hlen Hin]. split.
    + intros ->. simpl in Hlen. lia.
    + by apply (split_W_tokens (toLowerCase s) EmptyString false t
                  (all_chars_toLowerCase s)).
  - unfold tokenize. by rewrite toLowerCase_idem.
  - reflexivity.
Qed.

Lemma jaccard_range (A B : gset string) : (0 <= jaccard A B)%Q ∧ (jaccard A B <= 1)%Q.
Proof.
  unfold jaccard. case_decide as Hz; [split; unfold Qle; simpl; lia|].
  assert (Hle : (size (A ∩ B) ≤ size (A ∪ B))%nat).
  { apply subseteq_size. set_solver. }
  unfold Qle. simpl. split; [lia|].
  rewrite Z.mul_1_r, Z.mul_1_l.
  rewrite <- positive_nat_Z, Nat2Pos.id by done. lia.
Qed.

(** X23: the score.  The similarity of two token lists is never
    negative, is at most 1 when the first list has no duplicates, and is
    symmetric on lists without duplicates; a non-empty duplicate-free list
    scores 1 against itself, and lists with no common token score 0. *)
Theorem similarity_range (A B : list string) :
  (0 <= similarity A B)%Q
  ∧ (NoDup A → (similarity A B <= 1)%Q)
  ∧ (NoDup A → NoDup B → similarity A B = similarity B A)
  ∧ (NoDup A → A ≠ [] → (similarity A A == 1)%Q)
  ∧ ((∀ t, t ∈ A → t ∉ B) → (similarity A B == 0)%Q).
Proof.
  split_and!.
  - unfold similarity. case_decide; unfold Qle; simpl; lia.
  - intros Hnd. rewrite similarity_jaccard by done. apply jaccard_range.
  - intros HA HB. rewrite !similarity_jaccard by done. unfold jaccard.
    by rewrite (comm_L (∪) (list_to_set A)), (comm_L (∩) (list_to_set A)).
  - intros Hnd Hne. unfold similarity.
    rewrite filter_all_true by done.
    assert (Hu : length (remove_dups (A ++ A)) = length A).
    { rewrite <- (size_list_to_set (C := gset string) (remove_dups (A ++ A)))
        by apply NoDup_remove_dups.
      rewrite <- (size_list_to_set (C := gset string) A) by done.
      f_equal. apply set_eq. intros x.
      rewrite !elem_of_list_to_set, elem_of_remove_dups. set_solver. }
    rewrite Hu. rewrite decide_False by (by destruct A).
    unfold Qeq. simpl. rewrite Z.mul_1_r, Z.mul_1_l.
    rewrite <- positive_nat_Z, Nat2Pos.id; [done | by destruct A].
  - intros Hdisj. unfold similarity. rewrite filter_all_false by done.
    case_decide; reflexivity.
Qed.

End TokenFacts.

(** ** The context filter of the similarity search *)

Section SimilarContextFacts.
Context `{E : JsEnv}.

Lemma map_outcome_elem {A B} (f : A → outcome B) xs ys y :
  map_outcome f xs = Ok ys → y ∈ ys → ∃ x, x ∈ xs ∧ f x = Ok y.
Proof.
  revert ys. induction xs as [|x xs IH]; intros ys; simpl.
  - intros [= <-] Hy. by apply not_elem_of_nil in Hy.
  - destruct (f x) as [y0|] eqn:Hx; [|done].
    destruct (map_outcome f xs) as [ys0|]; [|done].
    intros [= <-] [->|Hy]%elem_of_cons.
    + exists x. split; [left | done].
    + destruct (IH ys0 eq_refl Hy) as (x' & Hx' & Hfx'). exists x'.
      split; [by right | done].
Qed.

Lemma Memory_rowToEntity_context now (row memory : obj) :
  NoDup (Object_keys row) →
  obj_get "context" row ≠ VUndef →
  Memory_rowToEntity now row = Ok memory →
  obj_get "context" memory = obj_get "context" row.
Proof.
  intros Hnd Hdef. unfold Memory_rowToEntity. cbv zeta.
  unfold mbind, outcome_mbind, outcome_bind.
  destruct (if truthy (obj_get "tags" row) then _ else _) as [tags|]; [|done].
  destruct (if truthy (obj_get "metadata" row) then _ else _) as [md|]; [|done].
  destruct (if truthy (obj_get "relationships" row) then _ else _) as [rel|];
    [|done].
  intros [= <-]. unfold obj_spread at 1. cbn [foldl fst snd].
  rewrite !obj_get_set_ne by discriminate.
  apply obj_get_spread_present; [done|].
  destruct (decide ("context" ∈ Object_keys row)) as [Hin|Hnot]; [done|].
  by rewrite obj_get_absent in Hdef.
Qed.

Lemma elem_of_slice0 {A} n (l : list A) x : x ∈ slice0 n l → x ∈ l.
Proof.
  unfold slice0. destruct (n <? 0); intros Hx; by eapply subseteq_take.
Qed.

Lemma elem_of_rank threshold limit (results : list (obj * Q)) r :
  r ∈ rank threshold limit results → r ∈ results.
Proof.
  unfold rank. intros Hr. apply elem_of_slice0, elem_of_stable_sort in Hr.
  by apply list_elem_of_filter in Hr as [_ ?].
Qed.

(** X24: the context filter of [findSimilar].  When the options name at
    least one context and the first is not empty, every memory that
    [findSimilar] returns is the entity of a stored row whose [context]
    column holds that first context; the table is not changed. *)
Theorem findSimilar_respects_context now content opts c cs t results t' :
  opt_context opts = Some (c :: cs) →
  c ≠ EmptyString →
  (∀ rr, rr ∈ tbl_rows t → NoDup (Object_keys rr.2)) →
  findSimilar now content (Some opts) t = (Ok results, t') →
  t' = t
  ∧ ∀ r, r ∈ results →
         obj_get "context" r.1 = VStr c
         ∧ ∃ rr, rr ∈ tbl_rows t ∧ obj_get "context" rr.2 = VStr c
                 ∧ Memory_rowToEntity now rr.2 = Ok r.1.
Proof.
  intros Hctx Hne Hrows.
  unfold findSimilar, similar_filter. simpl. rewrite Hctx.
  unfold mbind, M_bind, bind, MemoryRepository_findAll, findAll,
    mbind, M_bind, bind, lift, mret, M_ret, ret.
  unfold Memory_where_context, order_of, limit_of.
  change (obj_get "context" [("context", VStr c)]) with (VStr c).
  change (obj_get "orderBy" [("context", VStr c)]) with VUndef.
  change (obj_get "limit" [("context", VStr c)]) with VUndef.
  cbn [truthy negb is_undefined].
  rewrite (proj2 (String.eqb_neq c EmptyString) Hne). cbn [negb].
  unfold db_all. destruct (negb _); [done|]. cbn [apply_order apply_limit].
  destruct (map_outcome (Memory_rowToEntity now) _) as [memories|] eqn:Hmem;
    [|done].
  destruct (map_outcome (score _) memories) as [scored|] eqn:Hscore; [|done].
  intros [= <- <-]. split; [done|]. intros r Hr. apply elem_of_rank in Hr.
  destruct (map_outcome_elem _ _ _ _ Hscore Hr) as (memory & Hmemory & Hs).
  unfold score, mbind, outcome_mbind, outcome_bind in Hs.
  destruct (tokenize_value _); [|done]. injection Hs as <-. cbn [fst].
  destruct (map_outcome_elem _ _ _ _ Hmem Hmemory) as (row & Hrow & Hback).
  apply list_elem_of_filter in Hrow as [Hmatch Hrow].
  apply list_elem_of_fmap in Hrow as (rr & -> & Hrr).
  unfold row_matches in Hmatch. cbn [forallb fst snd sql_bind] in Hmatch.
  apply andb_prop_elim in Hmatch as [Hmatch _].
  assert (Hc : obj_get "context" rr.2 = VStr c).
  { unfold sql_eq in Hmatch. destruct (obj_get "context" rr.2); try done.
    by apply bool_decide_unpack in Hmatch. }
  split.
  - rewrite (Memory_rowToEntity_context now rr.2 memory); [done | by apply Hrows | | done].
    by rewrite Hc.
  - by exists rr.
Qed.

End SimilarContextFacts.

(** *** On the example stores *)

Lemma findSimilar_respects_context_witness :
  findSimilar 0 "deployment"
    (Some {| opt_context := Some ["ops"]; opt_threshold := Some (1 # 4)%Q;
             opt_limit := Some 5 |}) ex_memories
  = (Ok [(ex_memory "m1" "Issue: urgent deployment" "ops", (1 # 3)%Q);
         (ex_memory "m2" "urgent deployment issue" "ops", (1 # 3)%Q)],
     ex_memories)
  ∧ ∀ r, r ∈ [(ex_memory "m1" "Issue: urgent deployment" "ops", (1 # 3)%Q);
              (ex_memory "m2" "urgent deployment issue" "ops", (1 # 3)%Q)] →
         obj_get "context" r.1 = VStr "ops".
Proof.
  assert (Hrun : findSimilar 0 "deployment"
                   (Some {| opt_context := Some ["ops"];
                            opt_threshold := Some (1 # 4)%Q; opt_limit := Some 5 |})
                   ex_memories
                 = (Ok [(ex_memory "m1" "Issue: urgent deployment" "ops", (1 # 3)%Q);
                        (ex_memory "m2" "urgent deployment issue" "ops", (1 # 3)%Q)],
                    ex_memories)) by reflexivity.
  split; [exact Hrun|]. intros r Hr.
  assert (Hrows : ∀ rr, rr ∈ tbl_rows ex_memories → NoDup (Object_keys rr.2)).
  { apply Forall_forall. cbv [ex_memories tbl_rows].
    repeat (constructor; [apply (bool_decide_unpack _); reflexivity|]).
    constructor. }
  exact (proj1 (proj2 (findSimilar_respects_context 0 "deployment"
                         {| opt_context := Some ["ops"];
                            opt_threshold := Some (1 # 4)%Q; opt_limit := Some 5 |}
                         "ops" [] ex_memories _ ex_memories eq_refl
                         ltac:(discriminate) Hrows Hrun) r Hr)).
Defined.

(** ** The filter compiler of the task repository *)

Section TaskFilterCompilerFacts.
Context `{E : JsEnv}.

Lemma substring_all s : String.substring 0 (String.length s) s = s.
Proof. induction s as [|c s IH]; simpl; [done|]. by rewrite IH. Qed.

Lemma replace_first_WHERE x : replace_first "WHERE " "" ("WHERE " +:+ x) = x.
Proof.
  change ("WHERE " +:+ x)
    with (String "W" (String "H" (String "E" (String "R" (String "E"
            (String " " x)))))).
  destruct x as [|c x]; [reflexivity|].
  cbn -[String.substring String.length Nat.sub]. cbn [String.length Nat.sub].
  cbn [String.substring]. by rewrite substring_all.
Qed.

Lemma push_when_falsy v clause ps acc :
  truthy v = false → push_when v clause ps acc = acc.
Proof. unfold push_when. by intros ->. Qed.

Lemma push_date_when_falsy v clause acc :
  truthy v = false → push_date_when v clause acc = Ok acc.
Proof. unfold push_date_when. by intros ->. Qed.

(** X25: the override extends the base compiler.  For a filter in
    which each of [status], [type], [priority], [assignee], [project],
    [dueDateStart], [dueDateEnd] and [search] is absent or falsy, the task
    repository's [buildWhereClause] returns what the base repository's
    returns for the remaining keys. *)
Theorem Task_buildWhereClause_extends_base (f : obj) :
  (∀ k, k ∈ task_filter_keys → truthy (obj_get k f) = false) →
  Task_buildWhereClause (Some f)
  = Ok (buildWhereClause (Some (obj_rest task_filter_keys f))).
Proof.
  intros Hfalsy. unfold Task_buildWhereClause.
  rewrite buildWhereClause_render.
  set (conds := where_conditions (Some (obj_rest task_filter_keys f))).
  cbv beta iota zeta.
  assert (Hk : ∀ k, bool_decide (k ∈ task_filter_keys) = true →
                    truthy (obj_get k f) = false).
  { intros k Hk. apply Hfalsy. by apply bool_decide_eq_true_1 in Hk. }
  rewrite (push_when_falsy (obj_get "project" f)) by by apply Hk.
  rewrite (push_when_falsy (obj_get "assignee" f)) by by apply Hk.
  rewrite (push_when_falsy (obj_get "priority" f)) by by apply Hk.
  rewrite (push_when_falsy (obj_get "type" f)) by by apply Hk.
  rewrite (push_when_falsy (obj_get "status" f)) by by apply Hk.
  rewrite (push_date_when_falsy (obj_get "dueDateStart" f)) by by apply Hk.
  cbn [mbind outcome_mbind outcome_bind].
  rewrite (push_date_when_falsy (obj_get "dueDateEnd" f)) by by apply Hk.
  cbn [mbind outcome_mbind outcome_bind].
  rewrite (push_when_falsy (obj_get "search" f)) by by apply Hk.
  unfold render_where. destruct conds as [|c conds]; [reflexivity|].
  unfold push_when.
  change (truthy (VStr ("WHERE " +:+ ?x))) with true.
  cbn [fst snd app]. rewrite replace_first_WHERE. reflexivity.
Qed.

Lemma placeholders_app (a b : string) :
  placeholders (a +:+ b) = (placeholders a + placeholders b)%nat.
Proof.
  induction a as [|c a IH]; [reflexivity|].
  change (placeholders (String c (a +:+ b))
          = (placeholders (String c a) + placeholders b)%nat).
  simpl. rewrite IH. lia.
Qed.

Lemma placeholders_join sep (l : list string) :
  placeholders sep = 0%nat →
  placeholders (join sep l) = sum_list (placeholders <$> l).
Proof.
  intros Hsep. unfold join. induction l as [|x l IH]; [reflexivity|].
  destruct l as [|y l]; [simpl; lia|].
  change (String.concat sep (x :: y :: l))
    with (x +:+ sep +:+ String.concat sep (y :: l)).
  rewrite !placeholders_app, Hsep, IH. simpl. lia.
Qed.

Lemma sum_list_app (l1 l2 : list nat) :
  sum_list (l1 ++ l2) = (sum_list l1 + sum_list l2)%nat.
Proof. induction l1 as [|x l1 IH]; simpl; [done|]. rewrite IH. lia. Qed.

Lemma sum_list_cons (x : nat) (l : list nat) :
  sum_list (x :: l) = (x + sum_list l)%nat.
Proof. reflexivity. Qed.

Lemma placeholders_conditions (l : list (string * value)) :
  (∀ kv, kv ∈ l → placeholders kv.1 = 0%nat) →
  sum_list (placeholders <$> ((λ c, c.1 +:+ " = ?") <$> l)) = length l.*2.
Proof.
  induction l as [|kv l IH]; intros Hl; [done|].
  rewrite !fmap_cons, sum_list_cons, placeholders_app, (Hl kv) by left.
  rewrite IH by (intros kv' Hkv'; apply Hl; by right). reflexivity.
Qed.

Lemma push_when_balanced v clause ps acc :
  placeholders clause = length ps → balanced acc →
  balanced (push_when v clause ps acc).
Proof.
  unfold push_when, balanced. intros Hc Hacc. destruct (truthy v); [|done].
  simpl. rewrite fmap_app, sum_list_app, length_app. simpl. lia.
Qed.

Lemma push_date_when_balanced v clause acc acc' :
  placeholders clause = 1%nat → balanced acc →
  push_date_when v clause acc = Ok acc' → balanced acc'.
Proof.
  unfold push_date_when, balanced. intros Hc Hacc.
  destruct (truthy v); [|by intros [= <-]].
  destruct (call_toISOString v) as [iso|]; [|done].
  cbn [mbind outcome_mbind outcome_bind]. intros [= <-]. simpl.
  rewrite fmap_app, sum_list_app, length_app. simpl. lia.
Qed.

(** X26: one parameter per placeholder.  For a filter whose keys contain
    no question mark, the WHERE clause that the task repository's
    [buildWhereClause] returns has as many [?] placeholders as the
    parameter list has entries; so has the base repository's. *)
Theorem Task_buildWhereClause_balanced (f : obj) whereClause params :
  (∀ k, k ∈ Object_keys f → placeholders k = 0%nat) →
  Task_buildWhereClause (Some f) = Ok (whereClause, params) →
  placeholders whereClause = length params
  ∧ placeholders (buildWhereClause (Some f)).1
    = length (buildWhereClause (Some f)).2.
Proof.
  intros Hkeys.
  assert (Hbase : ∀ g : obj, (∀ k, k ∈ Object_keys g → placeholders k = 0%nat) →
            placeholders (render_where (where_conditions (Some g)))
            = length (where_conditions (Some g)).*2
            ∧ sum_list (placeholders <$> ((λ c, c.1 +:+ " = ?")
                                            <$> where_conditions (Some g)))
              = length (where_conditions (Some g)).*2).
  { intros g Hg.
    assert (Hsum : sum_list (placeholders <$> ((λ c, c.1 +:+ " = ?")
                                                 <$> where_conditions (Some g)))
                   = length (where_conditions (Some g)).*2).
    { apply placeholders_conditions. intros kv Hkv. apply Hg.
      unfold where_conditions, Object_entries in Hkv.
      apply (obj_rest_keys reserved_keys g kv.1).
      unfold Object_keys. apply list_elem_of_fmap. by exists kv. }
    split; [|done]. unfold render_where.
    destruct (where_conditions (Some g)) as [|c l] eqn:Hc; [done|].
    rewrite placeholders_app, placeholders_join by done. exact Hsum. }
  intros Hbuild. split.
  2:{ rewrite buildWhereClause_render. cbn [fst snd]. by apply Hbase. }
  revert Hbuild. unfold Task_buildWhereClause.
  rewrite buildWhereClause_render.
  set (g := obj_rest task_filter_keys f).
  assert (Hg : ∀ k, k ∈ Object_keys g → placeholders k = 0%nat).
  { intros k Hk. apply Hkeys. by apply (obj_rest_keys task_filter_keys f k). }
  destruct (Hbase g Hg) as [_ Hsum]. cbv beta iota zeta.
  set (acc0 := push_when _ _ _ ([], [])).
  assert (H0 : balanced acc0).
  { unfold acc0, push_when, render_where.
    destruct (where_conditions (Some g)) as [|c l] eqn:Hc; [done|].
    change (truthy (VStr ("WHERE " +:+ ?x))) with true. cbv iota.
    rewrite replace_first_WHERE. unfold balanced. cbn [fst snd app].
    rewrite fmap_cons, sum_list_cons, placeholders_join by done.
    rewrite Hsum. simpl. lia. }
  set (acc5 := push_when (obj_get "project" f) _ _ _).
  assert (H5 : balanced acc5).
  { unfold acc5. repeat (apply push_when_balanced; [done|]). exact H0. }
  destruct (push_date_when (obj_get "dueDateStart" f) _ acc5) as [acc6|] eqn:H6;
    [|done].
  apply push_date_when_balanced in H6; [|done|done].
  cbn [mbind outcome_mbind outcome_bind].
  destruct (push_date_when (obj_get "dueDateEnd" f) _ acc6) as [acc7|] eqn:H7;
    [|done].
  apply push_date_when_balanced in H7; [|done|done].
  cbn [mbind outcome_mbind outcome_bind].
  set (acc8 := push_when (obj_get "search" f) _ _ acc7).
  assert (H8 : balanced acc8).
  { unfold acc8. by apply push_when_balanced. }
  destruct acc8 as [conditions ps]. unfold balanced in H8. cbn [fst snd] in H8.
  intros [= <- <-]. case_decide as Hlen.
  - rewrite placeholders_app, placeholders_join by done. by rewrite H8.
  - destruct conditions; [|simpl in Hlen; lia]. done.
Qed.

End TaskFilterCompilerFacts.

(** *** On the example stores *)

Lemma Task_buildWhereClause_extends_base_witness :
  Task_buildWhereClause
    (Some [("title", VStr "write docs"); ("project", VStr ""); ("limit", VNum 5)])
  = Ok ("WHERE title = ?", [VStr "write docs"]).
Proof.
  etrans; [|reflexivity].
  apply (Task_buildWhereClause_extends_base
           [("title", VStr "write docs"); ("project", VStr ""); ("limit", VNum 5)]).
  intros k Hk. unfold task_filter_keys in Hk.
  repeat (apply elem_of_cons in Hk as [-> | Hk]; [reflexivity|]).
  by apply elem_of_nil in Hk.
Defined.

Lemma Task_buildWhereClause_balanced_witness :
  Task_buildWhereClause
    (Some [("status", VStr "CREATED"); ("search", VStr "docs");
           ("project", VStr "p1")])
  = Ok ("WHERE status = ? AND project = ? AND (title LIKE ? OR description LIKE ?)",
        [VStr "CREATED"; VStr "p1"; VStr "%docs%"; VStr "%docs%"])
  ∧ placeholders
      "WHERE status = ? AND project = ? AND (title LIKE ? OR description LIKE ?)"
    = 4%nat.
Proof.
  split; [reflexivity|].
  refine (proj1 (Task_buildWhereClause_balanced
                   [("status", VStr "CREATED"); ("search", VStr "docs");
                    ("project", VStr "p1")] _
                   [VStr "CREATED"; VStr "p1"; VStr "%docs%"; VStr "%docs%"]
                   _ eq_refl)).
  intros k Hk. unfold Object_keys in Hk. simpl in Hk.
  repeat (apply elem_of_cons in Hk as [-> | Hk]; [reflexivity|]).
  by apply elem_of_nil in Hk.
Defined.

(** ** The shape of the status machine *)

Section StatusMachineFacts.
Context `{E : JsEnv}.

Ltac via path :=
  solve [ exists path; simpl; repeat split; first [lia | done] ].

(** X27: the status machine is connected.  From every task status every
    status can be reached by at most three transitions that
    [validateStatusTransition] accepts; no status is terminal, and from
    CANCELLED exactly CREATED and PLANNED (and CANCELLED itself) are
    accepted. *)
Theorem status_machine_connected (c s : TaskStatus) :
  (∃ path, (length path ≤ 3)%nat ∧ legal_path c path ∧ last (c :: path) = Some s)
  ∧ (∃ next, next ≠ c
             ∧ validateStatusTransition (TaskStatus_value c) (TaskStatus_value next)
               = Ok true)
  ∧ (validateStatusTransition (TaskStatus_value CANCELLED) (TaskStatus_value s)
     = Ok true ↔ s ∈ [CANCELLED; CREATED; PLANNED]).
Proof.
  split_and!.
  - destruct c, s;
      match goal with
      | |- ∃ path, _ ∧ legal_path _ path ∧ _ = Some ?s =>
          first [ via (@nil TaskStatus) | via [s] | via [IN_PROGRESS; s]
                | via [CANCELLED; s] | via [PLANNED; s]
                | via [CREATED; IN_PROGRESS; s] ]
      end.
  - destruct c; first [ by exists CANCELLED | by exists CREATED ].
  - destruct s; split; try done; try (intros; set_solver).
Qed.

End StatusMachineFacts.
